(** * SystemDesign: parking lot demo and movie-ticket booking backend

    A shallow embedding of the C++ sources and the properties checked
    against them.

    Conventions.
    - [int] values are [Z].  The one [int] the sources increment without
      bound, the ticket counter of the parking lot, wraps to 32 bits
      ([wrap_int]); the other [int]s stay far from the ends of the range.
    - [double] values are primitive binary64 floats.
    - A [std::chrono::system_clock::time_point] is its tick count since the
      epoch, a [Z]; ticks are nanoseconds.  Every function that reads
      [system_clock::now()] takes the current time as its first argument
      [now].
    - A method that mutates its object returns the new object next to its
      C++ return value. *)

From Stdlib Require Import ZArith Lia List Ascii String.
From Stdlib Require Import Floats.PrimFloat Numbers.Cyclic.Int63.Uint63.
From Stdlib Require Floats.FloatAxioms.
From stdpp Require Import gmap strings list pretty.

Open Scope Z_scope.

(** ** Shared numeric helpers *)

(** Integer to [double] conversion, as C++ performs it implicitly: the
    nearest binary64 value, exact below 2^53.  Meant for magnitudes below
    2^63, the range of the 64-bit counts it is applied to. *)
Definition double_of_int (z : Z) : float :=
  if z <? 0
  then PrimFloat.opp (PrimFloat.of_uint63 (Uint63.of_Z (- z)))
  else PrimFloat.of_uint63 (Uint63.of_Z z).

(** The range of a 32-bit [int], and the value an [int] result takes when
    the exact result leaves the range: the two's complement
    representative, as the increment compiles to. *)
Definition INT_MIN : Z := -2147483648.
Definition INT_MAX : Z := 2147483647.

Definition wrap_int (z : Z) : Z :=
  (z - INT_MIN) mod 4294967296 + INT_MIN.

Definition ticks_per_second : Z := 1000000000.
Definition ticks_per_minute : Z := 60 * ticks_per_second.
Definition ticks_per_hour : Z := 3600 * ticks_per_second.

(** [std::chrono::duration_cast<std::chrono::hours>(d).count()]: integer
    division of the tick count, truncated toward zero. *)
Definition duration_cast_hours (d : Z) : Z := Z.quot d ticks_per_hour.

(** [std::chrono::minutes(n)] as a tick count. *)
Definition minutes (n : Z) : Z := n * ticks_per_minute.

(** [std::to_string(int)] and [operator<<(int)]: decimal digits with a
    leading minus sign for negative values. *)
Definition to_string (z : Z) : string := pretty z.

(** [ss << std::setw(w) << std::setfill(c) << text]: right-adjusted, padded
    on the left up to width [w]. *)
Definition setw_fill (w : nat) (c : ascii) (text : string) : string :=
  String.app (string_of_list_ascii (replicate (w - String.length text)%nat c)) text.

(** ** Parking lot *)

(** src/Vehicle.h *)
Inductive VehicleType := CAR | TRUCK | MOTORCYCLE | ELECTRIC.

Global Instance VehicleType_eq_dec : EqDecision VehicleType.
Proof. solve_decision. Defined.

Module Vehicle.
Record t := Build {
  licenseNumber : string;
  type : VehicleType
}.

Definition getLicenseNumber (v : t) : string := licenseNumber v.
Definition getType (v : t) : VehicleType := type v.
End Vehicle.

(** src/ParkingSlot.cpp.  [parkedVehicle] is a [shared_ptr]: [None] is
    [nullptr]. *)
Module ParkingSlot.
Record t := Build {
  slotNumber : Z;
  isOccupied : bool;
  parkedVehicle : option Vehicle.t;
  slotType : VehicleType
}.

Definition new (number : Z) (ty : VehicleType) : t :=
  {| slotNumber := number; isOccupied := false;
     parkedVehicle := None; slotType := ty |}.

Definition isAvailable (s : t) : bool := negb (isOccupied s).

Definition canPark (s : t) (vehicleType : VehicleType) : bool :=
  negb (isOccupied s) &&
  (bool_decide (slotType s = vehicleType) ||
   (bool_decide (slotType s = TRUCK) && bool_decide (vehicleType = CAR))).

Definition parkVehicle (s : t) (vehicle : Vehicle.t) : bool * t :=
  if negb (isOccupied s) &&
     (bool_decide (slotType s = Vehicle.getType vehicle) ||
      (bool_decide (slotType s = TRUCK) &&
       bool_decide (Vehicle.getType vehicle = CAR)))
  then (true, {| slotNumber := slotNumber s; isOccupied := true;
                 parkedVehicle := Some vehicle; slotType := slotType s |})
  else (false, s).

Definition vacateSlot (s : t) : t :=
  {| slotNumber := slotNumber s; isOccupied := false;
     parkedVehicle := None; slotType := slotType s |}.

Definition getSlotNumber (s : t) : Z := slotNumber s.
Definition getSlotType (s : t) : VehicleType := slotType s.
Definition getParkedVehicle (s : t) : option Vehicle.t := parkedVehicle s.
End ParkingSlot.

(** src/ParkingTicket.cpp.  The constructor leaves [amountCharged]
    uninitialised: [None] until [calculateFee] assigns it.  [exitTime] is a
    default-constructed time point, the epoch. *)
Module ParkingTicket.
Record t := Build {
  ticketNumber : string;
  entryTime : Z;
  exitTime : Z;
  amountCharged : option float;
  isPaid : bool;
  vehicle : option Vehicle.t;
  slotNumber : Z
}.

Definition new (now : Z) (number : string) (v : option Vehicle.t)
    (slotNum : Z) : t :=
  {| ticketNumber := number; entryTime := now; exitTime := 0;
     amountCharged := None; isPaid := false; vehicle := v;
     slotNumber := slotNum |}.

Definition markExit (now : Z) (tk : t) : t :=
  {| ticketNumber := ticketNumber tk; entryTime := entryTime tk;
     exitTime := now; amountCharged := amountCharged tk;
     isPaid := isPaid tk; vehicle := vehicle tk;
     slotNumber := slotNumber tk |}.

Definition calculateFee (now : Z) (hourlyRate : float) (tk : t) : float * t :=
  let duration := duration_cast_hours (now - entryTime tk) in
  let hours := double_of_int (duration + 1) in
  let fee := PrimFloat.mul hours hourlyRate in
  (fee,
   {| ticketNumber := ticketNumber tk; entryTime := entryTime tk;
      exitTime := exitTime tk; amountCharged := Some fee;
      isPaid := isPaid tk; vehicle := vehicle tk;
      slotNumber := slotNumber tk |}).

Definition getTicketNumber (tk : t) : string := ticketNumber tk.
Definition isTicketPaid (tk : t) : bool := isPaid tk.
Definition getSlotNumber (tk : t) : Z := slotNumber tk.
Definition getParkingDuration (tk : t) : Z := exitTime tk - entryTime tk.

(** [processPayment] compares against [amountCharged]; before
    [calculateFee] has assigned it the read is of an indeterminate value
    and the call has no defined result: [None]. *)
Definition processPayment (now : Z) (amount : float) (tk : t) : option t :=
  match amountCharged tk with
  | None => None
  | Some charged =>
    if PrimFloat.leb charged amount
    then Some (markExit now
                 {| ticketNumber := ticketNumber tk; entryTime := entryTime tk;
                    exitTime := exitTime tk; amountCharged := amountCharged tk;
                    isPaid := true; vehicle := vehicle tk;
                    slotNumber := slotNumber tk |})
    else Some tk
  end.

Definition getVehicleLicenseNumber (tk : t) : string :=
  match vehicle tk with
  | Some v => Vehicle.getLicenseNumber v
  | None => ""%string
  end.
End ParkingTicket.

(** src/ParkingLot.cpp.  [parkingSlots] is a vector of shared slots,
    updated in place by index; [activeTickets] is an
    [unordered_map<string, shared_ptr<ParkingTicket>>]. *)
Module ParkingLot.
Record t := Build {
  parkingSlots : list ParkingSlot.t;
  activeTickets : gmap string ParkingTicket.t;
  hourlyRate : float;
  nextTicketNumber : Z
}.

(** The body of one constructor loop: [count] slots of type [ty],
    numbered from [first]. *)
Fixpoint make_slots (count : nat) (first : Z) (ty : VehicleType)
    : list ParkingSlot.t :=
  match count with
  | O => []
  | S n => ParkingSlot.new first ty :: make_slots n (first + 1) ty
  end.

Definition new (carSpaces truckSpaces motorcycleSpaces : Z) (rate : float) : t :=
  let nt := Z.to_nat truckSpaces in
  let nc := Z.to_nat carSpaces in
  let nm := Z.to_nat motorcycleSpaces in
  {| parkingSlots :=
       make_slots nt 1 TRUCK ++
       make_slots nc (1 + Z.of_nat nt) CAR ++
       make_slots nm (1 + Z.of_nat nt + Z.of_nat nc) MOTORCYCLE;
     activeTickets := ∅;
     hourlyRate := rate;
     nextTicketNumber := 1 |}.

(** [nextTicketNumber++] on the [int] member: the number printed is the
    value before the increment. *)
Definition generateTicketNumber (lot : t) : string * t :=
  (String.app "TKT" (setw_fill 8 "0"%char (to_string (nextTicketNumber lot))),
   {| parkingSlots := parkingSlots lot; activeTickets := activeTickets lot;
      hourlyRate := hourlyRate lot;
      nextTicketNumber := wrap_int (nextTicketNumber lot + 1) |}).

Definition parkVehicle (now : Z) (vehicle : option Vehicle.t) (lot : t)
    : option ParkingTicket.t * t :=
  match vehicle with
  | None => (None, lot)
  | Some v =>
    match list_find (λ s, ParkingSlot.canPark s (Vehicle.getType v) = true)
                    (parkingSlots lot) with
    | None => (None, lot)
    | Some (i, slot) =>
      let '(ok, slot') := ParkingSlot.parkVehicle slot v in
      let lot1 := {| parkingSlots := <[i := slot']> (parkingSlots lot);
                     activeTickets := activeTickets lot;
                     hourlyRate := hourlyRate lot;
                     nextTicketNumber := nextTicketNumber lot |} in
      if ok then
        let '(ticketNumber, lot2) := generateTicketNumber lot1 in
        let ticket := ParkingTicket.new now ticketNumber (Some v)
                        (ParkingSlot.getSlotNumber slot') in
        (Some ticket,
         {| parkingSlots := parkingSlots lot2;
            activeTickets := <[ticketNumber := ticket]> (activeTickets lot2);
            hourlyRate := hourlyRate lot2;
            nextTicketNumber := nextTicketNumber lot2 |})
      else (None, lot1)
    end
  end.

(** The ticket object mutated by [calculateFee] is erased from the map
    before the function returns, so only the fee survives in the lot. *)
Definition exitParking (now : Z) (ticketNumber : string) (lot : t) : float * t :=
  match activeTickets lot !! ticketNumber with
  | None => ((-1)%float, lot)
  | Some ticket =>
    let '(fee, ticket') := ParkingTicket.calculateFee now (hourlyRate lot) ticket in
    let slotNum := ParkingTicket.getSlotNumber ticket' in
    let slots' :=
      if (0 <? slotNum) && (slotNum <=? Z.of_nat (length (parkingSlots lot)))
      then alter ParkingSlot.vacateSlot (Z.to_nat (slotNum - 1)) (parkingSlots lot)
      else parkingSlots lot in
    (fee,
     {| parkingSlots := slots';
        activeTickets := delete ticketNumber (activeTickets lot);
        hourlyRate := hourlyRate lot;
        nextTicketNumber := nextTicketNumber lot |})
  end.

Definition getAvailableSpaces (ty : VehicleType) (lot : t) : Z :=
  Z.of_nat (length (List.filter
    (fun slot =>
       ParkingSlot.isAvailable slot &&
       (bool_decide (ParkingSlot.getSlotType slot = ty) ||
        (bool_decide (ty = CAR) &&
         bool_decide (ParkingSlot.getSlotType slot = TRUCK))))
    (parkingSlots lot))).

Definition getTotalSpaces (lot : t) : Z := Z.of_nat (length (parkingSlots lot)).

Definition getOccupiedSpaces (lot : t) : Z :=
  getTotalSpaces lot -
  Z.of_nat (length (List.filter ParkingSlot.isAvailable (parkingSlots lot))).

Definition isFull (lot : t) : bool :=
  forallb (fun slot => negb (ParkingSlot.isAvailable slot)) (parkingSlots lot).

Definition isFullFor (ty : VehicleType) (lot : t) : bool :=
  getAvailableSpaces ty lot =? 0.
End ParkingLot.

(** src/parkingLot/Payment.cpp, the parking lot's [Payment] class (the
    module is named [ParkingPayment] to keep it apart from the booking
    system's [Payment] namespace).  The constructor leaves [amount]
    uninitialised: [None].  The ticket is shared with its other holders;
    the ticket as the payment leaves it is kept in the payment. *)
Module ParkingPayment.
Record t := Build {
  paymentId : string;
  amount : option float;
  paymentTime : Z;
  ticket : option ParkingTicket.t;
  isCompleted : bool
}.

Definition ticks_per_millisecond : Z := 1000000.

(** [duration_cast<milliseconds>(now.time_since_epoch()).count()]. *)
Definition milliseconds_since_epoch (now : Z) : Z :=
  Z.quot now ticks_per_millisecond.

Definition new (now : Z) (parkingTicket : option ParkingTicket.t) : t :=
  {| paymentId := "PAY" +:+ to_string (milliseconds_since_epoch now);
     amount := None;
     paymentTime := 0;
     ticket := parkingTicket;
     isCompleted := false |}.

(** The clock is read three times: by [calculateFee] ([nowFee]), for
    [paymentTime] ([nowPaid]) and by the ticket's [markExit] ([nowExit]).
    The result is [None] when the call reads an indeterminate value. *)
Definition processPayment (nowFee nowPaid nowExit : Z) (amt : float) (p : t)
    : option (bool * t) :=
  match ticket p with
  | None => Some (false, p)
  | Some tk =>
    let '(fee, tk1) := ParkingTicket.calculateFee nowFee 10%float tk in
    if PrimFloat.leb fee amt
    then
      match ParkingTicket.processPayment nowExit amt tk1 with
      | None => None
      | Some tk2 =>
        Some (true,
              {| paymentId := paymentId p; amount := Some amt;
                 paymentTime := nowPaid; ticket := Some tk2;
                 isCompleted := true |})
      end
    else
      Some (false,
            {| paymentId := paymentId p; amount := amount p;
               paymentTime := paymentTime p; ticket := Some tk1;
               isCompleted := isCompleted p |})
  end.

Definition getPaymentId (p : t) : string := paymentId p.
Definition isPaymentCompleted (p : t) : bool := isCompleted p.

Definition getAssociatedTicketNumber (p : t) : string :=
  match ticket p with
  | Some tk => ParkingTicket.getTicketNumber tk
  | None => ""%string
  end.
End ParkingPayment.

(** ** Movie-ticket booking: exception taxonomy *)

(** src/movieTicketBooking/include/utils/Exceptions.h.  A derived class is a
    record that embeds its base; a constructor argument with a default value
    is an [option], [None] standing for the omitted argument. *)
Module Utils.
Record MovieBookingException := {
  message_ : string;
  errorCode_ : string;
  httpStatusCode_ : Z
}.

Definition MovieBookingException_new (message : string)
    (errorCode : option string) (httpStatusCode : option Z)
    : MovieBookingException :=
  {| message_ := message;
     errorCode_ := default ""%string errorCode;
     httpStatusCode_ := default 500 httpStatusCode |}.

Definition what (e : MovieBookingException) : string := message_ e.
Definition getErrorCode (e : MovieBookingException) : string := errorCode_ e.
Definition getHttpStatusCode (e : MovieBookingException) : Z := httpStatusCode_ e.

Record ConflictException := {
  conflict_base : MovieBookingException;
  conflictType_ : string
}.

Definition ConflictException_new (message : string)
    (conflictType : option string) : ConflictException :=
  {| conflict_base :=
       MovieBookingException_new message (Some "CONFLICT_ERROR"%string) (Some 409);
     conflictType_ := default ""%string conflictType |}.

Definition SeatAlreadyBookedException_new (seatId showId : Z) : ConflictException :=
  ConflictException_new
    ("Seat " +:+ to_string seatId +:+ " is already booked for show "
       +:+ to_string showId)
    (Some "SEAT_ALREADY_BOOKED"%string).

Record BusinessRuleException := {
  rule_base : MovieBookingException;
  rule_ : string
}.

Definition BusinessRuleException_new (message : string) (rule : option string)
    : BusinessRuleException :=
  {| rule_base :=
       MovieBookingException_new message
         (Some "BUSINESS_RULE_VIOLATION"%string) (Some 422);
     rule_ := default ""%string rule |}.

Definition getRule (e : BusinessRuleException) : string := rule_ e.

Definition BookingExpiredException_new (bookingId : Z) : BusinessRuleException :=
  BusinessRuleException_new
    ("Booking " +:+ to_string bookingId +:+ " has expired")
    (Some "BOOKING_EXPIRED"%string).

Definition InsufficientSeatsException_new (requested available : Z)
    : BusinessRuleException :=
  BusinessRuleException_new
    ("Insufficient seats available. Requested: " +:+ to_string requested
       +:+ ", Available: " +:+ to_string available)
    (Some "INSUFFICIENT_SEATS"%string).

(** The remaining exception classes of Exceptions.h, each with the base
    subobject its constructor builds and the members it adds. *)
Definition getConflictType (e : ConflictException) : string := conflictType_ e.

Record ValidationException := {
  validation_base : MovieBookingException;
  field_ : string
}.

Definition ValidationException_new (message : string) (field : option string)
    : ValidationException :=
  {| validation_base :=
       MovieBookingException_new message (Some "VALIDATION_ERROR"%string) (Some 400);
     field_ := default ""%string field |}.

Definition getField (e : ValidationException) : string := field_ e.

Record AuthenticationException := {
  authentication_base : MovieBookingException
}.

Definition AuthenticationException_new (message : option string)
    : AuthenticationException :=
  {| authentication_base :=
       MovieBookingException_new
         (default "Authentication failed"%string message)
         (Some "AUTHENTICATION_ERROR"%string) (Some 401) |}.

Record AuthorizationException := {
  authorization_base : MovieBookingException
}.

Definition AuthorizationException_new (message : option string)
    : AuthorizationException :=
  {| authorization_base :=
       MovieBookingException_new
         (default "Access denied"%string message)
         (Some "AUTHORIZATION_ERROR"%string) (Some 403) |}.

Record ResourceNotFoundException := {
  notfound_base : MovieBookingException;
  resourceType_ : string;
  resourceId_ : string
}.

Definition ResourceNotFoundException_new (resourceType resourceId : string)
    : ResourceNotFoundException :=
  {| notfound_base :=
       MovieBookingException_new
         (resourceType +:+ " with ID '" +:+ resourceId +:+ "' not found")
         (Some "RESOURCE_NOT_FOUND"%string) (Some 404);
     resourceType_ := resourceType;
     resourceId_ := resourceId |}.

Definition getResourceType (e : ResourceNotFoundException) : string :=
  resourceType_ e.
Definition getResourceId (e : ResourceNotFoundException) : string :=
  resourceId_ e.

Definition ShowTimeConflictException_new (screenId : Z) : ConflictException :=
  ConflictException_new
    ("Show time conflict detected for screen " +:+ to_string screenId)
    (Some "SHOW_TIME_CONFLICT"%string).

Record PaymentException := {
  payment_base : MovieBookingException;
  paymentId_ : string;
  gateway_ : string
}.

Definition PaymentException_new (message : string)
    (paymentId gateway : option string) : PaymentException :=
  {| payment_base :=
       MovieBookingException_new message (Some "PAYMENT_ERROR"%string) (Some 402);
     paymentId_ := default ""%string paymentId;
     gateway_ := default ""%string gateway |}.

Definition getPaymentId (e : PaymentException) : string := paymentId_ e.
Definition getGateway (e : PaymentException) : string := gateway_ e.

Definition PaymentFailedException_new (paymentId : string)
    (reason : option string) : PaymentException :=
  PaymentException_new ("Payment failed: " +:+ default ""%string reason)
    (Some paymentId) None.

Definition RefundException_new (paymentId : string) (reason : option string)
    : PaymentException :=
  PaymentException_new ("Refund failed: " +:+ default ""%string reason)
    (Some paymentId) None.

Record DatabaseException := {
  database_base : MovieBookingException;
  query_ : string;
  databaseError_ : string
}.

Definition DatabaseException_new (message : string)
    (query databaseError : option string) : DatabaseException :=
  {| database_base :=
       MovieBookingException_new message (Some "DATABASE_ERROR"%string) (Some 500);
     query_ := default ""%string query;
     databaseError_ := default ""%string databaseError |}.

Definition getQuery (e : DatabaseException) : string := query_ e.
Definition getDatabaseError (e : DatabaseException) : string := databaseError_ e.

Definition ConnectionException_new (message : string) : DatabaseException :=
  DatabaseException_new ("Database connection failed: " +:+ message) None None.

Definition QueryException_new (message : string) (query : option string)
    : DatabaseException :=
  DatabaseException_new ("Query execution failed: " +:+ message)
    (Some (default ""%string query)) None.

Record ConcurrencyException := {
  concurrency_base : MovieBookingException
}.

Definition ConcurrencyException_new (message : string) : ConcurrencyException :=
  {| concurrency_base :=
       MovieBookingException_new message (Some "CONCURRENCY_ERROR"%string)
         (Some 409) |}.

Definition LockTimeoutException_new (resource : string) (timeoutMs : Z)
    : ConcurrencyException :=
  ConcurrencyException_new
    ("Failed to acquire lock on " +:+ resource +:+ " within "
       +:+ to_string timeoutMs +:+ "ms").

Definition DeadlockException_new (message : option string)
    : ConcurrencyException :=
  ConcurrencyException_new (default "Deadlock detected"%string message).

Record RateLimitException := {
  ratelimit_base : MovieBookingException;
  retryAfterSeconds_ : Z
}.

Definition RateLimitException_new (message : string)
    (retryAfterSeconds : option Z) : RateLimitException :=
  {| ratelimit_base :=
       MovieBookingException_new message (Some "RATE_LIMIT_EXCEEDED"%string)
         (Some 429);
     retryAfterSeconds_ := default 60 retryAfterSeconds |}.

Definition getRetryAfterSeconds (e : RateLimitException) : Z :=
  retryAfterSeconds_ e.

Record ConfigurationException := {
  configuration_base : MovieBookingException;
  configKey_ : string
}.

Definition ConfigurationException_new (message : string)
    (configKey : option string) : ConfigurationException :=
  {| configuration_base :=
       MovieBookingException_new message (Some "CONFIGURATION_ERROR"%string)
         (Some 500);
     configKey_ := default ""%string configKey |}.

Definition getConfigKey (e : ConfigurationException) : string := configKey_ e.

Record ExternalServiceException := {
  external_base : MovieBookingException;
  serviceName_ : string;
  serviceError_ : string
}.

Definition ExternalServiceException_new (serviceName message : string)
    (serviceError : option string) : ExternalServiceException :=
  {| external_base :=
       MovieBookingException_new
         (serviceName +:+ " service error: " +:+ message)
         (Some "EXTERNAL_SERVICE_ERROR"%string) (Some 502);
     serviceName_ := serviceName;
     serviceError_ := default ""%string serviceError |}.

Definition getServiceName (e : ExternalServiceException) : string :=
  serviceName_ e.
Definition getServiceError (e : ExternalServiceException) : string :=
  serviceError_ e.

Definition PaymentGatewayException_new (gateway message : string)
    : ExternalServiceException :=
  ExternalServiceException_new (gateway +:+ " payment gateway") message None.

(** An exception of any of the derived classes, as a handler catching
    [const MovieBookingException&] receives it. *)
Inductive Thrown :=
| ThrownValidation (e : ValidationException)
| ThrownAuthentication (e : AuthenticationException)
| ThrownAuthorization (e : AuthorizationException)
| ThrownResourceNotFound (e : ResourceNotFoundException)
| ThrownConflict (e : ConflictException)
| ThrownBusinessRule (e : BusinessRuleException)
| ThrownPayment (e : PaymentException)
| ThrownDatabase (e : DatabaseException)
| ThrownConcurrency (e : ConcurrencyException)
| ThrownRateLimit (e : RateLimitException)
| ThrownConfiguration (e : ConfigurationException)
| ThrownExternalService (e : ExternalServiceException).

Definition base_of (x : Thrown) : MovieBookingException :=
  match x with
  | ThrownValidation e => validation_base e
  | ThrownAuthentication e => authentication_base e
  | ThrownAuthorization e => authorization_base e
  | ThrownResourceNotFound e => notfound_base e
  | ThrownConflict e => conflict_base e
  | ThrownBusinessRule e => rule_base e
  | ThrownPayment e => payment_base e
  | ThrownDatabase e => database_base e
  | ThrownConcurrency e => concurrency_base e
  | ThrownRateLimit e => ratelimit_base e
  | ThrownConfiguration e => configuration_base e
  | ThrownExternalService e => external_base e
  end.

(** The exceptions the constructors of the derived classes build. *)
Inductive constructed : Thrown -> Prop :=
| by_Validation message field :
    constructed (ThrownValidation (ValidationException_new message field))
| by_Authentication message :
    constructed (ThrownAuthentication (AuthenticationException_new message))
| by_Authorization message :
    constructed (ThrownAuthorization (AuthorizationException_new message))
| by_ResourceNotFound resourceType resourceId :
    constructed (ThrownResourceNotFound
                   (ResourceNotFoundException_new resourceType resourceId))
| by_Conflict message conflictType :
    constructed (ThrownConflict (ConflictException_new message conflictType))
| by_SeatAlreadyBooked seatId showId :
    constructed (ThrownConflict (SeatAlreadyBookedException_new seatId showId))
| by_ShowTimeConflict screenId :
    constructed (ThrownConflict (ShowTimeConflictException_new screenId))
| by_BusinessRule message rule :
    constructed (ThrownBusinessRule (BusinessRuleException_new message rule))
| by_BookingExpired bookingId :
    constructed (ThrownBusinessRule (BookingExpiredException_new bookingId))
| by_InsufficientSeats requested available :
    constructed (ThrownBusinessRule
                   (InsufficientSeatsException_new requested available))
| by_Payment message paymentId gateway :
    constructed (ThrownPayment (PaymentException_new message paymentId gateway))
| by_PaymentFailed paymentId reason :
    constructed (ThrownPayment (PaymentFailedException_new paymentId reason))
| by_Refund paymentId reason :
    constructed (ThrownPayment (RefundException_new paymentId reason))
| by_Database message query databaseError :
    constructed (ThrownDatabase
                   (DatabaseException_new message query databaseError))
| by_Connection message :
    constructed (ThrownDatabase (ConnectionException_new message))
| by_Query message query :
    constructed (ThrownDatabase (QueryException_new message query))
| by_Concurrency message :
    constructed (ThrownConcurrency (ConcurrencyException_new message))
| by_LockTimeout resource timeoutMs :
    constructed (ThrownConcurrency (LockTimeoutException_new resource timeoutMs))
| by_Deadlock message :
    constructed (ThrownConcurrency (DeadlockException_new message))
| by_RateLimit message retryAfterSeconds :
    constructed (ThrownRateLimit
                   (RateLimitException_new message retryAfterSeconds))
| by_Configuration message configKey :
    constructed (ThrownConfiguration
                   (ConfigurationException_new message configKey))
| by_ExternalService serviceName message serviceError :
    constructed (ThrownExternalService
                   (ExternalServiceException_new serviceName message serviceError))
| by_PaymentGateway gateway message :
    constructed (ThrownExternalService
                   (PaymentGatewayException_new gateway message)).
End Utils.

(** ** Movie-ticket booking: payment gateway types *)

(** src/movieTicketBooking/include/payment/PaymentGateway.h *)
Module Payment.
Inductive PaymentMethod := CREDIT_CARD | DEBIT_CARD | UPI | NET_BANKING | WALLET.

Inductive PaymentStatus :=
  PENDING | PROCESSING | COMPLETED | FAILED | REFUNDED | CANCELLED.

Global Instance PaymentStatus_eq_dec : EqDecision PaymentStatus.
Proof. solve_decision. Defined.

Record PaymentResponse := {
  success : bool;
  transactionId : string;
  paymentId : string;
  status : PaymentStatus;
  message : string;
  gatewayResponse : string;
  processedAt : Z;
  additionalData : gmap string string
}.

(** The members without a mem-initializer are default-constructed: empty
    strings and an empty map. *)
Definition PaymentResponse_new (now : Z) (success : bool)
    (message : option string) : PaymentResponse :=
  {| success := success;
     transactionId := ""%string;
     paymentId := ""%string;
     status := FAILED;
     message := default ""%string message;
     gatewayResponse := ""%string;
     processedAt := now;
     additionalData := ∅ |}.

(** The retry configuration of [PaymentService]; [retryDelay_] is a
    [std::chrono::seconds] count. *)
Record PaymentService := {
  defaultGateway_ : string;
  maxRetries_ : Z;
  retryDelay_ : Z
}.

(** Modelled from the spec: the constructor body is not in src, only its
    declaration with the default arguments ["mock"], [3] and
    [std::chrono::seconds(2)]; it stores each argument in the member of
    the same name. *)
Definition PaymentService_new (defaultGateway : option string)
    (maxRetries : option Z) (retryDelay : option Z) : PaymentService :=
  {| defaultGateway_ := default "mock"%string defaultGateway;
     maxRetries_ := default 3 maxRetries;
     retryDelay_ := default 2 retryDelay |}.

Definition setMaxRetries (retries : Z) (p : PaymentService) : PaymentService :=
  {| defaultGateway_ := defaultGateway_ p; maxRetries_ := retries;
     retryDelay_ := retryDelay_ p |}.

Definition setRetryDelay (delay : Z) (p : PaymentService) : PaymentService :=
  {| defaultGateway_ := defaultGateway_ p; maxRetries_ := maxRetries_ p;
     retryDelay_ := delay |}.
End Payment.

(** ** Movie-ticket booking: models *)

(** src/movieTicketBooking/include/models/Booking.h and Show.h.  The enums
    and the data members are those of the headers.  The member functions
    are declared there but defined nowhere under src. *)
Module Models.
(** The scoped enums whose enumerators share names (PENDING, CANCELLED,
    COMPLETED) each live in a module of their own. *)
Module BookingStatus.
Inductive t := PENDING | CONFIRMED | CANCELLED | EXPIRED.
End BookingStatus.

Module PaymentStatus.
Inductive t := PENDING | PROCESSING | COMPLETED | FAILED | REFUNDED.
End PaymentStatus.

Module ShowStatus.
Inductive t := SCHEDULED | CANCELLED | COMPLETED | IN_PROGRESS.
End ShowStatus.

Inductive ShowSeatStatus := AVAILABLE | LOCKED | BOOKED | MAINTENANCE.

Global Instance BookingStatus_eq_dec : EqDecision BookingStatus.t.
Proof. solve_decision. Defined.
Global Instance PaymentStatus_eq_dec : EqDecision PaymentStatus.t.
Proof. solve_decision. Defined.
Global Instance ShowStatus_eq_dec : EqDecision ShowStatus.t.
Proof. solve_decision. Defined.
Global Instance ShowSeatStatus_eq_dec : EqDecision ShowSeatStatus.
Proof. solve_decision. Defined.

(** Modelled from the spec: the empty holder of spec 3, for which the
    [int] member [bookingId_] needs a value that names no booking; -1, as
    in the default argument [int bookingId = -1] of
    [ShowRepository::updateShowSeatStatus]. *)
Definition NO_BOOKING : Z := -1.

(** Modelled from the spec: the cleared lock expiry of spec 3, for which
    the member [lockedUntil_] takes the default-constructed time point. *)
Definition NO_LOCK : Z := 0.

Module ShowSeat.
Record t := Build {
  id_ : Z;
  showId_ : Z;
  seatId_ : Z;
  status_ : ShowSeatStatus;
  lockedUntil_ : Z;
  bookingId_ : Z;
  price_ : float
}.

(** Modelled from the spec: the constructor body is not in src.  A new
    seat has no holder and no lock expiry (spec 3, Seat invariants). *)
Definition new (id showId seatId : Z) (status : option ShowSeatStatus)
    (price : option float) : t :=
  {| id_ := id; showId_ := showId; seatId_ := seatId;
     status_ := default AVAILABLE status;
     lockedUntil_ := NO_LOCK; bookingId_ := NO_BOOKING;
     price_ := default 0%float price |}.

Definition getSeatId (s : t) : Z := seatId_ s.
Definition getStatus (s : t) : ShowSeatStatus := status_ s.
Definition getLockedUntil (s : t) : Z := lockedUntil_ s.
Definition getBookingId (s : t) : Z := bookingId_ s.
Definition getPrice (s : t) : float := price_ s.

(** Modelled from the spec: [ShowSeat::isAvailable] is not in src.  The
    effective, stale-lock-aware status of spec 4.7, which is also the guard
    of the conditional update of spec 4.2 step 5: the status is AVAILABLE,
    or LOCKED with [lockedUntil <= now]. *)
Definition isAvailable (now : Z) (s : t) : bool :=
  match status_ s with
  | AVAILABLE => true
  | LOCKED => lockedUntil_ s <=? now
  | BOOKED | MAINTENANCE => false
  end.

(** Modelled from the spec: [ShowSeat::lockSeat] is not in src.  The
    conditional update of spec 4.2 step 5: guarded by
    [(status = AVAILABLE) or (status = LOCKED and lockedUntil <= now)],
    set status LOCKED, the holder, and
    [lockedUntil = now + lockDuration]. *)
Definition lockSeat (now : Z) (bookingId lockDurationMinutes : Z) (s : t)
    : bool * t :=
  if isAvailable now s
  then (true,
        {| id_ := id_ s; showId_ := showId_ s; seatId_ := seatId_ s;
           status_ := LOCKED;
           lockedUntil_ := now + minutes lockDurationMinutes;
           bookingId_ := bookingId;
           price_ := price_ s |})
  else (false, s).

(** Modelled from the spec: [ShowSeat::releaseLock] is not in src.
    Spec 4.4: a LOCKED seat goes to AVAILABLE with holder and
    lockedUntil cleared.  The method takes no booking id; its callers
    select the seats of a booking. *)
Definition releaseLock (s : t) : bool * t :=
  match status_ s with
  | LOCKED =>
    (true,
     {| id_ := id_ s; showId_ := showId_ s; seatId_ := seatId_ s;
        status_ := AVAILABLE; lockedUntil_ := NO_LOCK;
        bookingId_ := NO_BOOKING; price_ := price_ s |})
  | _ => (false, s)
  end.

(** Modelled from the spec: [ShowSeat::bookSeat] is not in src.  The
    conditional update of spec 4.3 step 3:
    [(status = LOCKED and holder = bookingId) -> status = BOOKED]. *)
Definition bookSeat (bookingId : Z) (s : t) : bool * t :=
  if bool_decide (status_ s = LOCKED) && (bookingId_ s =? bookingId)
  then (true,
        {| id_ := id_ s; showId_ := showId_ s; seatId_ := seatId_ s;
           status_ := BOOKED; lockedUntil_ := lockedUntil_ s;
           bookingId_ := bookingId_ s; price_ := price_ s |})
  else (false, s).

(** Modelled from the spec: the release of a BOOKED seat when a
    confirmed booking is cancelled (spec 4.4), for which the header
    declares no method of its own. *)
Definition releaseBooked (s : t) : t :=
  {| id_ := id_ s; showId_ := showId_ s; seatId_ := seatId_ s;
     status_ := AVAILABLE; lockedUntil_ := NO_LOCK;
     bookingId_ := NO_BOOKING; price_ := price_ s |}.
End ShowSeat.

Module Show.
Record t := Build {
  id_ : Z;
  movieId_ : Z;
  screenId_ : Z;
  startTime_ : Z;
  endTime_ : Z;
  basePrice_ : float;
  status_ : ShowStatus.t;
  showSeats_ : list ShowSeat.t;
  createdAt_ : Z;
  updatedAt_ : Z
}.

Definition getStartTime (sh : t) : Z := startTime_ sh.
Definition getStatus (sh : t) : ShowStatus.t := status_ sh.

Definition with_seats (seats : list ShowSeat.t) (sh : t) : t :=
  {| id_ := id_ sh; movieId_ := movieId_ sh; screenId_ := screenId_ sh;
     startTime_ := startTime_ sh; endTime_ := endTime_ sh;
     basePrice_ := basePrice_ sh; status_ := status_ sh;
     showSeats_ := seats;
     createdAt_ := createdAt_ sh; updatedAt_ := updatedAt_ sh |}.

(** Modelled from the spec: [Show::getShowSeatById] is not in src; the
    first seat of the vector with the given seat id, or [nullptr]. *)
Fixpoint find_seat (seatId : Z) (seats : list ShowSeat.t) : option ShowSeat.t :=
  match seats with
  | [] => None
  | s :: rest =>
    if ShowSeat.seatId_ s =? seatId then Some s else find_seat seatId rest
  end.

Definition getShowSeatById (seatId : Z) (sh : t) : option ShowSeat.t :=
  find_seat seatId (showSeats_ sh).

(** Modelled from the spec: the write through the pointer
    [getShowSeatById] returns; the first seat with the given id is
    replaced by [f] of it. *)
Fixpoint update_seat (seatId : Z) (f : ShowSeat.t -> ShowSeat.t)
    (seats : list ShowSeat.t) : list ShowSeat.t :=
  match seats with
  | [] => []
  | s :: rest =>
    if ShowSeat.seatId_ s =? seatId then f s :: rest
    else s :: update_seat seatId f rest
  end.

(** Modelled from the spec: the rollback of spec 4.2 step 5; the seats
    updated so far are stored back as AVAILABLE with no holder. *)
Definition rollback (locked : list Z) (seats : list ShowSeat.t)
    : list ShowSeat.t :=
  fold_left (fun acc seatId =>
               update_seat seatId (fun s => snd (ShowSeat.releaseLock s)) acc)
            locked seats.

(** Modelled from the spec: the conditional updates of spec 4.2 step 5,
    one seat at a time; [locked] lists the seats updated so far, most
    recent first.  The first update that does not apply ends the loop with
    the rollback. *)
Fixpoint lock_each (now bookingId lockDurationMinutes : Z)
    (seatIds locked : list Z) (seats : list ShowSeat.t)
    : bool * list ShowSeat.t :=
  match seatIds with
  | [] => (true, seats)
  | seatId :: rest =>
    match find_seat seatId seats with
    | None => (false, rollback locked seats)
    | Some seat =>
      let '(ok, seat') :=
        ShowSeat.lockSeat now bookingId lockDurationMinutes seat in
      if ok
      then lock_each now bookingId lockDurationMinutes rest
                     (seatId :: locked)
                     (update_seat seatId (fun _ => seat') seats)
      else (false, rollback locked seats)
    end
  end.

(** Modelled from the spec: [Show::lockSeats] is not in src.  All or
    nothing (spec 4.2 step 5): every requested seat is locked to
    [bookingId], or the seats locked so far are rolled back and the
    call returns false. *)
Definition lockSeats (now : Z) (seatIds : list Z)
    (bookingId lockDurationMinutes : Z) (sh : t) : bool * t :=
  let '(ok, seats) :=
    lock_each now bookingId lockDurationMinutes seatIds [] (showSeats_ sh) in
  (ok, with_seats seats sh).

(** Modelled from the spec: the seats spec 4.4 releases for a booking,
    those with (LOCKED, holder = bookingId), and with (BOOKED, holder =
    bookingId) for a confirmed booking. *)
Definition held_locked (bookingId : Z) (s : ShowSeat.t) : bool :=
  bool_decide (ShowSeat.status_ s = LOCKED)
  && (ShowSeat.bookingId_ s =? bookingId).

Definition held_booked (bookingId : Z) (s : ShowSeat.t) : bool :=
  bool_decide (ShowSeat.status_ s = BOOKED)
  && (ShowSeat.bookingId_ s =? bookingId).

(** Modelled from the spec: [Show::releaseLockedSeats] is not in src.
    Spec 4.4: every seat that is LOCKED with holder [bookingId] is
    released; the result tells whether any seat was. *)
Definition releaseLockedSeats (bookingId : Z) (sh : t) : bool * t :=
  (existsb (held_locked bookingId) (showSeats_ sh),
   with_seats
     (map (fun s => if held_locked bookingId s
                    then snd (ShowSeat.releaseLock s) else s)
          (showSeats_ sh))
     sh).

(** Modelled from the spec: the release of the BOOKED seats of a
    confirmed booking that is cancelled (spec 4.4). *)
Definition releaseBookedSeats (bookingId : Z) (sh : t) : t :=
  with_seats
    (map (fun s => if held_booked bookingId s
                   then ShowSeat.releaseBooked s else s)
         (showSeats_ sh))
    sh.

(** Modelled from the spec: the conditional updates of spec 4.3 step 3,
    one seat at a time: [(status = LOCKED and holder = bookingId) ->
    status = BOOKED].  The first update that does not apply ends the
    loop; the spec describes no rollback of the updates made before it. *)
Fixpoint book_each (bookingId : Z) (seatIds : list Z) (seats : list ShowSeat.t)
    : bool * list ShowSeat.t :=
  match seatIds with
  | [] => (true, seats)
  | seatId :: rest =>
    match find_seat seatId seats with
    | None => (false, seats)
    | Some seat =>
      let '(ok, seat') := ShowSeat.bookSeat bookingId seat in
      if ok
      then book_each bookingId rest (update_seat seatId (fun _ => seat') seats)
      else (false, seats)
    end
  end.

(** Modelled from the spec: [Show::bookSeats] is not in src.  Spec 4.3
    step 3 for the seats of a booking. *)
Definition bookSeats (seatIds : list Z) (bookingId : Z) (sh : t) : bool * t :=
  let '(ok, seats) := book_each bookingId seatIds (showSeats_ sh) in
  (ok, with_seats seats sh).

(** Modelled from the spec: the stale locks of spec 4.5 pass A, seats
    with status LOCKED and [lockedUntil <= now]. *)
Definition lock_lapsed (now : Z) (s : ShowSeat.t) : bool :=
  bool_decide (ShowSeat.status_ s = LOCKED) && (ShowSeat.lockedUntil_ s <=? now).

(** Modelled from the spec: [releaseExpiredLocks(showId)] is declared in
    ShowRepository.h and defined nowhere under src.  Spec 4.5 pass A for
    one show: every stale lock goes to AVAILABLE with holder and
    lockedUntil cleared. *)
Definition releaseExpiredLocks (now : Z) (sh : t) : t :=
  with_seats
    (map (fun s => if lock_lapsed now s then snd (ShowSeat.releaseLock s) else s)
         (showSeats_ sh))
    sh.
End Show.

(** The header keeps [BookingSeat] rows in [bookingSeats_]; the services
    read them through [getShowSeatIds] only, so the rows are kept as the
    list of their show-seat ids. *)
Module Booking.
Record t := Build {
  id_ : Z;
  userId_ : Z;
  showId_ : Z;
  bookingStatus_ : BookingStatus.t;
  paymentStatus_ : PaymentStatus.t;
  totalAmount_ : float;
  bookingTime_ : Z;
  expiresAt_ : Z;
  bookingSeats_ : list Z;
  paymentId_ : string;
  createdAt_ : Z;
  updatedAt_ : Z
}.

Definition getShowSeatIds (b : t) : list Z := bookingSeats_ b.

Definition with_id (id : Z) (b : t) : t :=
  {| id_ := id; userId_ := userId_ b; showId_ := showId_ b;
     bookingStatus_ := bookingStatus_ b; paymentStatus_ := paymentStatus_ b;
     totalAmount_ := totalAmount_ b; bookingTime_ := bookingTime_ b;
     expiresAt_ := expiresAt_ b; bookingSeats_ := bookingSeats_ b;
     paymentId_ := paymentId_ b; createdAt_ := createdAt_ b;
     updatedAt_ := updatedAt_ b |}.

Definition with_states (now : Z) (bs : BookingStatus.t) (ps : PaymentStatus.t)
    (b : t) : t :=
  {| id_ := id_ b; userId_ := userId_ b; showId_ := showId_ b;
     bookingStatus_ := bs; paymentStatus_ := ps;
     totalAmount_ := totalAmount_ b; bookingTime_ := bookingTime_ b;
     expiresAt_ := expiresAt_ b; bookingSeats_ := bookingSeats_ b;
     paymentId_ := paymentId_ b; createdAt_ := createdAt_ b;
     updatedAt_ := now |}.

(** The booking with its payment reference set (spec 4.3 step 4). *)
Definition with_payment (paymentId : string) (b : t) : t :=
  {| id_ := id_ b; userId_ := userId_ b; showId_ := showId_ b;
     bookingStatus_ := bookingStatus_ b; paymentStatus_ := paymentStatus_ b;
     totalAmount_ := totalAmount_ b; bookingTime_ := bookingTime_ b;
     expiresAt_ := expiresAt_ b; bookingSeats_ := bookingSeats_ b;
     paymentId_ := paymentId; createdAt_ := createdAt_ b;
     updatedAt_ := updatedAt_ b |}.

(** Modelled from the spec: [Booking::createPending] is not in src.
    Spec 3 and 4.2 step 4: a booking is created PENDING, with payment
    PENDING and [expiresAt = now + lockDuration]; its id is assigned
    when the row is inserted. *)
Definition createPending (now : Z) (userId showId : Z)
    (showSeatIds : list Z) (totalAmount : float)
    (lockDurationMinutes : option Z) : t :=
  {| id_ := 0; userId_ := userId; showId_ := showId;
     bookingStatus_ := BookingStatus.PENDING;
     paymentStatus_ := PaymentStatus.PENDING;
     totalAmount_ := totalAmount; bookingTime_ := now;
     expiresAt_ := now + minutes (default 15 lockDurationMinutes);
     bookingSeats_ := showSeatIds; paymentId_ := ""%string;
     createdAt_ := now; updatedAt_ := now |}.
End Booking.
End Models.

(** ** Movie-ticket booking: the booking service *)

(** src/movieTicketBooking/include/services/BookingService.h.  The two
    request/result structs are defined inline in the header.  The service's
    member functions are declared there and defined nowhere under src; they
    follow spec 4.2 and 4.4.  The repositories are the two stores of the
    spec: bookings by id and shows (with their seat rows) by id.  The
    per-show mutexes serialise the calls and have no counterpart here. *)
Module Services.
Import Models.

Record BookingResult := {
  success : bool;
  message : string;
  booking : option Booking.t;
  failedSeatIds : list Z
}.

Definition BookingResult_new (success : bool) (message : option string)
    : BookingResult :=
  {| success := success; message := default ""%string message;
     booking := None; failedSeatIds := [] |}.

Record SeatSelectionRequest := {
  showId : Z;
  seatIds : list Z;
  userId : Z;
  lockDurationMinutes : Z
}.

Definition SeatSelectionRequest_new (showId : Z) (seatIds : list Z) (userId : Z)
    : SeatSelectionRequest :=
  {| showId := showId; seatIds := seatIds; userId := userId;
     lockDurationMinutes := 15 |}.

(** The configuration members are the header's.  Modelled from the spec:
    the repositories are kept as the rows they store; [nextBookingId_] is
    the surrogate id the booking store assigns on insert (spec 6,
    [insertBooking]); it identifies the booking (spec 3), so the store
    hands out each id once and the ids count up without bound;
    [cancelGraceBeforeShow_] (ticks) and [refundQueue_] are the grace
    window and the refund hand-off of spec 4.4 and 6. *)
Record BookingService := {
  bookingRepository_ : gmap Z Booking.t;
  nextBookingId_ : Z;
  showRepository_ : gmap Z Show.t;
  defaultLockDurationMinutes_ : Z;
  cleanupIntervalMinutes_ : Z;
  maxBookingRetries_ : Z;
  cancelGraceBeforeShow_ : Z;
  refundQueue_ : list Z
}.

(** Modelled from the spec: the constructor body is not in src, only its
    declaration with the default arguments [15], [5] and [3]; it stores
    each argument in the member of the same name.  The grace window is
    not a constructor argument and starts at zero. *)
Definition BookingService_new
    (bookingRepository : gmap Z Booking.t) (showRepository : gmap Z Show.t)
    (defaultLockDurationMinutes cleanupIntervalMinutes maxBookingRetries : option Z)
    : BookingService :=
  {| bookingRepository_ := bookingRepository;
     nextBookingId_ := 1;
     showRepository_ := showRepository;
     defaultLockDurationMinutes_ := default 15 defaultLockDurationMinutes;
     cleanupIntervalMinutes_ := default 5 cleanupIntervalMinutes;
     maxBookingRetries_ := default 3 maxBookingRetries;
     cancelGraceBeforeShow_ := 0;
     refundQueue_ := [] |}.

Definition with_stores (bookings : gmap Z Booking.t) (next : Z)
    (shows : gmap Z Show.t) (refunds : list Z) (svc : BookingService)
    : BookingService :=
  {| bookingRepository_ := bookings;
     nextBookingId_ := next;
     showRepository_ := shows;
     defaultLockDurationMinutes_ := defaultLockDurationMinutes_ svc;
     cleanupIntervalMinutes_ := cleanupIntervalMinutes_ svc;
     maxBookingRetries_ := maxBookingRetries_ svc;
     cancelGraceBeforeShow_ := cancelGraceBeforeShow_ svc;
     refundQueue_ := refunds |}.

(** Modelled from the spec: [validateSeatSelection] is not in src.  The
    preconditions of spec 4.2 the service can check: the seat list is
    non-empty and free of duplicates, the show is SCHEDULED and has not
    started. *)
Definition validateSeatSelection (now : Z) (request : SeatSelectionRequest)
    (sh : Show.t) : bool :=
  negb (bool_decide (seatIds request = []))
  && bool_decide (NoDup (seatIds request))
  && bool_decide (Show.getStatus sh = ShowStatus.SCHEDULED)
  && (now <? Show.getStartTime sh).

(** Modelled from the spec: spec 4.2 step 1, the seat rows of the
    request, [None] when a row is missing. *)
Fixpoint load_seats (seatIds : list Z) (sh : Show.t) : option (list ShowSeat.t) :=
  match seatIds with
  | [] => Some []
  | seatId :: rest =>
    match Show.getShowSeatById seatId sh, load_seats rest sh with
    | Some seat, Some seats => Some (seat :: seats)
    | _, _ => None
    end
  end.

(** Modelled from the spec: spec 4.2 step 2; a requested seat blocks the
    request when it is BOOKED, or LOCKED with [lockedUntil > now].  A
    lapsed lock does not.  The step says nothing of a seat under
    MAINTENANCE; such a seat is off sale and is reported with the
    unavailable ones: it fails [ShowSeat::isAvailable] and the guard of
    step 5 alike, so that step 2 lets through exactly the seats the
    conditional update of step 5 accepts. *)
Definition seat_taken (now : Z) (s : ShowSeat.t) : bool :=
  match ShowSeat.getStatus s with
  | BOOKED | MAINTENANCE => true
  | LOCKED => now <? ShowSeat.getLockedUntil s
  | AVAILABLE => false
  end.

(** Modelled from the spec: the offending seat ids of spec 4.2 step 2. *)
Definition unavailable_seat_ids (now : Z) (seats : list ShowSeat.t) : list Z :=
  map ShowSeat.getSeatId (List.filter (seat_taken now) seats).

(** Modelled from the spec: [calculateTotalPrice] is not in src.  Spec
    4.2 step 3: the sum of the seat prices. *)
Definition calculateTotalPrice (seats : list ShowSeat.t) : float :=
  fold_left (fun acc s => PrimFloat.add acc (ShowSeat.getPrice s)) seats 0%float.

(** Modelled from the spec: [createPendingBooking] is not in src.  Spec
    4.2 step 4: the PENDING booking row is inserted and gets its id. *)
Definition createPendingBooking (now : Z) (request : SeatSelectionRequest)
    (totalPrice : float) (svc : BookingService) : Booking.t * BookingService :=
  let id := nextBookingId_ svc in
  let b := Booking.with_id id
             (Booking.createPending now (userId request) (showId request)
                (seatIds request) totalPrice
                (Some (lockDurationMinutes request))) in
  (b, with_stores (<[id := b]> (bookingRepository_ svc)) (id + 1)
        (showRepository_ svc) (refundQueue_ svc) svc).

(** Modelled from the spec: [processBookingRequest] is not in src.  Spec
    4.2 steps 1 to 6, under the show's mutex. *)
Definition processBookingRequest (now : Z) (request : SeatSelectionRequest)
    (svc : BookingService) : BookingResult * BookingService :=
  match showRepository_ svc !! showId request with
  | None => (BookingResult_new false (Some "NOT_FOUND"%string), svc)
  | Some sh =>
    if negb (validateSeatSelection now request sh)
    then (BookingResult_new false (Some "VALIDATION_ERROR"%string), svc)
    else
      match load_seats (seatIds request) sh with
      | None => (BookingResult_new false (Some "NOT_FOUND"%string), svc)
      | Some seats =>
        match unavailable_seat_ids now seats with
        | (_ :: _) as failed =>
          ({| success := false; message := "SEAT_UNAVAILABLE"%string;
              booking := None; failedSeatIds := failed |}, svc)
        | [] =>
          let totalPrice := calculateTotalPrice seats in
          let '(b, svc1) := createPendingBooking now request totalPrice svc in
          let '(ok, sh') :=
            Show.lockSeats now (seatIds request) (Booking.id_ b)
                           (lockDurationMinutes request) sh in
          if ok
          then
            ({| success := true; message := ""%string;
                booking := Some b; failedSeatIds := [] |},
             with_stores (bookingRepository_ svc1) (nextBookingId_ svc1)
               (<[showId request := sh']> (showRepository_ svc1))
               (refundQueue_ svc1) svc1)
          else
            (BookingResult_new false (Some "CONFLICT"%string),
             with_stores
               (<[Booking.id_ b :=
                    Booking.with_states now BookingStatus.CANCELLED
                      (Booking.paymentStatus_ b) b]>
                  (bookingRepository_ svc1))
               (nextBookingId_ svc1)
               (<[showId request := sh']> (showRepository_ svc1))
               (refundQueue_ svc1) svc1)
        end
      end
  end.

Definition initiateBooking (now : Z) (request : SeatSelectionRequest)
    (svc : BookingService) : BookingResult * BookingService :=
  processBookingRequest now request svc.

(** Modelled from the spec: [isUserAuthorized] is not in src.  Spec 4.4:
    the booking's user must be the caller. *)
Definition isUserAuthorized (bookingId userId : Z) (svc : BookingService) : bool :=
  match bookingRepository_ svc !! bookingId with
  | Some b => Booking.userId_ b =? userId
  | None => false
  end.

(** Modelled from the spec: [cancelBooking] is not in src.  Spec 4.4: a
    PENDING booking releases its LOCKED seats and becomes CANCELLED; a
    CONFIRMED one whose show starts after [now + grace] releases its
    BOOKED seats, is marked REFUNDED and CANCELLED and a refund is
    enqueued; anything else is not cancellable. *)
Definition cancelBooking (now : Z) (bookingId userId : Z) (svc : BookingService)
    : bool * BookingService :=
  if negb (isUserAuthorized bookingId userId svc) then (false, svc) else
  match bookingRepository_ svc !! bookingId with
  | None => (false, svc)
  | Some b =>
    match showRepository_ svc !! Booking.showId_ b with
    | None => (false, svc)
    | Some sh =>
      match Booking.bookingStatus_ b with
      | BookingStatus.PENDING =>
        let sh' := snd (Show.releaseLockedSeats bookingId sh) in
        (true,
         with_stores
           (<[bookingId := Booking.with_states now BookingStatus.CANCELLED
                             (Booking.paymentStatus_ b) b]>
              (bookingRepository_ svc))
           (nextBookingId_ svc)
           (<[Booking.showId_ b := sh']> (showRepository_ svc))
           (refundQueue_ svc) svc)
      | BookingStatus.CONFIRMED =>
        if now + cancelGraceBeforeShow_ svc <? Show.getStartTime sh
        then
          let sh' := Show.releaseBookedSeats bookingId sh in
          (true,
           with_stores
             (<[bookingId := Booking.with_states now BookingStatus.CANCELLED
                                PaymentStatus.REFUNDED b]>
                (bookingRepository_ svc))
             (nextBookingId_ svc)
             (<[Booking.showId_ b := sh']> (showRepository_ svc))
             (refundQueue_ svc ++ [bookingId]) svc)
        else (false, svc)
      | BookingStatus.CANCELLED | BookingStatus.EXPIRED => (false, svc)
      end
    end
  end.

(** Modelled from the spec: [confirmBooking] is not in src.  Spec 4.3,
    under the show's mutex: the booking must be PENDING
    (ALREADY_CONFIRMED or TERMINAL otherwise) and not expired (EXPIRED,
    nothing changed); each of its seats goes from (LOCKED, holder =
    bookingId) to BOOKED, INVARIANT_VIOLATED if one does not; then the
    booking is CONFIRMED with payment COMPLETED and the payment reference
    set.  For a booking the reaper has already set EXPIRED step 1 of 4.3
    gives TERMINAL, which is followed here; the scenarios 3 and 6 of spec 8
    call that result EXPIRED.  Either way nothing is changed. *)
Definition confirmBooking (now : Z) (bookingId : Z) (paymentId : string)
    (svc : BookingService) : BookingResult * BookingService :=
  match bookingRepository_ svc !! bookingId with
  | None => (BookingResult_new false (Some "NOT_FOUND"%string), svc)
  | Some b =>
    match Booking.bookingStatus_ b with
    | BookingStatus.CONFIRMED =>
      (BookingResult_new false (Some "ALREADY_CONFIRMED"%string), svc)
    | BookingStatus.CANCELLED | BookingStatus.EXPIRED =>
      (BookingResult_new false (Some "TERMINAL"%string), svc)
    | BookingStatus.PENDING =>
      if Booking.expiresAt_ b <=? now
      then (BookingResult_new false (Some "EXPIRED"%string), svc)
      else
        match showRepository_ svc !! Booking.showId_ b with
        | None => (BookingResult_new false (Some "NOT_FOUND"%string), svc)
        | Some sh =>
          let '(ok, sh') :=
            Show.bookSeats (Booking.getShowSeatIds b) bookingId sh in
          if ok
          then
            let b' :=
              Booking.with_payment paymentId
                (Booking.with_states now BookingStatus.CONFIRMED
                   PaymentStatus.COMPLETED b) in
            ({| success := true; message := ""%string;
                booking := Some b'; failedSeatIds := [] |},
             with_stores (<[bookingId := b']> (bookingRepository_ svc))
               (nextBookingId_ svc)
               (<[Booking.showId_ b := sh']> (showRepository_ svc))
               (refundQueue_ svc) svc)
          else
            (BookingResult_new false (Some "INVARIANT_VIOLATED"%string),
             with_stores (bookingRepository_ svc) (nextBookingId_ svc)
               (<[Booking.showId_ b := sh']> (showRepository_ svc))
               (refundQueue_ svc) svc)
        end
    end
  end.

(** Modelled from the spec: [releaseExpiredBooking] is not in src.  Spec
    4.5 pass B for one booking, under the show's mutex: a booking that is
    still PENDING with [expiresAt <= now] is set EXPIRED and the seats
    still LOCKED to it are released. *)
Definition releaseExpiredBooking (now : Z) (bookingId : Z) (svc : BookingService)
    : bool * BookingService :=
  match bookingRepository_ svc !! bookingId with
  | None => (false, svc)
  | Some b =>
    if bool_decide (Booking.bookingStatus_ b = BookingStatus.PENDING)
       && (Booking.expiresAt_ b <=? now)
    then
      (true,
       with_stores
         (<[bookingId := Booking.with_states now BookingStatus.EXPIRED
                           (Booking.paymentStatus_ b) b]>
            (bookingRepository_ svc))
         (nextBookingId_ svc)
         (match showRepository_ svc !! Booking.showId_ b with
          | Some sh =>
            <[Booking.showId_ b := snd (Show.releaseLockedSeats bookingId sh)]>
              (showRepository_ svc)
          | None => showRepository_ svc
          end)
         (refundQueue_ svc) svc)
    else (false, svc)
  end.

(** Modelled from the spec: [processExpiredBookings] is not in src.  Spec
    4.5 pass B: every booking of the store in turn. *)
Definition processExpiredBookings (now : Z) (svc : BookingService)
    : BookingService :=
  fold_left (fun acc bookingId => snd (releaseExpiredBooking now bookingId acc))
            (map fst (map_to_list (bookingRepository_ svc))) svc.

(** Modelled from the spec: [processExpiredLocks] is not in src.  Spec
    4.5 pass A: the stale locks of every show are released. *)
Definition processExpiredLocks (now : Z) (svc : BookingService)
    : BookingService :=
  with_stores (bookingRepository_ svc) (nextBookingId_ svc)
    (Show.releaseExpiredLocks now <$> showRepository_ svc)
    (refundQueue_ svc) svc.
End Services.

(** ** HTTP messages *)

(** controllers/BookingController.h: the request and response structures.
    The [unordered_map]s are finite maps from strings to strings. *)
Module HttpResponse.
Record t := Build {
  statusCode : Z;
  contentType : string;
  body : string;
  headers : gmap string string
}.

Definition new (code : option Z) (type : option string) : t :=
  {| statusCode := default 200 code;
     contentType := default "application/json"%string type;
     body := ""%string;
     headers := ∅ |}.
End HttpResponse.

Module HttpRequest.
Record t := Build {
  method : string;
  path : string;
  headers : gmap string string;
  queryParams : gmap string string;
  body : string;
  pathParams : gmap string string
}.

Definition getHeader (name : string) (r : t) : string :=
  match headers r !! name with
  | Some value => value
  | None => ""%string
  end.

Definition getQueryParam (name : string) (r : t) : string :=
  match queryParams r !! name with
  | Some value => value
  | None => ""%string
  end.

Definition getPathParam (name : string) (r : t) : string :=
  match pathParams r !! name with
  | Some value => value
  | None => ""%string
  end.
End HttpRequest.

(** ** Error codes and status codes *)

(** The status code that goes with each error code the derived exception
    classes of Exceptions.h pass to the base class. *)
Definition status_of_error_code (errorCode : string) : option Z :=
  if decide (errorCode = "VALIDATION_ERROR"%string) then Some 400
  else if decide (errorCode = "AUTHENTICATION_ERROR"%string) then Some 401
  else if decide (errorCode = "PAYMENT_ERROR"%string) then Some 402
  else if decide (errorCode = "AUTHORIZATION_ERROR"%string) then Some 403
  else if decide (errorCode = "RESOURCE_NOT_FOUND"%string) then Some 404
  else if decide (errorCode = "CONFLICT_ERROR"%string) then Some 409
  else if decide (errorCode = "CONCURRENCY_ERROR"%string) then Some 409
  else if decide (errorCode = "BUSINESS_RULE_VIOLATION"%string) then Some 422
  else if decide (errorCode = "RATE_LIMIT_EXCEEDED"%string) then Some 429
  else if decide (errorCode = "DATABASE_ERROR"%string) then Some 500
  else if decide (errorCode = "CONFIGURATION_ERROR"%string) then Some 500
  else if decide (errorCode = "EXTERNAL_SERVICE_ERROR"%string) then Some 502
  else None.

(** ** Reachable parking lots *)

(** The lots a program can build: the constructor, then any sequence of
    [parkVehicle] and [exitParking] calls. *)
Inductive lot_reachable : ParkingLot.t -> Prop :=
| reach_new (carSpaces truckSpaces motorcycleSpaces : Z) (rate : float) :
    lot_reachable (ParkingLot.new carSpaces truckSpaces motorcycleSpaces rate)
| reach_park (now : Z) (vehicle : option Vehicle.t) (lot : ParkingLot.t) :
    lot_reachable lot ->
    lot_reachable (snd (ParkingLot.parkVehicle now vehicle lot))
| reach_exit (now : Z) (ticketNumber : string) (lot : ParkingLot.t) :
    lot_reachable lot ->
    lot_reachable (snd (ParkingLot.exitParking now ticketNumber lot)).

(** Slot [i] of the vector carries the number [i + 1]. *)
Definition slots_numbered (slots : list ParkingSlot.t) : Prop :=
  forall (i : nat) (s : ParkingSlot.t),
    slots !! i = Some s -> ParkingSlot.slotNumber s = Z.of_nat i + 1.

(** Every active ticket names a slot of the lot. *)
Definition tickets_in_range (lot : ParkingLot.t) : Prop :=
  forall (tn : string) (tk : ParkingTicket.t),
    ParkingLot.activeTickets lot !! tn = Some tk ->
    0 < ParkingTicket.slotNumber tk
    /\ ParkingTicket.slotNumber tk <= Z.of_nat (length (ParkingLot.parkingSlots lot)).

Definition lot_wf (lot : ParkingLot.t) : Prop :=
  slots_numbered (ParkingLot.parkingSlots lot) /\ tickets_in_range lot.

(** What [exitParking] does to the slots when it vacates the slot a ticket
    names: that slot is vacated, every other slot is left as it is. *)
Definition vacate_named (slotNum : Z) (slots : list ParkingSlot.t)
    : list ParkingSlot.t :=
  map (fun s => if ParkingSlot.slotNumber s =? slotNum
                then ParkingSlot.vacateSlot s else s) slots.

(** The number of free slots of the given types. *)
Definition free_slots_of (types : list VehicleType) (lot : ParkingLot.t) : Z :=
  Z.of_nat (length (List.filter
    (fun s => negb (ParkingSlot.isOccupied s)
              && bool_decide (ParkingSlot.slotType s ∈ types))
    (ParkingLot.parkingSlots lot))).

(** ** Parking lot: bookkeeping *)

(** The ticket number [generateTicketNumber] issues at counter value [n]. *)
Definition ticket_number (n : Z) : string :=
  "TKT" +:+ setw_fill 8 "0"%char (to_string n).

(** The number of occupied slots. *)
Definition occupied_count (slots : list ParkingSlot.t) : nat :=
  length (List.filter ParkingSlot.isOccupied slots).

(** The position of a slot type in the constructor's layout: truck slots
    first, then car slots, then motorcycle slots; no other type. *)
Definition slot_rank (ty : VehicleType) : nat :=
  match ty with
  | TRUCK => 0
  | CAR => 1
  | MOTORCYCLE => 2
  | ELECTRIC => 3
  end.

Definition slots_laid_out (slots : list ParkingSlot.t) : Prop :=
  (forall (i j : nat) (si sj : ParkingSlot.t),
      (i < j)%nat -> slots !! i = Some si -> slots !! j = Some sj ->
      (slot_rank (ParkingSlot.slotType si)
       <= slot_rank (ParkingSlot.slotType sj))%nat)
  /\ (forall s : ParkingSlot.t,
         s ∈ slots -> ParkingSlot.slotType s <> ELECTRIC).

(** A free slot holds no vehicle. *)
Definition free_slots_empty (slots : list ParkingSlot.t) : Prop :=
  forall s : ParkingSlot.t,
    s ∈ slots -> ParkingSlot.isOccupied s = false ->
    ParkingSlot.parkedVehicle s = None.

(** A slot type admits a vehicle type, occupancy apart. *)
Definition type_fits (slotType vehicleType : VehicleType) : Prop :=
  slotType = vehicleType \/ (slotType = TRUCK /\ vehicleType = CAR).

(** Every active ticket is stored under its own number and names an
    occupied slot that fits its vehicle. *)
Definition tickets_consistent (lot : ParkingLot.t) : Prop :=
  forall (tn : string) (tk : ParkingTicket.t),
    ParkingLot.activeTickets lot !! tn = Some tk ->
    ParkingTicket.ticketNumber tk = tn
    /\ 0 < ParkingTicket.slotNumber tk
    /\ exists (s : ParkingSlot.t) (v : Vehicle.t),
         ParkingLot.parkingSlots lot
           !! Z.to_nat (ParkingTicket.slotNumber tk - 1) = Some s
         /\ ParkingSlot.isOccupied s = true
         /\ ParkingTicket.vehicle tk = Some v
         /\ type_fits (ParkingSlot.slotType s) (Vehicle.type v).

(** Two active tickets never name the same slot. *)
Definition tickets_apart (lot : ParkingLot.t) : Prop :=
  forall (tn1 tn2 : string) (tk1 tk2 : ParkingTicket.t),
    tn1 <> tn2 ->
    ParkingLot.activeTickets lot !! tn1 = Some tk1 ->
    ParkingLot.activeTickets lot !! tn2 = Some tk2 ->
    ParkingTicket.slotNumber tk1 <> ParkingTicket.slotNumber tk2.

(** What every lot satisfies, whatever the ticket counter has gone
    through. *)
Definition lot_consistent (lot : ParkingLot.t) : Prop :=
  slots_numbered (ParkingLot.parkingSlots lot)
  /\ slots_laid_out (ParkingLot.parkingSlots lot)
  /\ free_slots_empty (ParkingLot.parkingSlots lot)
  /\ tickets_consistent lot
  /\ tickets_apart lot.

(** The lots reached by [k] calls of [parkVehicle] and any number of
    [exitParking] calls. *)
Inductive lot_reached : Z -> ParkingLot.t -> Prop :=
| reached_new (carSpaces truckSpaces motorcycleSpaces : Z) (rate : float) :
    lot_reached 0 (ParkingLot.new carSpaces truckSpaces motorcycleSpaces rate)
| reached_park (k now : Z) (vehicle : option Vehicle.t) (lot : ParkingLot.t) :
    lot_reached k lot ->
    lot_reached (k + 1) (snd (ParkingLot.parkVehicle now vehicle lot))
| reached_exit (k now : Z) (ticketNumber : string) (lot : ParkingLot.t) :
    lot_reached k lot ->
    lot_reached k (snd (ParkingLot.exitParking now ticketNumber lot)).

(** Every active ticket number was issued at a counter value the counter
    has passed since it started at 1. *)
Definition tickets_issued (lot : ParkingLot.t) : Prop :=
  forall (tn : string) (tk : ParkingTicket.t),
    ParkingLot.activeTickets lot !! tn = Some tk ->
    exists n : Z, 1 <= n < ParkingLot.nextTicketNumber lot
                  /\ tn = ticket_number n.

(** What a lot satisfies after at most [k] calls of [parkVehicle], as long
    as the counter has not reached the end of the [int] range. *)
Definition lot_counted (k : Z) (lot : ParkingLot.t) : Prop :=
  lot_consistent lot
  /\ tickets_issued lot
  /\ 1 <= ParkingLot.nextTicketNumber lot <= k + 1
  /\ occupied_count (ParkingLot.parkingSlots lot)
     = size (ParkingLot.activeTickets lot).

(** A slot as [ParkingSlot::parkVehicle] leaves it on success. *)
Definition occupied_by (v : Vehicle.t) (s : ParkingSlot.t) : ParkingSlot.t :=
  {| ParkingSlot.slotNumber := ParkingSlot.slotNumber s;
     ParkingSlot.isOccupied := true;
     ParkingSlot.parkedVehicle := Some v;
     ParkingSlot.slotType := ParkingSlot.slotType s |}.

(** The lot with its ticket counter set to [n]. *)
Definition with_counter (n : Z) (lot : ParkingLot.t) : ParkingLot.t :=
  {| ParkingLot.parkingSlots := ParkingLot.parkingSlots lot;
     ParkingLot.activeTickets := ParkingLot.activeTickets lot;
     ParkingLot.hourlyRate := ParkingLot.hourlyRate lot;
     ParkingLot.nextTicketNumber := n |}.

(** ** Seat operations and holders *)

(** One call on a [ShowSeat]: [lockSeat], [bookSeat] or [releaseLock], with
    the arguments of the call and, for [lockSeat], the time it runs at. *)
Inductive SeatOp :=
| OpLockSeat (now bookingId lockDurationMinutes : Z)
| OpBookSeat (bookingId : Z)
| OpReleaseLock.

Definition apply_op (op : SeatOp) (s : Models.ShowSeat.t)
    : bool * Models.ShowSeat.t :=
  match op with
  | OpLockSeat now bookingId lockDurationMinutes =>
    Models.ShowSeat.lockSeat now bookingId lockDurationMinutes s
  | OpBookSeat bookingId => Models.ShowSeat.bookSeat bookingId s
  | OpReleaseLock => Models.ShowSeat.releaseLock s
  end.

Definition run_ops (ops : list SeatOp) (s : Models.ShowSeat.t) : Models.ShowSeat.t :=
  fold_left (fun acc op => snd (apply_op op acc)) ops s.

(** Booking [bookingId] holds the seat: the seat is LOCKED or BOOKED and
    names that booking as its holder. *)
Definition holds (s : Models.ShowSeat.t) (bookingId : Z) : bool :=
  match Models.ShowSeat.status_ s with
  | Models.LOCKED | Models.BOOKED => Models.ShowSeat.bookingId_ s =? bookingId
  | Models.AVAILABLE | Models.MAINTENANCE => false
  end.

(** The hold is live at [now]: the seat is BOOKED, or LOCKED with a lock
    that has not lapsed. *)
Definition held_at (now : Z) (s : Models.ShowSeat.t) : bool :=
  match Models.ShowSeat.status_ s with
  | Models.BOOKED => true
  | Models.LOCKED => now <? Models.ShowSeat.lockedUntil_ s
  | Models.AVAILABLE | Models.MAINTENANCE => false
  end.

(** The seat row a reader finds for seat [seatId] of show [showId]. *)
Definition seat_of (svc : Services.BookingService) (showId seatId : Z)
    : option Models.ShowSeat.t :=
  match Services.showRepository_ svc !! showId with
  | Some sh => Models.Show.getShowSeatById seatId sh
  | None => None
  end.

(** Booking [b] of the store holds seat [seatId] of show [showId]: it is
    a booking for that show that names the seat, and the seat row is
    LOCKED or BOOKED with [b] as its holder. *)
Definition booking_holds (svc : Services.BookingService) (showId seatId : Z)
    (b : Models.Booking.t) : Prop :=
  Services.bookingRepository_ svc !! Models.Booking.id_ b = Some b
  /\ Models.Booking.showId_ b = showId
  /\ seatId ∈ Models.Booking.bookingSeats_ b
  /\ exists s : Models.ShowSeat.t,
       seat_of svc showId seatId = Some s
       /\ holds s (Models.Booking.id_ b) = true.

(** A booking is in force at [now]: it is CONFIRMED, or PENDING and not
    yet expired. *)
Definition in_force (now : Z) (b : Models.Booking.t) : bool :=
  match Models.Booking.bookingStatus_ b with
  | Models.BookingStatus.PENDING => now <? Models.Booking.expiresAt_ b
  | Models.BookingStatus.CONFIRMED => true
  | Models.BookingStatus.CANCELLED | Models.BookingStatus.EXPIRED => false
  end.

(** The states of the service: it starts with no booking and with shows
    none of whose seats is held, and every call of the engine and every
    pass of the reaper runs at a time not before the calls made so far.
    The index is the time of the last call. *)
Inductive svc_reachable : Z -> Services.BookingService -> Prop :=
| svc_start (now : Z) (shows : gmap Z Models.Show.t)
      (lockDuration cleanupInterval maxRetries : option Z) :
    (forall (showId : Z) (sh : Models.Show.t) (s : Models.ShowSeat.t),
        shows !! showId = Some sh ->
        s ∈ Models.Show.showSeats_ sh ->
        Models.ShowSeat.status_ s = Models.AVAILABLE
        \/ Models.ShowSeat.status_ s = Models.MAINTENANCE) ->
    svc_reachable now
      (Services.BookingService_new ∅ shows lockDuration cleanupInterval
         maxRetries)
| svc_initiate (t now : Z) (request : Services.SeatSelectionRequest)
      (svc : Services.BookingService) :
    svc_reachable t svc -> t <= now ->
    svc_reachable now (snd (Services.initiateBooking now request svc))
| svc_confirm (t now bookingId : Z) (paymentId : string)
      (svc : Services.BookingService) :
    svc_reachable t svc -> t <= now ->
    svc_reachable now (snd (Services.confirmBooking now bookingId paymentId svc))
| svc_cancel (t now bookingId userId : Z) (svc : Services.BookingService) :
    svc_reachable t svc -> t <= now ->
    svc_reachable now (snd (Services.cancelBooking now bookingId userId svc))
| svc_release_expired (t now bookingId : Z) (svc : Services.BookingService) :
    svc_reachable t svc -> t <= now ->
    svc_reachable now (snd (Services.releaseExpiredBooking now bookingId svc))
| svc_expired_bookings (t now : Z) (svc : Services.BookingService) :
    svc_reachable t svc -> t <= now ->
    svc_reachable now (Services.processExpiredBookings now svc)
| svc_expired_locks (t now : Z) (svc : Services.BookingService) :
    svc_reachable t svc -> t <= now ->
    svc_reachable now (Services.processExpiredLocks now svc).

(** Every booking row is stored under its own id, below the next id to
    be assigned, and names no seat twice. *)
Definition bookings_indexed (svc : Services.BookingService) : Prop :=
  forall (id : Z) (b : Models.Booking.t),
    Services.bookingRepository_ svc !! id = Some b ->
    Models.Booking.id_ b = id
    /\ id < Services.nextBookingId_ svc
    /\ NoDup (Models.Booking.bookingSeats_ b).

(** The holder of a LOCKED seat is a PENDING booking of the store that
    names the seat and expires when the lock does; the holder of a BOOKED
    seat is a CONFIRMED booking of the store that names the seat. *)
Definition seats_held_by_bookings (svc : Services.BookingService) : Prop :=
  forall (showId seatId : Z) (s : Models.ShowSeat.t),
    seat_of svc showId seatId = Some s ->
    (Models.ShowSeat.status_ s = Models.LOCKED ->
     exists b : Models.Booking.t,
       Services.bookingRepository_ svc !! Models.ShowSeat.bookingId_ s = Some b
       /\ Models.Booking.bookingStatus_ b = Models.BookingStatus.PENDING
       /\ Models.Booking.showId_ b = showId
       /\ seatId ∈ Models.Booking.bookingSeats_ b
       /\ Models.ShowSeat.lockedUntil_ s = Models.Booking.expiresAt_ b)
    /\ (Models.ShowSeat.status_ s = Models.BOOKED ->
        exists b : Models.Booking.t,
          Services.bookingRepository_ svc !! Models.ShowSeat.bookingId_ s
          = Some b
          /\ Models.Booking.bookingStatus_ b = Models.BookingStatus.CONFIRMED
          /\ Models.Booking.showId_ b = showId
          /\ seatId ∈ Models.Booking.bookingSeats_ b).

(** Every seat of a PENDING booking that has not expired is LOCKED to it,
    and every seat of a CONFIRMED booking is BOOKED to it. *)
Definition bookings_hold_seats (now : Z) (svc : Services.BookingService)
    : Prop :=
  forall (id : Z) (b : Models.Booking.t),
    Services.bookingRepository_ svc !! id = Some b ->
    (Models.Booking.bookingStatus_ b = Models.BookingStatus.PENDING ->
     now < Models.Booking.expiresAt_ b ->
     forall x : Z, x ∈ Models.Booking.bookingSeats_ b ->
       exists s : Models.ShowSeat.t,
         seat_of svc (Models.Booking.showId_ b) x = Some s
         /\ Models.ShowSeat.status_ s = Models.LOCKED
         /\ Models.ShowSeat.bookingId_ s = id)
    /\ (Models.Booking.bookingStatus_ b = Models.BookingStatus.CONFIRMED ->
        forall x : Z, x ∈ Models.Booking.bookingSeats_ b ->
          exists s : Models.ShowSeat.t,
            seat_of svc (Models.Booking.showId_ b) x = Some s
            /\ Models.ShowSeat.status_ s = Models.BOOKED
            /\ Models.ShowSeat.bookingId_ s = id).

Definition svc_consistent (now : Z) (svc : Services.BookingService) : Prop :=
  bookings_indexed svc
  /\ seats_held_by_bookings svc
  /\ bookings_hold_seats now svc.

(** A seat as [lockSeat] leaves it when the guard holds. *)
Definition locked_to (now bookingId lockDurationMinutes : Z)
    (s : Models.ShowSeat.t) : Models.ShowSeat.t :=
  snd (Models.ShowSeat.lockSeat now bookingId lockDurationMinutes s).

(** A seat row with no holder and no lock expiry that is AVAILABLE. *)
Definition seat_cleared (s : Models.ShowSeat.t) : Prop :=
  Models.ShowSeat.status_ s = Models.AVAILABLE
  /\ Models.ShowSeat.bookingId_ s = Models.NO_BOOKING
  /\ Models.ShowSeat.lockedUntil_ s = Models.NO_LOCK.

(** The five payment states of the spec, in each of the two enums. *)
Definition model_payment_statuses : list Models.PaymentStatus.t :=
  [Models.PaymentStatus.PENDING; Models.PaymentStatus.PROCESSING;
   Models.PaymentStatus.COMPLETED; Models.PaymentStatus.FAILED;
   Models.PaymentStatus.REFUNDED].

Definition gateway_payment_statuses : list Payment.PaymentStatus :=
  [Payment.PENDING; Payment.PROCESSING; Payment.COMPLETED; Payment.FAILED;
   Payment.REFUNDED].

(** ** Concrete states *)

(** The show of the spec's end-to-end scenarios: show 1 with the seats 10,
    11 and 12, all AVAILABLE at price 100, starting 1000 hours after the
    epoch. *)
Definition demo_show : Models.Show.t :=
  {| Models.Show.id_ := 1; Models.Show.movieId_ := 1; Models.Show.screenId_ := 1;
     Models.Show.startTime_ := 1000 * ticks_per_hour;
     Models.Show.endTime_ := 1002 * ticks_per_hour;
     Models.Show.basePrice_ := 100%float;
     Models.Show.status_ := Models.ShowStatus.SCHEDULED;
     Models.Show.showSeats_ :=
       [Models.ShowSeat.new 1 1 10 None (Some 100%float);
        Models.ShowSeat.new 2 1 11 None (Some 100%float);
        Models.ShowSeat.new 3 1 12 None (Some 100%float)];
     Models.Show.createdAt_ := 0; Models.Show.updatedAt_ := 0 |}.

Definition demo_service : Services.BookingService :=
  Services.BookingService_new ∅ {[1 := demo_show]} None None None.

Definition demo_request : Services.SeatSelectionRequest :=
  Services.SeatSelectionRequest_new 1 [10; 11] 7.

(** A show with one seat under maintenance, and a request that names it. *)
Definition maintenance_show : Models.Show.t :=
  Models.Show.with_seats
    [Models.ShowSeat.new 1 1 10 None (Some 100%float);
     Models.ShowSeat.new 4 1 13 (Some Models.MAINTENANCE) (Some 100%float)]
    demo_show.

Definition maintenance_service : Services.BookingService :=
  Services.BookingService_new ∅ {[1 := maintenance_show]} None None None.

Definition maintenance_request : Services.SeatSelectionRequest :=
  Services.SeatSelectionRequest_new 1 [10; 13] 7.

(** A second request, by user 8, for the seats 10 and 12. *)
Definition rival_request : Services.SeatSelectionRequest :=
  Services.SeatSelectionRequest_new 1 [10; 12] 8.

(** A lot with one truck slot and one car slot at rate 10.0 after a car
    has parked at time 0 (it takes slot 1, the truck slot), and a lot with
    one car slot at rate -1.0 after the same car has parked. *)
Definition demo_car : Vehicle.t := Vehicle.Build "KA01AB1234" CAR.

Definition demo_lot : ParkingLot.t :=
  snd (ParkingLot.parkVehicle 0 (Some demo_car) (ParkingLot.new 1 1 0 10%float)).

Definition negative_rate_lot : ParkingLot.t :=
  snd (ParkingLot.parkVehicle 0 (Some demo_car) (ParkingLot.new 1 0 0 (-1)%float)).

Example ticket_number_1 :
  fst (ParkingLot.generateTicketNumber (ParkingLot.new 1 1 1 10%float))
  = "TKT00000001"%string.
Proof. vm_compute. reflexivity. Qed.

Example exit_after_2h :
  fst (ParkingLot.exitParking (2 * ticks_per_hour) "TKT00000001" demo_lot)
  = 30%float.
Proof. vm_compute. reflexivity. Qed.

Example exit_after_2h_59min :
  fst (ParkingLot.exitParking (3 * ticks_per_hour - 1) "TKT00000001" demo_lot)
  = 30%float.
Proof. vm_compute. reflexivity. Qed.

(** ** Parking lot: fee computation *)

Lemma ticks_per_hour_pos : 0 < ticks_per_hour.
Proof. reflexivity. Qed.

Lemma duration_cast_hours_truncates (d : Z) :
  Z.abs (duration_cast_hours d) * ticks_per_hour <= Z.abs d
    < (Z.abs (duration_cast_hours d) + 1) * ticks_per_hour
  /\ 0 <= duration_cast_hours d * d.
Proof.
  unfold duration_cast_hours.
  pose proof ticks_per_hour_pos as HT.
  assert (Hne : ticks_per_hour <> 0) by lia.
  rewrite <- (Z.quot_abs d ticks_per_hour Hne).
  rewrite (Z.abs_eq ticks_per_hour) by lia.
  rewrite Z.quot_div_nonneg by lia.
  split.
  - pose proof (Z.mul_div_le (Z.abs d) ticks_per_hour HT).
    pose proof (Z.mul_succ_div_gt (Z.abs d) ticks_per_hour HT).
    lia.
  - destruct (Z.le_gt_cases 0 d) as [Hd | Hd].
    + pose proof (Z.quot_pos d ticks_per_hour Hd HT). nia.
    + replace d with (- (- d)) at 1 by lia.
      rewrite Z.quot_opp_l by lia.
      assert (0 <= - d) as Hd' by lia.
      pose proof (Z.quot_pos (- d) ticks_per_hour Hd' HT). nia.
Qed.

Lemma duration_cast_hours_exact (k : Z) :
  duration_cast_hours (k * ticks_per_hour) = k.
Proof.
  unfold duration_cast_hours. apply Z.quot_mul.
  pose proof ticks_per_hour_pos. lia.
Qed.

(** C4.  For every hourly rate [r], current time and ticket,
    [calculateFee r] returns [(h + 1) * r] (and stores it in
    [amountCharged]), where [h] is the elapsed time since entry truncated
    toward zero to whole hours; an elapsed time of exactly [k] whole hours
    is billed as [k + 1] hours. *)
Theorem calculateFee_bills_whole_hours_plus_one :
  forall (hourlyRate : float) (now : Z) (tk : ParkingTicket.t),
    (exists h : Z,
        (Z.abs h * ticks_per_hour <= Z.abs (now - ParkingTicket.entryTime tk)
           < (Z.abs h + 1) * ticks_per_hour)
        /\ 0 <= h * (now - ParkingTicket.entryTime tk)
        /\ fst (ParkingTicket.calculateFee now hourlyRate tk)
           = PrimFloat.mul (double_of_int (h + 1)) hourlyRate
        /\ ParkingTicket.amountCharged
             (snd (ParkingTicket.calculateFee now hourlyRate tk))
           = Some (PrimFloat.mul (double_of_int (h + 1)) hourlyRate))
    /\ (forall k : Z,
          fst (ParkingTicket.calculateFee
                 (ParkingTicket.entryTime tk + k * ticks_per_hour) hourlyRate tk)
          = PrimFloat.mul (double_of_int (k + 1)) hourlyRate).
Proof.
  intros hourlyRate now tk. split.
  - exists (duration_cast_hours (now - ParkingTicket.entryTime tk)).
    pose proof (duration_cast_hours_truncates (now - ParkingTicket.entryTime tk))
      as [Hbounds Hsign].
    repeat split; try apply Hbounds; exact Hsign.
  - intros k. unfold ParkingTicket.calculateFee. cbn [fst].
    replace (ParkingTicket.entryTime tk + k * ticks_per_hour
             - ParkingTicket.entryTime tk) with (k * ticks_per_hour) by lia.
    now rewrite duration_cast_hours_exact.
Qed.

(** ** Parking lot: which slot takes which vehicle *)

Lemma canPark_iff (s : ParkingSlot.t) (vt : VehicleType) :
  ParkingSlot.canPark s vt = true <->
  ParkingSlot.isOccupied s = false
  /\ (ParkingSlot.slotType s = vt
      \/ (ParkingSlot.slotType s = TRUCK /\ vt = CAR)).
Proof.
  unfold ParkingSlot.canPark.
  rewrite andb_true_iff, orb_true_iff, andb_true_iff, negb_true_iff.
  rewrite !bool_decide_eq_true. tauto.
Qed.

Lemma filter_length_ext {A} (f g : A -> bool) (l : list A) :
  (forall x, f x = g x) ->
  length (List.filter f l) = length (List.filter g l).
Proof.
  intros Hfg. induction l as [| x l IH]; simpl; [reflexivity |].
  rewrite Hfg. destruct (g x); simpl; congruence.
Qed.

Lemma getAvailableSpaces_counts_canPark (ty : VehicleType) (lot : ParkingLot.t) :
  ParkingLot.getAvailableSpaces ty lot
  = Z.of_nat (length (List.filter (fun s => ParkingSlot.canPark s ty)
                                  (ParkingLot.parkingSlots lot))).
Proof.
  unfold ParkingLot.getAvailableSpaces. f_equal. apply filter_length_ext.
  intros s. unfold ParkingSlot.canPark, ParkingSlot.isAvailable,
    ParkingSlot.getSlotType.
  destruct (ParkingSlot.isOccupied s); simpl; [reflexivity |].
  destruct (ParkingSlot.slotType s), ty; reflexivity.
Qed.

Lemma getAvailableSpaces_free_slots (ty : VehicleType) (types : list VehicleType)
    (lot : ParkingLot.t) :
  (forall st : VehicleType,
      bool_decide (st ∈ types)
      = (bool_decide (st = ty) || (bool_decide (ty = CAR) && bool_decide (st = TRUCK)))) ->
  ParkingLot.getAvailableSpaces ty lot = free_slots_of types lot.
Proof.
  intros Hty. unfold ParkingLot.getAvailableSpaces, free_slots_of.
  f_equal. apply filter_length_ext. intros s.
  unfold ParkingSlot.isAvailable, ParkingSlot.getSlotType.
  now rewrite Hty.
Qed.

(** C9.  [canPark] holds exactly when the slot is unoccupied and either the
    slot's type equals the vehicle's type or the slot is a TRUCK slot and
    the vehicle a CAR.  [getAvailableSpaces] counts the slots [canPark]
    accepts: for CAR the free CAR and TRUCK slots, for MOTORCYCLE and TRUCK
    the free slots of that type only. *)
Theorem canPark_and_available_spaces :
  (forall (s : ParkingSlot.t) (vt : VehicleType),
      ParkingSlot.canPark s vt = true <->
      ParkingSlot.isOccupied s = false
      /\ (ParkingSlot.slotType s = vt
          \/ (ParkingSlot.slotType s = TRUCK /\ vt = CAR)))
  /\ (forall (ty : VehicleType) (lot : ParkingLot.t),
         ParkingLot.getAvailableSpaces ty lot
         = Z.of_nat (length (List.filter (fun s => ParkingSlot.canPark s ty)
                                         (ParkingLot.parkingSlots lot))))
  /\ (forall lot : ParkingLot.t,
         ParkingLot.getAvailableSpaces CAR lot = free_slots_of [CAR; TRUCK] lot
         /\ ParkingLot.getAvailableSpaces MOTORCYCLE lot
            = free_slots_of [MOTORCYCLE] lot
         /\ ParkingLot.getAvailableSpaces TRUCK lot = free_slots_of [TRUCK] lot)
  /\ (forall s : ParkingSlot.t,
         (ParkingSlot.canPark s MOTORCYCLE = true ->
          ParkingSlot.slotType s = MOTORCYCLE)
         /\ (ParkingSlot.canPark s TRUCK = true ->
             ParkingSlot.slotType s = TRUCK)).
Proof.
  split; [exact canPark_iff |].
  split; [exact getAvailableSpaces_counts_canPark |].
  split.
  - intros lot. repeat split; apply getAvailableSpaces_free_slots;
      intros []; reflexivity.
  - intros s. split; intros H; apply canPark_iff in H as [_ [H | [_ H]]];
      first [exact H | discriminate H].
Qed.

(** ** Parking lot: leaving the lot *)

Lemma make_slots_lookup (count : nat) (first : Z) (ty : VehicleType)
    (i : nat) (s : ParkingSlot.t) :
  ParkingLot.make_slots count first ty !! i = Some s ->
  ParkingSlot.slotNumber s = first + Z.of_nat i.
Proof.
  revert first i. induction count as [| n IH]; intros first i; simpl.
  - intros H. discriminate H.
  - destruct i as [| i]; simpl.
    + intros [= <-]. simpl. lia.
    + intros H. apply IH in H. lia.
Qed.

Lemma make_slots_length (count : nat) (first : Z) (ty : VehicleType) :
  length (ParkingLot.make_slots count first ty) = count.
Proof.
  revert first. induction count as [| n IH]; intros first; simpl;
    [reflexivity | now rewrite IH].
Qed.

Lemma new_lot_wf (carSpaces truckSpaces motorcycleSpaces : Z) (rate : float) :
  lot_wf (ParkingLot.new carSpaces truckSpaces motorcycleSpaces rate).
Proof.
  split.
  - intros i s. unfold ParkingLot.new. cbn [ParkingLot.parkingSlots].
    rewrite lookup_app.
    destruct (ParkingLot.make_slots _ 1 TRUCK !! i) as [s1 |] eqn:E1.
    { intros [= <-]. apply make_slots_lookup in E1. lia. }
    rewrite lookup_app.
    rewrite !make_slots_length.
    apply lookup_ge_None in E1. rewrite make_slots_length in E1.
    destruct (ParkingLot.make_slots _ _ CAR !! _) as [s2 |] eqn:E2.
    { intros [= <-]. apply make_slots_lookup in E2. lia. }
    apply lookup_ge_None in E2. rewrite make_slots_length in E2.
    intros H. apply make_slots_lookup in H. lia.
  - intros tn tk H. unfold ParkingLot.new in H.
    cbn [ParkingLot.activeTickets] in H.
    rewrite lookup_empty in H. discriminate H.
Qed.

Lemma slots_numbered_insert (slots : list ParkingSlot.t) (i : nat)
    (s : ParkingSlot.t) :
  slots_numbered slots ->
  ParkingSlot.slotNumber s = Z.of_nat i + 1 ->
  slots_numbered (<[i := s]> slots).
Proof.
  intros Hn Hs j x Hj.
  destruct (decide (i = j)) as [<- | Hne].
  - destruct (decide (i < length slots)%nat) as [Hlt | Hge].
    + rewrite list_lookup_insert_eq in Hj by exact Hlt.
      injection Hj as <-. exact Hs.
    + rewrite list_insert_ge in Hj by lia. now apply Hn.
  - rewrite list_lookup_insert_ne in Hj by exact Hne. now apply Hn.
Qed.

Lemma slots_numbered_alter_vacate (slots : list ParkingSlot.t) (i : nat) :
  slots_numbered slots ->
  slots_numbered (alter ParkingSlot.vacateSlot i slots).
Proof.
  intros Hn j x Hj.
  destruct (decide (i = j)) as [<- | Hne].
  - rewrite list_lookup_alter_eq in Hj.
    destruct (slots !! i) as [s |] eqn:E; simpl in Hj; [| discriminate Hj].
    injection Hj as <-. simpl. now apply Hn.
  - rewrite list_lookup_alter_ne in Hj by exact Hne. now apply Hn.
Qed.

Lemma parkVehicle_wf (now : Z) (vehicle : option Vehicle.t) (lot : ParkingLot.t) :
  lot_wf lot -> lot_wf (snd (ParkingLot.parkVehicle now vehicle lot)).
Proof.
  intros [Hn Ht]. unfold ParkingLot.parkVehicle.
  destruct vehicle as [v |]; [| now split].
  destruct (list_find _ _) as [[i slot] |] eqn:Hfind; [| now split].
  apply list_find_Some in Hfind as (Hi & Hcan & _).
  unfold ParkingSlot.parkVehicle.
  unfold ParkingSlot.canPark in Hcan. rewrite Hcan.
  cbn -[setw_fill to_string].
  pose proof (Hn i slot Hi) as Hnum.
  pose proof (lookup_lt_Some _ _ _ Hi) as Hlt.
  split; cbn -[setw_fill to_string].
  - apply slots_numbered_insert; [exact Hn | exact Hnum].
  - intros tn tk. cbn -[setw_fill to_string].
    rewrite length_insert.
    rewrite lookup_insert.
    destruct (decide (_ +:+ _ = tn)) as [Heq | Hne].
    + intros [= <-]. cbn. unfold ParkingSlot.getSlotNumber. cbn. lia.
    + apply Ht.
Qed.

Lemma exitParking_wf (now : Z) (ticketNumber : string) (lot : ParkingLot.t) :
  lot_wf lot -> lot_wf (snd (ParkingLot.exitParking now ticketNumber lot)).
Proof.
  intros [Hn Ht]. unfold ParkingLot.exitParking.
  destruct (ParkingLot.activeTickets lot !! ticketNumber) as [tk |] eqn:E;
    [| now split].
  cbn. split; cbn.
  - destruct (_ && _); [| exact Hn]. now apply slots_numbered_alter_vacate.
  - intros tn tk' H. cbn in H.
    assert (length (if (0 <? ParkingTicket.slotNumber tk)
                       && (ParkingTicket.slotNumber tk
                           <=? Z.of_nat (length (ParkingLot.parkingSlots lot)))
                    then alter ParkingSlot.vacateSlot
                           (Z.to_nat (ParkingTicket.slotNumber tk - 1))
                           (ParkingLot.parkingSlots lot)
                    else ParkingLot.parkingSlots lot)
            = length (ParkingLot.parkingSlots lot)) as Hlen.
    { destruct (_ && _); [apply length_alter | reflexivity]. }
    unfold ParkingTicket.getSlotNumber. cbn. rewrite Hlen.
    apply lookup_delete_Some in H as [_ H]. now apply (Ht tn).
Qed.

Lemma lot_reachable_wf (lot : ParkingLot.t) : lot_reachable lot -> lot_wf lot.
Proof.
  induction 1 as [c t m r | now v lot _ IH | now tn lot _ IH].
  - apply new_lot_wf.
  - now apply parkVehicle_wf.
  - now apply exitParking_wf.
Qed.

Lemma alter_vacate_named (slots : list ParkingSlot.t) (slotNum : Z) :
  slots_numbered slots ->
  0 < slotNum ->
  alter ParkingSlot.vacateSlot (Z.to_nat (slotNum - 1)) slots
  = vacate_named slotNum slots.
Proof.
  intros Hn Hpos. apply list_eq. intros j.
  unfold vacate_named. rewrite list_lookup_fmap.
  destruct (decide (Z.to_nat (slotNum - 1) = j)) as [<- | Hne].
  - rewrite list_lookup_alter_eq.
    destruct (slots !! Z.to_nat (slotNum - 1)) as [s |] eqn:E; simpl;
      [| reflexivity].
    apply Hn in E.
    replace (ParkingSlot.slotNumber s =? slotNum) with true
      by (symmetry; apply Z.eqb_eq; lia).
    reflexivity.
  - rewrite list_lookup_alter_ne by exact Hne.
    destruct (slots !! j) as [s |] eqn:E; simpl; [| reflexivity].
    apply Hn in E.
    replace (ParkingSlot.slotNumber s =? slotNum) with false
      by (symmetry; apply Z.eqb_neq; lia).
    reflexivity.
Qed.

Lemma exitParking_unknown (now : Z) (tn : string) (lot : ParkingLot.t) :
  ParkingLot.activeTickets lot !! tn = None ->
  ParkingLot.exitParking now tn lot = ((-1)%float, lot).
Proof. intros H. unfold ParkingLot.exitParking. now rewrite H. Qed.

Lemma exitParking_sentinel (now : Z) (tn : string) (lot : ParkingLot.t) :
  fst (ParkingLot.exitParking now tn lot) = (-1)%float <->
  ParkingLot.activeTickets lot !! tn = None
  \/ exists tk : ParkingTicket.t,
       ParkingLot.activeTickets lot !! tn = Some tk
       /\ fst (ParkingTicket.calculateFee now (ParkingLot.hourlyRate lot) tk)
          = (-1)%float.
Proof.
  unfold ParkingLot.exitParking.
  destruct (ParkingLot.activeTickets lot !! tn) as [tk |] eqn:E.
  - cbn [fst]. split.
    + intros H. right. exists tk. split; [reflexivity | exact H].
    + intros [H | (tk' & [= <-] & H)]; [discriminate H | exact H].
  - split; [now left | reflexivity].
Qed.

Lemma named_slot_exists (lot : ParkingLot.t) (tn : string) (tk : ParkingTicket.t) :
  lot_wf lot ->
  ParkingLot.activeTickets lot !! tn = Some tk ->
  exists s : ParkingSlot.t,
    s ∈ ParkingLot.parkingSlots lot
    /\ ParkingSlot.slotNumber s = ParkingTicket.slotNumber tk.
Proof.
  intros [Hn Ht] Htk. apply Ht in Htk as [Hpos Hle].
  destruct (ParkingLot.parkingSlots lot
              !! Z.to_nat (ParkingTicket.slotNumber tk - 1)) as [s |] eqn:E.
  - exists s. split; [now apply list_elem_of_lookup_2 in E |].
    apply Hn in E. lia.
  - apply lookup_ge_None in E. lia.
Qed.

(** C10, as the code has it.  [exitParking] returns -1.0 and changes
    nothing whenever the ticket number is not among the active tickets; it
    returns -1.0 if and only if the ticket is not active or the fee of the
    active ticket is itself -1.0.  For an active ticket of a lot built by
    the constructor and [parkVehicle]/[exitParking] calls, it returns the
    fee [calculateFee] charges at the lot's hourly rate, vacates exactly
    the slot the ticket names (which exists) and removes the ticket, so a
    second call with the same number returns -1.0 and changes nothing. *)
Theorem exitParking_vacates_named_slot_once :
  forall (lot : ParkingLot.t) (now now2 : Z) (tn : string),
    lot_reachable lot ->
    (ParkingLot.activeTickets lot !! tn = None ->
     ParkingLot.exitParking now tn lot = ((-1)%float, lot))
    /\ (fst (ParkingLot.exitParking now tn lot) = (-1)%float <->
        ParkingLot.activeTickets lot !! tn = None
        \/ exists tk : ParkingTicket.t,
             ParkingLot.activeTickets lot !! tn = Some tk
             /\ fst (ParkingTicket.calculateFee now (ParkingLot.hourlyRate lot) tk)
                = (-1)%float)
    /\ (forall tk : ParkingTicket.t,
          ParkingLot.activeTickets lot !! tn = Some tk ->
          fst (ParkingLot.exitParking now tn lot)
          = fst (ParkingTicket.calculateFee now (ParkingLot.hourlyRate lot) tk)
          /\ ParkingLot.parkingSlots (snd (ParkingLot.exitParking now tn lot))
             = vacate_named (ParkingTicket.slotNumber tk)
                            (ParkingLot.parkingSlots lot)
          /\ (exists s : ParkingSlot.t,
                 s ∈ ParkingLot.parkingSlots lot
                 /\ ParkingSlot.slotNumber s = ParkingTicket.slotNumber tk)
          /\ ParkingLot.activeTickets (snd (ParkingLot.exitParking now tn lot))
             = delete tn (ParkingLot.activeTickets lot)
          /\ ParkingLot.exitParking now2 tn
               (snd (ParkingLot.exitParking now tn lot))
             = ((-1)%float, snd (ParkingLot.exitParking now tn lot))).
Proof.
  intros lot now now2 tn Hreach.
  apply lot_reachable_wf in Hreach as Hwf.
  split; [apply exitParking_unknown |].
  split; [apply exitParking_sentinel |].
  intros tk Htk.
  pose proof (named_slot_exists lot tn tk Hwf Htk) as Hslot.
  destruct Hwf as [Hn Ht]. pose proof (Ht tn tk Htk) as [Hpos Hle].
  assert (ParkingLot.activeTickets (snd (ParkingLot.exitParking now tn lot))
          = delete tn (ParkingLot.activeTickets lot)) as Hdel.
  { unfold ParkingLot.exitParking. now rewrite Htk. }
  repeat split.
  - unfold ParkingLot.exitParking. now rewrite Htk.
  - unfold ParkingLot.exitParking. rewrite Htk. cbn.
    unfold ParkingTicket.getSlotNumber. cbn.
    replace (0 <? ParkingTicket.slotNumber tk) with true
      by (symmetry; apply Z.ltb_lt; lia).
    replace (ParkingTicket.slotNumber tk
             <=? Z.of_nat (length (ParkingLot.parkingSlots lot))) with true
      by (symmetry; apply Z.leb_le; lia).
    cbn. now apply alter_vacate_named.
  - exact Hslot.
  - exact Hdel.
  - apply exitParking_unknown. rewrite Hdel. apply lookup_delete_eq.
Qed.

Lemma exitParking_vacates_named_slot_once_witness :
  ParkingLot.exitParking 7 "TKT00000001"
    (snd (ParkingLot.exitParking 5 "TKT00000001" demo_lot))
  = ((-1)%float, snd (ParkingLot.exitParking 5 "TKT00000001" demo_lot)).
Proof.
  refine (proj2 (proj2 (proj2 (proj2
    (proj2 (proj2
              (exitParking_vacates_named_slot_once demo_lot 5 7
                 "TKT00000001" _))
       (ParkingTicket.new 0 "TKT00000001" (Some demo_car) 1) _))))).
  - apply reach_park, reach_new.
  - vm_compute. reflexivity.
Defined.

(** C10, the claim as stated fails: with an hourly rate of -1.0 a car that
    leaves within the first hour is charged [(0 + 1) * -1.0], so
    [exitParking] returns -1.0 for a ticket that is active. *)
Lemma exitParking_minus_one_for_active_ticket :
  lot_reachable negative_rate_lot
  /\ is_Some (ParkingLot.activeTickets negative_rate_lot !! "TKT00000001"%string)
  /\ fst (ParkingLot.exitParking 0 "TKT00000001" negative_rate_lot) = (-1)%float
  /\ ~ (fst (ParkingLot.exitParking 0 "TKT00000001" negative_rate_lot) = (-1)%float
        <-> ParkingLot.activeTickets negative_rate_lot !! "TKT00000001"%string = None).
Proof.
  assert (fst (ParkingLot.exitParking 0 "TKT00000001" negative_rate_lot)
          = (-1)%float) as Hfee by (vm_compute; reflexivity).
  assert (is_Some (ParkingLot.activeTickets negative_rate_lot
                     !! "TKT00000001"%string)) as Hactive
    by (vm_compute; eexists; reflexivity).
  split; [| split; [| split]].
  - apply reach_park, reach_new.
  - exact Hactive.
  - exact Hfee.
  - intros [H _]. specialize (H Hfee).
    rewrite H in Hactive. now destruct Hactive.
Qed.

(** ** Exceptions, payment types and configuration defaults *)

(** C3, as the code has it.  Every expired-booking error carries the HTTP
    status code 422 it inherits from [BusinessRuleException], the error
    code BUSINESS_RULE_VIOLATION and the rule BOOKING_EXPIRED. *)
Theorem BookingExpiredException_status_422 :
  forall bookingId : Z,
    Utils.getHttpStatusCode
      (Utils.rule_base (Utils.BookingExpiredException_new bookingId)) = 422
    /\ Utils.getErrorCode
         (Utils.rule_base (Utils.BookingExpiredException_new bookingId))
       = "BUSINESS_RULE_VIOLATION"%string
    /\ Utils.getRule (Utils.BookingExpiredException_new bookingId)
       = "BOOKING_EXPIRED"%string
    /\ Utils.what (Utils.rule_base (Utils.BookingExpiredException_new bookingId))
       = ("Booking " +:+ to_string bookingId +:+ " has expired")%string.
Proof. intros bookingId. repeat split. Qed.

(** C3, the claim as stated fails: the expired-booking error for booking 42
    has status 422, not 410. *)
Lemma BookingExpiredException_status_not_410 :
  Utils.getHttpStatusCode (Utils.rule_base (Utils.BookingExpiredException_new 42))
  <> 410.
Proof. vm_compute. discriminate. Qed.

(** C6, as the code has it.  The booking model's [PaymentStatus] has
    exactly the five values PENDING, PROCESSING, COMPLETED, FAILED and
    REFUNDED; the payment subsystem's [PaymentStatus] has these five and a
    sixth, CANCELLED. *)
Theorem payment_status_values :
  (forall s : Models.PaymentStatus.t, s ∈ model_payment_statuses)
  /\ NoDup model_payment_statuses
  /\ length model_payment_statuses = 5%nat
  /\ (forall s : Payment.PaymentStatus,
         s ∈ gateway_payment_statuses \/ s = Payment.CANCELLED)
  /\ NoDup (Payment.CANCELLED :: gateway_payment_statuses).
Proof.
  split; [intros []; unfold model_payment_statuses; set_solver |].
  split; [compute_done |].
  split; [reflexivity |].
  split.
  - intros []; unfold gateway_payment_statuses; first [by right | left; set_solver].
  - compute_done.
Qed.

(** C6, the claim as stated fails: CANCELLED is a payment status of the
    payment subsystem and is none of the five. *)
Lemma gateway_status_outside_the_five :
  ~ (forall s : Payment.PaymentStatus, s ∈ gateway_payment_statuses).
Proof.
  intros H. specialize (H Payment.CANCELLED).
  unfold gateway_payment_statuses in H.
  repeat (apply elem_of_cons in H as [H | H]; [discriminate H |]).
  now apply elem_of_nil in H.
Qed.

(** C7.  Constructed without configuration arguments, the booking service
    has lock duration 15 minutes, cleanup interval 5 minutes and 3 booking
    retries, and the payment service has at most 3 retries and a retry
    delay of 2 seconds; a seat-selection request locks for 15 minutes
    unless told otherwise. *)
Theorem default_configuration :
  forall (bookings : gmap Z Models.Booking.t) (shows : gmap Z Models.Show.t)
         (showId userId : Z) (seatIds : list Z),
    Services.defaultLockDurationMinutes_
      (Services.BookingService_new bookings shows None None None) = 15
    /\ Services.cleanupIntervalMinutes_
         (Services.BookingService_new bookings shows None None None) = 5
    /\ Services.maxBookingRetries_
         (Services.BookingService_new bookings shows None None None) = 3
    /\ Payment.maxRetries_ (Payment.PaymentService_new None None None) = 3
    /\ Payment.retryDelay_ (Payment.PaymentService_new None None None) = 2
    /\ Services.lockDurationMinutes
         (Services.SeatSelectionRequest_new showId seatIds userId) = 15.
Proof. intros. repeat split. Qed.

(** C8.  For every success flag and message, the response built by the
    [(success, message)] constructor has status FAILED, also when
    [success] is true; the flag and the message are stored as given. *)
Theorem PaymentResponse_starts_failed :
  forall (now : Z) (success : bool) (message : option string),
    Payment.status (Payment.PaymentResponse_new now success message)
    = Payment.FAILED
    /\ Payment.success (Payment.PaymentResponse_new now success message)
       = success
    /\ Payment.status (Payment.PaymentResponse_new now true message)
       = Payment.FAILED
    /\ Payment.message (Payment.PaymentResponse_new now success message)
       = default ""%string message.
Proof. intros. repeat split. Qed.

(** ** No double booking *)

Lemma holder_changes_only_by_takeover (op : SeatOp) (s : Models.ShowSeat.t)
    (b b' : Z) :
  holds s b = true ->
  holds (snd (apply_op op s)) b' = true ->
  b' <> b ->
  exists now lockDurationMinutes : Z,
    op = OpLockSeat now b' lockDurationMinutes
    /\ Models.ShowSeat.status_ s = Models.LOCKED
    /\ Models.ShowSeat.lockedUntil_ s <= now.
Proof.
  intros Hb Hb' Hne. unfold holds in Hb.
  destruct op as [now bid dur | bid |]; simpl in Hb'.
  - unfold Models.ShowSeat.lockSeat, Models.ShowSeat.isAvailable in Hb'.
    destruct (Models.ShowSeat.status_ s) eqn:Hst; try discriminate Hb.
    + destruct (Models.ShowSeat.lockedUntil_ s <=? now) eqn:Hle.
      * unfold holds in Hb'. simpl in Hb'.
        exists now, dur. repeat split; [f_equal; lia | lia].
      * unfold holds in Hb'. simpl in Hb'. rewrite Hst in Hb'. lia.
    + unfold holds in Hb'. simpl in Hb'. rewrite Hst in Hb'. lia.
  - unfold Models.ShowSeat.bookSeat in Hb'.
    destruct (bool_decide _ && _) eqn:Hg; unfold holds in Hb'; simpl in Hb'.
    + destruct (Models.ShowSeat.status_ s); try discriminate Hb; lia.
    + destruct (Models.ShowSeat.status_ s); try discriminate Hb; lia.
  - unfold Models.ShowSeat.releaseLock in Hb'.
    destruct (Models.ShowSeat.status_ s) eqn:Hst; try discriminate Hb;
      unfold holds in Hb'; simpl in Hb'; try discriminate Hb'.
    rewrite Hst in Hb'. lia.
Qed.

(** ** Seat rows of a show *)

Section ShowSeats.
Import Models.

Lemma find_seat_id (seatId : Z) (seats : list ShowSeat.t) (s : ShowSeat.t) :
  Show.find_seat seatId seats = Some s -> ShowSeat.seatId_ s = seatId.
Proof.
  induction seats as [| x seats IH]; simpl; [discriminate |].
  destruct (ShowSeat.seatId_ x =? seatId) eqn:E.
  - intros [= <-]. now apply Z.eqb_eq.
  - exact IH.
Qed.

Lemma find_seat_update (x seatId : Z) (f : ShowSeat.t -> ShowSeat.t)
    (seats : list ShowSeat.t) :
  (forall s, ShowSeat.seatId_ s = seatId -> ShowSeat.seatId_ (f s) = seatId) ->
  Show.find_seat x (Show.update_seat seatId f seats)
  = if x =? seatId then f <$> Show.find_seat seatId seats
    else Show.find_seat x seats.
Proof.
  intros Hf. induction seats as [| s seats IH]; simpl.
  - now destruct (x =? seatId).
  - destruct (Z.eqb_spec (ShowSeat.seatId_ s) seatId) as [Es | Es]; simpl.
    + rewrite (Hf s Es).
      destruct (Z.eqb_spec x seatId) as [-> | Ex].
      * now rewrite Z.eqb_refl.
      * destruct (Z.eqb_spec seatId x) as [Hx | _]; [congruence |].
        now destruct (Z.eqb_spec (ShowSeat.seatId_ s) x) as [Hx | _];
          [congruence |].
    + rewrite IH.
      destruct (Z.eqb_spec x seatId) as [-> | Ex]; [| reflexivity].
      now destruct (Z.eqb_spec (ShowSeat.seatId_ s) seatId); [congruence |].
Qed.

Lemma find_seat_map (x : Z) (g : ShowSeat.t -> ShowSeat.t)
    (seats : list ShowSeat.t) :
  (forall s, ShowSeat.seatId_ (g s) = ShowSeat.seatId_ s) ->
  Show.find_seat x (map g seats) = g <$> Show.find_seat x seats.
Proof.
  intros Hg. induction seats as [| s seats IH]; simpl; [reflexivity |].
  rewrite Hg. now destruct (ShowSeat.seatId_ s =? x).
Qed.

Lemma lockSeat_available (now bookingId dur : Z) (s : ShowSeat.t) :
  ShowSeat.isAvailable now s = true ->
  ShowSeat.lockSeat now bookingId dur s = (true, locked_to now bookingId dur s)
  /\ ShowSeat.status_ (locked_to now bookingId dur s) = LOCKED
  /\ ShowSeat.bookingId_ (locked_to now bookingId dur s) = bookingId
  /\ ShowSeat.lockedUntil_ (locked_to now bookingId dur s) = now + minutes dur
  /\ ShowSeat.seatId_ (locked_to now bookingId dur s) = ShowSeat.seatId_ s.
Proof.
  intros H. unfold locked_to, ShowSeat.lockSeat. rewrite H. now repeat split.
Qed.

Lemma lockSeat_refused (now bookingId dur : Z) (s : ShowSeat.t) :
  ShowSeat.isAvailable now s = false ->
  ShowSeat.lockSeat now bookingId dur s = (false, s).
Proof. intros H. unfold ShowSeat.lockSeat. now rewrite H. Qed.

Lemma releaseLock_seat_id (s : ShowSeat.t) :
  ShowSeat.seatId_ (snd (ShowSeat.releaseLock s)) = ShowSeat.seatId_ s.
Proof. unfold ShowSeat.releaseLock. now destruct (ShowSeat.status_ s). Qed.

Lemma releaseLock_idempotent (s : ShowSeat.t) :
  snd (ShowSeat.releaseLock (snd (ShowSeat.releaseLock s)))
  = snd (ShowSeat.releaseLock s).
Proof. unfold ShowSeat.releaseLock. now destruct (ShowSeat.status_ s) eqn:E; cbn; rewrite ?E. Qed.

Lemma releaseLock_locked (s : ShowSeat.t) :
  ShowSeat.status_ s = LOCKED -> seat_cleared (snd (ShowSeat.releaseLock s)).
Proof. intros H. unfold ShowSeat.releaseLock. rewrite H. now repeat split. Qed.

(** The seat found under an id after a rollback: released if the id is
    among the rolled-back ones, untouched otherwise. *)
Lemma find_seat_rollback (x : Z) (locked : list Z) :
  forall seats : list ShowSeat.t,
    Show.find_seat x (Show.rollback locked seats)
    = if bool_decide (x ∈ locked)
      then (fun s => snd (ShowSeat.releaseLock s)) <$> Show.find_seat x seats
      else Show.find_seat x seats.
Proof.
  unfold Show.rollback.
  induction locked as [| y locked IH]; intros seats; simpl; [reflexivity |].
  rewrite IH.
  rewrite find_seat_update
    by (intros s Hs; now rewrite releaseLock_seat_id).
  destruct (Z.eqb_spec x y) as [-> | Hne].
  - rewrite (bool_decide_eq_true_2 (y ∈ y :: locked)) by apply list_elem_of_here.
    destruct (bool_decide (y ∈ locked)); [| reflexivity].
    destruct (Show.find_seat y seats) as [s |]; cbn; [| reflexivity].
    now rewrite releaseLock_idempotent.
  - destruct (decide (x ∈ locked)) as [Hin | Hnin].
    + rewrite (bool_decide_eq_true_2 _ Hin).
      now rewrite (bool_decide_eq_true_2 (x ∈ y :: locked))
        by (now apply list_elem_of_further).
    + rewrite (bool_decide_eq_false_2 _ Hnin).
      now rewrite (bool_decide_eq_false_2 (x ∈ y :: locked))
        by (rewrite elem_of_cons; tauto).
Qed.

(** With distinct seat ids that all name lockable seats, the conditional
    updates of [lock_each] all apply. *)
Lemma lock_each_succeeds (now bookingId dur : Z) (seatIds : list Z) :
  forall (locked : list Z) (seats : list ShowSeat.t),
    NoDup seatIds ->
    (forall x, x ∈ seatIds ->
       exists s, Show.find_seat x seats = Some s
                 /\ ShowSeat.isAvailable now s = true) ->
    exists seats',
      Show.lock_each now bookingId dur seatIds locked seats = (true, seats')
      /\ (forall x, x ∈ seatIds ->
            Show.find_seat x seats'
            = locked_to now bookingId dur <$> Show.find_seat x seats)
      /\ (forall x, x ∉ seatIds ->
            Show.find_seat x seats' = Show.find_seat x seats).
Proof.
  induction seatIds as [| sid rest IH]; intros locked seats Hnd Hav.
  - exists seats. split; [reflexivity |]. split; [| reflexivity].
    intros x Hx. now apply elem_of_nil in Hx.
  - apply NoDup_cons in Hnd as [Hnotin Hnd].
    destruct (Hav sid) as (s & Hfind & Havail); [apply list_elem_of_here |].
    destruct (lockSeat_available now bookingId dur s Havail)
      as (Hlock & _ & _ & _ & Hid).
    pose proof (find_seat_id _ _ _ Hfind) as Hsid.
    assert (forall x,
               Show.find_seat x
                 (Show.update_seat sid
                    (fun _ => locked_to now bookingId dur s) seats)
               = if x =? sid
                 then Some (locked_to now bookingId dur s)
                 else Show.find_seat x seats) as Hupd.
    { intros x. rewrite find_seat_update by (intros; congruence).
      now rewrite Hfind. }
    destruct (IH (sid :: locked)
                 (Show.update_seat sid
                    (fun _ => locked_to now bookingId dur s) seats) Hnd)
      as (seats' & Hrun & Hin & Hout).
    { intros x Hx. rewrite Hupd.
      replace (x =? sid) with false
        by (symmetry; apply Z.eqb_neq; intros ->; contradiction).
      apply Hav. now apply list_elem_of_further. }
    exists seats'. split; [| split].
    + simpl. rewrite Hfind, Hlock. exact Hrun.
    + intros x Hx. apply elem_of_cons in Hx as [-> | Hx].
      * rewrite (Hout sid Hnotin), Hupd, Z.eqb_refl, Hfind. reflexivity.
      * rewrite (Hin x Hx), Hupd.
        now replace (x =? sid) with false
          by (symmetry; apply Z.eqb_neq; intros ->; contradiction).
    + intros x Hx. apply not_elem_of_cons in Hx as [Hne Hx].
      rewrite (Hout x Hx), Hupd.
      now replace (x =? sid) with false
        by (symmetry; apply Z.eqb_neq; exact Hne).
Qed.

(** When [lock_each] reports success, every requested seat was found and
    passed the guard of its conditional update. *)
Lemma lock_each_true_guards (now bookingId dur : Z) (seatIds : list Z) :
  forall (locked : list Z) (seats seats' : list ShowSeat.t),
    NoDup seatIds ->
    Show.lock_each now bookingId dur seatIds locked seats = (true, seats') ->
    forall x, x ∈ seatIds ->
      exists s, Show.find_seat x seats = Some s
                /\ ShowSeat.isAvailable now s = true.
Proof.
  induction seatIds as [| sid rest IH]; intros locked seats seats' Hnd Hrun x Hx.
  - now apply elem_of_nil in Hx.
  - apply NoDup_cons in Hnd as [Hnotin Hnd]. simpl in Hrun.
    destruct (Show.find_seat sid seats) as [s |] eqn:Hfind; [| discriminate].
    destruct (ShowSeat.isAvailable now s) eqn:Havail;
      [| rewrite (lockSeat_refused _ _ _ _ Havail) in Hrun; discriminate].
    destruct (lockSeat_available now bookingId dur s Havail) as (Hlock & _).
    rewrite Hlock in Hrun.
    apply elem_of_cons in Hx as [-> | Hx]; [now exists s |].
    destruct (IH _ _ _ Hnd Hrun x Hx) as (s' & Hs' & Hav').
    exists s'. split; [| exact Hav'].
    rewrite find_seat_update in Hs'
      by (intros; unfold locked_to, ShowSeat.lockSeat; rewrite Havail;
          cbn; now apply find_seat_id in Hfind).
    now replace (x =? sid) with false in Hs'
      by (symmetry; apply Z.eqb_neq; intros ->; contradiction).
Qed.

(** The rows a rollback leaves: every seat id finds either the row it found
    before the updates, or a released row. *)
Lemma rollback_rows (locked : list Z) (seats seats0 : list ShowSeat.t) :
  (forall x, x ∈ locked ->
     exists s, Show.find_seat x seats = Some s /\ ShowSeat.status_ s = LOCKED) ->
  (forall x, x ∉ locked -> Show.find_seat x seats = Show.find_seat x seats0) ->
  forall x,
    Show.find_seat x (Show.rollback locked seats) = Show.find_seat x seats0
    \/ exists s, Show.find_seat x (Show.rollback locked seats) = Some s
                 /\ seat_cleared s.
Proof.
  intros Hin Hout x. rewrite find_seat_rollback.
  destruct (decide (x ∈ locked)) as [Hx | Hx].
  - rewrite (bool_decide_eq_true_2 _ Hx).
    destruct (Hin x Hx) as (s & Hs & Hst). right.
    exists (snd (ShowSeat.releaseLock s)). rewrite Hs.
    split; [reflexivity | now apply releaseLock_locked].
  - rewrite (bool_decide_eq_false_2 _ Hx). left. now apply Hout.
Qed.

(** When [lock_each] reports failure, no row is left locked by it. *)
Lemma lock_each_false_rows (now bookingId dur : Z) (seats0 : list ShowSeat.t)
    (seatIds : list Z) :
  forall (locked : list Z) (seats seats' : list ShowSeat.t),
    (forall x, x ∈ locked ->
       exists s, Show.find_seat x seats = Some s /\ ShowSeat.status_ s = LOCKED) ->
    (forall x, x ∉ locked -> Show.find_seat x seats = Show.find_seat x seats0) ->
    Show.lock_each now bookingId dur seatIds locked seats = (false, seats') ->
    forall x,
      Show.find_seat x seats' = Show.find_seat x seats0
      \/ exists s, Show.find_seat x seats' = Some s /\ seat_cleared s.
Proof.
  induction seatIds as [| sid rest IH]; intros locked seats seats' Hin Hout Hrun.
  - discriminate Hrun.
  - simpl in Hrun.
    destruct (Show.find_seat sid seats) as [s |] eqn:Hfind;
      [| injection Hrun as <-; now apply rollback_rows].
    destruct (ShowSeat.isAvailable now s) eqn:Havail;
      [| rewrite (lockSeat_refused _ _ _ _ Havail) in Hrun;
         injection Hrun as <-; now apply rollback_rows].
    destruct (lockSeat_available now bookingId dur s Havail)
      as (Hlock & Hst & _ & _ & Hid).
    rewrite Hlock in Hrun.
    pose proof (find_seat_id _ _ _ Hfind) as Hsid.
    assert (forall x,
               Show.find_seat x
                 (Show.update_seat sid
                    (fun _ => locked_to now bookingId dur s) seats)
               = if x =? sid
                 then Some (locked_to now bookingId dur s)
                 else Show.find_seat x seats) as Hupd.
    { intros x. rewrite find_seat_update by (intros; congruence).
      now rewrite Hfind. }
    refine (IH _ _ _ _ _ Hrun).
    + intros x Hx. rewrite Hupd.
      destruct (Z.eqb_spec x sid) as [-> | Hne]; [now eexists |].
      apply elem_of_cons in Hx as [-> | Hx]; [contradiction | now apply Hin].
    + intros x Hx. apply not_elem_of_cons in Hx as [Hne Hx].
      rewrite Hupd.
      destruct (Z.eqb_spec x sid) as [-> | _]; [contradiction | now apply Hout].
Qed.

End ShowSeats.

(** ** Initiating a booking *)

Section InitiateBooking.
Import Models Services.

Lemma validate_NoDup (now : Z) (req : SeatSelectionRequest) (sh : Show.t) :
  validateSeatSelection now req sh = true -> NoDup (seatIds req).
Proof.
  unfold validateSeatSelection. rewrite !andb_true_iff.
  intros [[[_ H] _] _]. now apply bool_decide_eq_true in H.
Qed.

(** The outcome of [processBookingRequest] once validation and the
    availability check have passed and every requested seat is lockable:
    the booking row is inserted PENDING and every requested seat is locked
    to it. *)
Lemma processBookingRequest_locks (now : Z) (req : SeatSelectionRequest)
    (svc : BookingService) (sh : Show.t) (seats : list ShowSeat.t) :
  showRepository_ svc !! showId req = Some sh ->
  validateSeatSelection now req sh = true ->
  load_seats (seatIds req) sh = Some seats ->
  unavailable_seat_ids now seats = [] ->
  (forall x, x ∈ seatIds req ->
     exists s, Show.find_seat x (Show.showSeats_ sh) = Some s
               /\ ShowSeat.isAvailable now s = true) ->
  exists (b : Booking.t) (seats' : list ShowSeat.t),
    fst (processBookingRequest now req svc)
    = {| success := true; message := ""%string; booking := Some b;
         failedSeatIds := [] |}
    /\ Booking.id_ b = nextBookingId_ svc
    /\ Booking.userId_ b = userId req
    /\ Booking.showId_ b = showId req
    /\ Booking.bookingStatus_ b = BookingStatus.PENDING
    /\ Booking.bookingSeats_ b = seatIds req
    /\ Booking.expiresAt_ b = now + minutes (lockDurationMinutes req)
    /\ bookingRepository_ (snd (processBookingRequest now req svc))
       = <[Booking.id_ b := b]> (bookingRepository_ svc)
    /\ showRepository_ (snd (processBookingRequest now req svc))
       = <[showId req := Show.with_seats seats' sh]> (showRepository_ svc)
    /\ (forall x, x ∈ seatIds req ->
          Show.find_seat x seats'
          = locked_to now (Booking.id_ b) (lockDurationMinutes req)
              <$> Show.find_seat x (Show.showSeats_ sh))
    /\ (forall x, x ∉ seatIds req ->
          Show.find_seat x seats' = Show.find_seat x (Show.showSeats_ sh))
    /\ nextBookingId_ (snd (processBookingRequest now req svc))
       = nextBookingId_ svc + 1.
Proof.
  intros Hshow Hval Hload Hun Hav.
  pose proof (validate_NoDup _ _ _ Hval) as Hnd.
  destruct (lock_each_succeeds now (nextBookingId_ svc)
              (lockDurationMinutes req) (seatIds req) [] (Show.showSeats_ sh)
              Hnd Hav) as (seats' & Hrun & Hin & Hout).
  eexists _, seats'.
  unfold processBookingRequest.
  rewrite Hshow, Hval, Hload, Hun. cbn [negb].
  unfold createPendingBooking, Show.lockSeats.
  cbn [Booking.with_id Booking.id_ Booking.createPending].
  rewrite Hrun. cbn.
  repeat split; first [assumption | reflexivity].
Qed.

Lemma load_seats_found (seatIds : list Z) (sh : Show.t) :
  forall seats : list ShowSeat.t,
    load_seats seatIds sh = Some seats ->
    forall x, x ∈ seatIds ->
      exists s, Show.getShowSeatById x sh = Some s /\ s ∈ seats.
Proof.
  induction seatIds as [| y rest IH]; intros seats Hload x Hx.
  - now apply elem_of_nil in Hx.
  - simpl in Hload.
    destruct (Show.getShowSeatById y sh) as [s |] eqn:Hs; [| discriminate].
    destruct (load_seats rest sh) as [seats' |] eqn:Hrest; [| discriminate].
    injection Hload as <-.
    apply elem_of_cons in Hx as [-> | Hx].
    + exists s. split; [exact Hs | apply list_elem_of_here].
    + destruct (IH seats' eq_refl x Hx) as (s' & Hs' & Hin).
      exists s'. split; [exact Hs' | now apply list_elem_of_further].
Qed.

Lemma none_unavailable_all_lockable (now : Z) (seats : list ShowSeat.t) :
  unavailable_seat_ids now seats = [] ->
  forall s, s ∈ seats -> ShowSeat.isAvailable now s = true.
Proof.
  unfold unavailable_seat_ids. intros Hun s Hs.
  destruct (seat_taken now s) eqn:Htaken.
  - exfalso.
    assert (s ∈ List.filter (seat_taken now) seats) as Hin.
    { apply list_elem_of_In, filter_In. split; [now apply list_elem_of_In | exact Htaken]. }
    destruct (List.filter (seat_taken now) seats); [now apply elem_of_nil in Hin |].
    discriminate Hun.
  - unfold seat_taken, ShowSeat.getStatus, ShowSeat.getLockedUntil in Htaken.
    unfold ShowSeat.isAvailable.
    destruct (ShowSeat.status_ s); try discriminate; [reflexivity |].
    apply Z.ltb_ge in Htaken. now apply Z.leb_le.
Qed.

(** Under the show's mutex the conditional updates of step 5 cannot fail:
    a request that passes the checks of steps 1 and 2 locks every seat. *)
Lemma processBookingRequest_passes (now : Z) (req : SeatSelectionRequest)
    (svc : BookingService) (sh : Show.t) (seats : list ShowSeat.t) :
  showRepository_ svc !! showId req = Some sh ->
  validateSeatSelection now req sh = true ->
  load_seats (seatIds req) sh = Some seats ->
  unavailable_seat_ids now seats = [] ->
  forall x, x ∈ seatIds req ->
    exists s, Show.find_seat x (Show.showSeats_ sh) = Some s
              /\ ShowSeat.isAvailable now s = true.
Proof.
  intros _ _ Hload Hun x Hx.
  destruct (load_seats_found _ _ _ Hload x Hx) as (s & Hs & Hin).
  exists s. split; [exact Hs |].
  now apply (none_unavailable_all_lockable now seats).
Qed.

End InitiateBooking.

(** ** Lock, then cancel *)

Section LockThenCancel.
Import Models Services.

Lemma load_seats_all (seatIds : list Z) (sh : Show.t) (P : ShowSeat.t -> Prop) :
  (forall x, x ∈ seatIds ->
     exists s, Show.getShowSeatById x sh = Some s /\ P s) ->
  exists seats, load_seats seatIds sh = Some seats /\ Forall P seats.
Proof.
  induction seatIds as [| x rest IH]; intros H; simpl.
  - exists []. split; [reflexivity | constructor].
  - destruct (H x) as (s & Hs & HP); [apply list_elem_of_here |].
    destruct IH as (seats & Hseats & HPs).
    { intros y Hy. apply H. now apply list_elem_of_further. }
    exists (s :: seats). rewrite Hs, Hseats.
    split; [reflexivity | now constructor].
Qed.

Lemma all_available_none_unavailable (now : Z) (seats : list ShowSeat.t) :
  Forall (fun s => ShowSeat.status_ s = AVAILABLE) seats ->
  unavailable_seat_ids now seats = [].
Proof.
  unfold unavailable_seat_ids.
  induction 1 as [| s seats Hs _ IH]; simpl; [reflexivity |].
  unfold seat_taken at 1, ShowSeat.getStatus. rewrite Hs. exact IH.
Qed.

(** Releasing the lock [lockSeat] has just put on an AVAILABLE seat with
    no holder and no lock expiry gives the seat back as it was. *)
Lemma release_after_lock (now bookingId dur : Z) (s : ShowSeat.t) :
  ShowSeat.status_ s = AVAILABLE ->
  ShowSeat.bookingId_ s = NO_BOOKING ->
  ShowSeat.lockedUntil_ s = NO_LOCK ->
  Show.held_locked bookingId (locked_to now bookingId dur s) = true
  /\ snd (ShowSeat.releaseLock (locked_to now bookingId dur s)) = s.
Proof.
  intros Hst Hb Hl. unfold locked_to, ShowSeat.lockSeat, ShowSeat.isAvailable.
  rewrite Hst. cbn. unfold Show.held_locked. cbn.
  rewrite Z.eqb_refl. split; [reflexivity |].
  destruct s as [i sh sid st lu bk pr]. cbn in *. now subst.
Qed.

Lemma release_keeps_seat_id (bookingId : Z) (s : ShowSeat.t) :
  ShowSeat.seatId_
    (if Show.held_locked bookingId s then snd (ShowSeat.releaseLock s) else s)
  = ShowSeat.seatId_ s.
Proof.
  destruct (Show.held_locked bookingId s); [| reflexivity].
  unfold ShowSeat.releaseLock. now destruct (ShowSeat.status_ s).
Qed.

(** Show level: [lockSeats] on AVAILABLE seats followed by
    [releaseLockedSeats] for the same booking. *)
Lemma show_lock_release_round_trip (now bookingId dur : Z) (seatIds : list Z)
    (sh : Show.t) :
  NoDup seatIds ->
  (forall x, x ∈ seatIds ->
     exists s : ShowSeat.t, Show.getShowSeatById x sh = Some s /\ seat_cleared s) ->
  exists sh1 : Show.t,
    Show.lockSeats now seatIds bookingId dur sh = (true, sh1)
    /\ (forall x, x ∈ seatIds ->
          exists s : ShowSeat.t,
            Show.getShowSeatById x sh1 = Some s
            /\ ShowSeat.status_ s = LOCKED
            /\ ShowSeat.bookingId_ s = bookingId)
    /\ (forall x, x ∈ seatIds ->
          exists s : ShowSeat.t,
            Show.getShowSeatById x (snd (Show.releaseLockedSeats bookingId sh1))
            = Some s
            /\ seat_cleared s
            /\ Show.getShowSeatById x sh = Some s).
Proof.
  intros Hnd Hseats.
  destruct (lock_each_succeeds now bookingId dur seatIds [] (Show.showSeats_ sh)
              Hnd) as (seats' & Hrun & Hin & _).
  { intros x Hx. destruct (Hseats x Hx) as (s & Hs & Hst & _).
    exists s. split; [exact Hs |].
    unfold ShowSeat.isAvailable. now rewrite Hst. }
  exists (Show.with_seats seats' sh).
  unfold Show.lockSeats. rewrite Hrun. split; [reflexivity |].
  unfold Show.getShowSeatById in *. cbn [Show.with_seats Show.showSeats_].
  split.
  - intros x Hx. destruct (Hseats x Hx) as (s & Hs & Hst & _).
    exists (locked_to now bookingId dur s). rewrite (Hin x Hx), Hs.
    split; [reflexivity |].
    destruct (lockSeat_available now bookingId dur s) as (_ & H1 & H2 & _).
    { unfold ShowSeat.isAvailable. now rewrite Hst. }
    now split.
  - intros x Hx. destruct (Hseats x Hx) as (s & Hs & Hst & Hnb & Hnl).
    exists s. unfold Show.releaseLockedSeats.
    cbn [snd Show.with_seats Show.showSeats_].
    rewrite find_seat_map by (intros; apply release_keeps_seat_id).
    rewrite (Hin x Hx), Hs. cbn [fmap option_fmap option_map].
    destruct (release_after_lock now bookingId dur s Hst Hnb Hnl)
      as [Hheld Hrel].
    rewrite Hheld, Hrel. now repeat split.
Qed.

(** Service level: a valid request for AVAILABLE seats is booked PENDING
    and the owner's cancellation gives every seat row back. *)
Lemma initiate_then_cancel_restores_seats :
  forall (now now' : Z) (req : SeatSelectionRequest) (svc : BookingService)
         (sh : Show.t),
    showRepository_ svc !! showId req = Some sh ->
    validateSeatSelection now req sh = true ->
    (forall x, x ∈ seatIds req ->
       exists s : ShowSeat.t,
         Show.getShowSeatById x sh = Some s /\ seat_cleared s) ->
    exists (b : Booking.t) (sh1 sh2 : Show.t),
      success (fst (initiateBooking now req svc)) = true
      /\ booking (fst (initiateBooking now req svc)) = Some b
      /\ Booking.bookingStatus_ b = BookingStatus.PENDING
      /\ showRepository_ (snd (initiateBooking now req svc)) !! showId req
         = Some sh1
      /\ (forall x, x ∈ seatIds req ->
            exists s : ShowSeat.t,
              Show.getShowSeatById x sh1 = Some s
              /\ ShowSeat.status_ s = LOCKED
              /\ ShowSeat.bookingId_ s = Booking.id_ b)
      /\ fst (cancelBooking now' (Booking.id_ b) (userId req)
                (snd (initiateBooking now req svc))) = true
      /\ showRepository_
           (snd (cancelBooking now' (Booking.id_ b) (userId req)
                   (snd (initiateBooking now req svc)))) !! showId req
         = Some sh2
      /\ (forall x, x ∈ seatIds req ->
            exists s : ShowSeat.t,
              Show.getShowSeatById x sh2 = Some s
              /\ seat_cleared s
              /\ Show.getShowSeatById x sh = Some s)
      /\ Booking.bookingStatus_
           <$> bookingRepository_
                 (snd (cancelBooking now' (Booking.id_ b) (userId req)
                         (snd (initiateBooking now req svc))))
                 !! Booking.id_ b
         = Some BookingStatus.CANCELLED.
Proof.
  intros now now' req svc sh Hshow Hval Hseats.
  destruct (load_seats_all (seatIds req) sh
              (fun s => ShowSeat.status_ s = AVAILABLE))
    as (seats & Hload & Hall).
  { intros x Hx. destruct (Hseats x Hx) as (s & Hs & Hst & _). eauto. }
  pose proof (all_available_none_unavailable now seats Hall) as Hun.
  assert (forall x, x ∈ seatIds req ->
            exists s, Show.find_seat x (Show.showSeats_ sh) = Some s
                      /\ ShowSeat.isAvailable now s = true) as Hlockable.
  { intros x Hx. destruct (Hseats x Hx) as (s & Hs & Hst & _).
    exists s. split; [exact Hs |].
    unfold ShowSeat.isAvailable. now rewrite Hst. }
  destruct (processBookingRequest_locks now req svc sh seats
              Hshow Hval Hload Hun Hlockable)
    as (b & seats' & Hres & Hid & Huser & Hbshow & Hst & _ & _ & Hbk & Hsh
        & Hin & _).
  unfold initiateBooking.
  set (svc1 := snd (processBookingRequest now req svc)) in *.
  assert (bookingRepository_ svc1 !! Booking.id_ b = Some b) as Hb1
    by (rewrite Hbk; apply lookup_insert_eq).
  assert (showRepository_ svc1 !! Booking.showId_ b
          = Some (Show.with_seats seats' sh)) as Hs1
    by (rewrite Hsh, Hbshow; apply lookup_insert_eq).
  assert (cancelBooking now' (Booking.id_ b) (userId req) svc1
          = (true,
             with_stores
               (<[Booking.id_ b :=
                    Booking.with_states now' BookingStatus.CANCELLED
                      (Booking.paymentStatus_ b) b]>
                  (bookingRepository_ svc1))
               (nextBookingId_ svc1)
               (<[Booking.showId_ b :=
                    snd (Show.releaseLockedSeats (Booking.id_ b)
                           (Show.with_seats seats' sh))]>
                  (showRepository_ svc1))
               (refundQueue_ svc1) svc1)) as Hcancel.
  { unfold cancelBooking, isUserAuthorized.
    rewrite Hb1, Huser, Z.eqb_refl, Hs1, Hst. reflexivity. }
  exists b, (Show.with_seats seats' sh),
    (snd (Show.releaseLockedSeats (Booking.id_ b) (Show.with_seats seats' sh))).
  rewrite Hcancel, Hres. cbn [fst snd success booking].
  split; [reflexivity |]. split; [reflexivity |]. split; [exact Hst |].
  split; [rewrite Hsh; apply lookup_insert_eq |].
  split.
  { intros x Hx. destruct (Hseats x Hx) as (s & Hs & Hav & _).
    exists (locked_to now (Booking.id_ b) (lockDurationMinutes req) s).
    unfold Show.getShowSeatById in *. cbn [Show.with_seats Show.showSeats_].
    rewrite (Hin x Hx), Hs. split; [reflexivity |].
    destruct (lockSeat_available now (Booking.id_ b)
                (lockDurationMinutes req) s) as (_ & H1 & H2 & _).
    { unfold ShowSeat.isAvailable. now rewrite Hav. }
    now split. }
  split; [reflexivity |].
  split.
  { cbn [with_stores showRepository_]. rewrite Hbshow.
    apply lookup_insert_eq. }
  split.
  { intros x Hx. destruct (Hseats x Hx) as (s & Hs & Hav & Hnb & Hnl).
    exists s. unfold Show.getShowSeatById in *.
    unfold Show.releaseLockedSeats.
    cbn [snd Show.with_seats Show.showSeats_].
    rewrite find_seat_map by (intros; apply release_keeps_seat_id).
    rewrite (Hin x Hx), Hs. cbn [fmap option_fmap option_map].
    destruct (release_after_lock now (Booking.id_ b)
                (lockDurationMinutes req) s Hav Hnb Hnl) as [Hheld Hrel].
    rewrite Hheld, Hrel. now repeat split. }
  cbn [with_stores bookingRepository_].
  rewrite lookup_insert_eq. reflexivity.
Qed.

(** C5.  For every set of AVAILABLE seats of a show (no holder, no lock
    expiry), locking them to a booking and then releasing that booking's
    locks restores every one of those seats to AVAILABLE with holder and
    lockedUntil cleared: the seat row equals the row before the lock.  So
    it is through the service: a valid request for these seats is booked
    PENDING with the seats LOCKED to it, and the owner's [cancelBooking]
    gives the rows back and leaves the booking CANCELLED. *)
Theorem lock_then_cancel_restores_seats :
  forall (now now' : Z) (req : SeatSelectionRequest) (svc : BookingService)
         (sh : Show.t) (bookingId : Z),
    NoDup (seatIds req) ->
    (forall x, x ∈ seatIds req ->
       exists s : ShowSeat.t,
         Show.getShowSeatById x sh = Some s /\ seat_cleared s) ->
    (exists sh1 : Show.t,
        Show.lockSeats now (seatIds req) bookingId (lockDurationMinutes req) sh
        = (true, sh1)
        /\ (forall x, x ∈ seatIds req ->
              exists s : ShowSeat.t,
                Show.getShowSeatById x sh1 = Some s
                /\ ShowSeat.status_ s = LOCKED
                /\ ShowSeat.bookingId_ s = bookingId)
        /\ (forall x, x ∈ seatIds req ->
              exists s : ShowSeat.t,
                Show.getShowSeatById x
                  (snd (Show.releaseLockedSeats bookingId sh1)) = Some s
                /\ seat_cleared s
                /\ Show.getShowSeatById x sh = Some s))
    /\ (showRepository_ svc !! showId req = Some sh ->
        validateSeatSelection now req sh = true ->
        exists (b : Booking.t) (sh1 sh2 : Show.t),
          success (fst (initiateBooking now req svc)) = true
          /\ booking (fst (initiateBooking now req svc)) = Some b
          /\ Booking.bookingStatus_ b = BookingStatus.PENDING
          /\ showRepository_ (snd (initiateBooking now req svc)) !! showId req
             = Some sh1
          /\ (forall x, x ∈ seatIds req ->
                exists s : ShowSeat.t,
                  Show.getShowSeatById x sh1 = Some s
                  /\ ShowSeat.status_ s = LOCKED
                  /\ ShowSeat.bookingId_ s = Booking.id_ b)
          /\ fst (cancelBooking now' (Booking.id_ b) (userId req)
                    (snd (initiateBooking now req svc))) = true
          /\ showRepository_
               (snd (cancelBooking now' (Booking.id_ b) (userId req)
                       (snd (initiateBooking now req svc)))) !! showId req
             = Some sh2
          /\ (forall x, x ∈ seatIds req ->
                exists s : ShowSeat.t,
                  Show.getShowSeatById x sh2 = Some s
                  /\ seat_cleared s
                  /\ Show.getShowSeatById x sh = Some s)
          /\ Booking.bookingStatus_
               <$> bookingRepository_
                     (snd (cancelBooking now' (Booking.id_ b) (userId req)
                             (snd (initiateBooking now req svc))))
                     !! Booking.id_ b
             = Some BookingStatus.CANCELLED).
Proof.
  intros now now' req svc sh bookingId Hnd Hseats. split.
  - now apply show_lock_release_round_trip.
  - intros Hshow Hval.
    now apply initiate_then_cancel_restores_seats.
Qed.
End LockThenCancel.

Lemma lock_then_cancel_restores_seats_witness :
  exists sh1 : Models.Show.t,
    Models.Show.lockSeats 0 [10; 11] 1 15 demo_show = (true, sh1)
    /\ (forall x, x ∈ [10; 11] ->
          exists s : Models.ShowSeat.t,
            Models.Show.getShowSeatById x sh1 = Some s
            /\ Models.ShowSeat.status_ s = Models.LOCKED
            /\ Models.ShowSeat.bookingId_ s = 1)
    /\ (forall x, x ∈ [10; 11] ->
          exists s : Models.ShowSeat.t,
            Models.Show.getShowSeatById x
              (snd (Models.Show.releaseLockedSeats 1 sh1)) = Some s
            /\ seat_cleared s
            /\ Models.Show.getShowSeatById x demo_show = Some s).
Proof.
  refine (proj1 (lock_then_cancel_restores_seats 0 5 demo_request demo_service
                   demo_show 1 _ _)).
  - compute_done.
  - intros x Hx. cbn in Hx.
    apply elem_of_cons in Hx as [-> | Hx];
      [eexists; vm_compute; repeat split |].
    apply elem_of_cons in Hx as [-> | Hx];
      [eexists; vm_compute; repeat split |].
    now apply elem_of_nil in Hx.
Defined.

(** ** No double booking: the states of the service *)

Section ServiceStates.
Import Models Services.

Lemma seat_of_insert (svc svc' : BookingService) (sid : Z) (sh' : Show.t) :
  showRepository_ svc' = <[sid := sh']> (showRepository_ svc) ->
  forall sid' x,
    seat_of svc' sid' x
    = if decide (sid' = sid) then Show.getShowSeatById x sh'
      else seat_of svc sid' x.
Proof.
  intros Hs sid' x. unfold seat_of. rewrite Hs.
  destruct (decide (sid' = sid)) as [-> | Hne].
  - now rewrite lookup_insert_eq.
  - now rewrite lookup_insert_ne by congruence.
Qed.

Lemma seat_of_same (svc svc' : BookingService) :
  showRepository_ svc' = showRepository_ svc ->
  forall sid x, seat_of svc' sid x = seat_of svc sid x.
Proof. intros Hs sid x. unfold seat_of. now rewrite Hs. Qed.

Lemma svc_consistent_later (now now' : Z) (svc : BookingService) :
  now <= now' -> svc_consistent now svc -> svc_consistent now' svc.
Proof.
  intros Hle (Hidx & Hseats & Hbook). split; [exact Hidx |].
  split; [exact Hseats |].
  intros id b Hb. destruct (Hbook id b Hb) as [Hp Hc]. split; [| exact Hc].
  intros Hst Hlive. apply Hp; [exact Hst | lia].
Qed.

Lemma svc_consistent_ext (now : Z) (svc svc' : BookingService) :
  bookingRepository_ svc' = bookingRepository_ svc ->
  nextBookingId_ svc' = nextBookingId_ svc ->
  showRepository_ svc' = showRepository_ svc ->
  svc_consistent now svc -> svc_consistent now svc'.
Proof.
  intros Hb Hn Hs (Hidx & Hseats & Hbook).
  pose proof (seat_of_same svc svc' Hs) as Heq.
  split; [| split].
  - intros id b H. rewrite Hb in H. rewrite Hn. now apply Hidx.
  - intros sid x s H. rewrite Heq in H. rewrite Hb. now apply Hseats.
  - intros id b H. rewrite Hb in H.
    destruct (Hbook id b H) as [Hp Hc].
    split; intros; rewrite Heq; [now apply Hp | now apply Hc].
Qed.

(** A state with no booking and no held seat. *)
Lemma start_consistent (now : Z) (shows : gmap Z Show.t)
    (d c m : option Z) :
  (forall (showId : Z) (sh : Show.t) (s : ShowSeat.t),
      shows !! showId = Some sh ->
      s ∈ Show.showSeats_ sh ->
      ShowSeat.status_ s = AVAILABLE \/ ShowSeat.status_ s = MAINTENANCE) ->
  svc_consistent now (BookingService_new ∅ shows d c m).
Proof.
  intros Hfree. split; [| split].
  - intros id b H. cbn in H. now rewrite lookup_empty in H.
  - intros sid x s H. unfold seat_of in H. cbn in H.
    destruct (shows !! sid) as [sh |] eqn:Hsh; [| discriminate].
    assert (s ∈ Show.showSeats_ sh) as Hin.
    { unfold Show.getShowSeatById in H. clear Hsh.
      induction (Show.showSeats_ sh) as [| y l IH]; simpl in H; [discriminate |].
      destruct (ShowSeat.seatId_ y =? x).
      - injection H as ->. apply list_elem_of_here.
      - apply list_elem_of_further. now apply IH. }
    destruct (Hfree sid sh s Hsh Hin) as [-> | ->]; split; discriminate.
  - intros id b H. cbn in H. now rewrite lookup_empty in H.
Qed.

(** The effect of a successful [initiateBooking]: a new PENDING booking
    under the next id, its seats locked to it. *)
Lemma consistent_add_booking (now dur : Z) (svc svc' : BookingService)
    (b : Booking.t) (sh : Show.t) (seats' : list ShowSeat.t) :
  svc_consistent now svc ->
  Booking.id_ b = nextBookingId_ svc ->
  Booking.bookingStatus_ b = BookingStatus.PENDING ->
  NoDup (Booking.bookingSeats_ b) ->
  Booking.expiresAt_ b = now + minutes dur ->
  bookingRepository_ svc' = <[Booking.id_ b := b]> (bookingRepository_ svc) ->
  nextBookingId_ svc' = nextBookingId_ svc + 1 ->
  showRepository_ svc !! Booking.showId_ b = Some sh ->
  showRepository_ svc'
  = <[Booking.showId_ b := Show.with_seats seats' sh]> (showRepository_ svc) ->
  (forall x, x ∈ Booking.bookingSeats_ b ->
     exists s, Show.find_seat x (Show.showSeats_ sh) = Some s
               /\ ShowSeat.isAvailable now s = true) ->
  (forall x, x ∈ Booking.bookingSeats_ b ->
     Show.find_seat x seats'
     = locked_to now (Booking.id_ b) dur <$> Show.find_seat x (Show.showSeats_ sh)) ->
  (forall x, x ∉ Booking.bookingSeats_ b ->
     Show.find_seat x seats' = Show.find_seat x (Show.showSeats_ sh)) ->
  svc_consistent now svc'.
Proof.
  intros (Hidx & Hseats & Hbook) Hid Hst Hnd Hexp Hbk Hnext Hsh Hsh' Hav Hin Hout.
  pose proof (seat_of_insert svc svc' _ _ Hsh') as Hseat.
  assert (forall x, seat_of svc (Booking.showId_ b) x
                    = Show.find_seat x (Show.showSeats_ sh)) as Hold
    by (intros x; unfold seat_of; now rewrite Hsh).
  assert (forall id0 b0, bookingRepository_ svc !! id0 = Some b0 ->
            id0 <> Booking.id_ b) as Hfresh.
  { intros id0 b0 H0. destruct (Hidx id0 b0 H0) as (_ & Hlt & _). lia. }
  split; [| split].
  - intros id0 b0 H0. rewrite Hbk in H0. rewrite Hnext.
    apply lookup_insert_Some in H0 as [[<- <-] | [Hne H0]].
    + split; [reflexivity |]. split; [lia | exact Hnd].
    + destruct (Hidx id0 b0 H0) as (H1 & H2 & H3).
      split; [exact H1 |]. split; [lia | exact H3].
  - intros sid x s' Hs'. rewrite Hseat in Hs'. rewrite Hbk.
    destruct (decide (sid = Booking.showId_ b)) as [-> | Hsid];
      [destruct (decide (x ∈ Booking.bookingSeats_ b)) as [Hx | Hx] |].
    + unfold Show.getShowSeatById in Hs'. cbn in Hs'. rewrite (Hin x Hx) in Hs'.
      destruct (Hav x Hx) as (s & Hs & Havail). rewrite Hs in Hs'. cbn in Hs'.
      injection Hs' as <-.
      destruct (lockSeat_available now (Booking.id_ b) dur s Havail)
        as (_ & H1 & H2 & H3 & _).
      split; [| rewrite H1; discriminate].
      intros _. exists b. rewrite H2, lookup_insert_eq.
      repeat split; [exact Hst | exact Hx | now rewrite H3, Hexp].
    + unfold Show.getShowSeatById in Hs'. cbn in Hs'. rewrite (Hout x Hx) in Hs'.
      rewrite <- Hold in Hs'.
      destruct (Hseats _ _ _ Hs') as [HL HB].
      split; intros Hstat;
        [destruct (HL Hstat) as (b0 & H0 & Hrest)
        | destruct (HB Hstat) as (b0 & H0 & Hrest)];
        exists b0; (split; [| exact Hrest]);
        rewrite lookup_insert_ne by (apply not_eq_sym; eapply Hfresh; exact H0);
        exact H0.
    + destruct (Hseats _ _ _ Hs') as [HL HB].
      split; intros Hstat;
        [destruct (HL Hstat) as (b0 & H0 & Hrest)
        | destruct (HB Hstat) as (b0 & H0 & Hrest)];
        exists b0; (split; [| exact Hrest]);
        rewrite lookup_insert_ne by (apply not_eq_sym; eapply Hfresh; exact H0);
        exact H0.
  - intros id0 b0 H0. rewrite Hbk in H0.
    apply lookup_insert_Some in H0 as [[<- <-] | [Hne H0]].
    + split; [| rewrite Hst; discriminate].
      intros _ _ x Hx. rewrite Hseat, decide_True by reflexivity.
      unfold Show.getShowSeatById. cbn. rewrite (Hin x Hx).
      destruct (Hav x Hx) as (s & Hs & Havail). rewrite Hs. cbn.
      destruct (lockSeat_available now (Booking.id_ b) dur s Havail)
        as (_ & H1 & H2 & _).
      eexists. split; [reflexivity |]. now split.
    + (* an older booking in force keeps its seats: none of them was
         lockable, so none is among the seats of the new booking *)
      destruct (Hbook id0 b0 H0) as [Hp Hc].
      assert (forall x s, seat_of svc (Booking.showId_ b0) x = Some s ->
                ShowSeat.isAvailable now s = false ->
                seat_of svc' (Booking.showId_ b0) x = Some s) as Hkeep.
      { intros x s Hs Hna. rewrite Hseat.
        destruct (decide (Booking.showId_ b0 = Booking.showId_ b)) as [Hsame | _];
          [| exact Hs].
        rewrite Hsame, Hold in Hs.
        unfold Show.getShowSeatById. cbn.
        destruct (decide (x ∈ Booking.bookingSeats_ b)) as [Hx | Hx].
        - destruct (Hav x Hx) as (s0 & Hs0 & Havail). congruence.
        - now rewrite (Hout x Hx). }
      split.
      * intros Hst0 Hlive x Hx.
        destruct (Hp Hst0 Hlive x Hx) as (s & Hs & Hstat & Hholder).
        exists s. split; [| now split].
        apply Hkeep; [exact Hs |].
        destruct (Hseats _ _ _ Hs) as [HL _].
        destruct (HL Hstat) as (b1 & H1 & _ & _ & _ & Huntil).
        rewrite Hholder, H0 in H1. injection H1 as <-.
        unfold ShowSeat.isAvailable. rewrite Hstat. apply Z.leb_gt. lia.
      * intros Hst0 x Hx.
        destruct (Hc Hst0 x Hx) as (s & Hs & Hstat & Hholder).
        exists s. split; [| now split].
        apply Hkeep; [exact Hs |].
        unfold ShowSeat.isAvailable. now rewrite Hstat.
Qed.

(** The effect of retiring a booking (cancelled or expired): its row
    becomes terminal, the seats it held are given up, every other held
    seat is untouched. *)
Lemma consistent_retire (now : Z) (svc svc' : BookingService) (id : Z)
    (b b' : Booking.t) :
  svc_consistent now svc ->
  bookingRepository_ svc !! id = Some b ->
  Booking.id_ b' = Booking.id_ b ->
  Booking.bookingSeats_ b' = Booking.bookingSeats_ b ->
  (Booking.bookingStatus_ b' = BookingStatus.CANCELLED
   \/ Booking.bookingStatus_ b' = BookingStatus.EXPIRED) ->
  bookingRepository_ svc' = <[id := b']> (bookingRepository_ svc) ->
  nextBookingId_ svc' = nextBookingId_ svc ->
  (forall sid x s',
      seat_of svc' sid x = Some s' ->
      ShowSeat.status_ s' = LOCKED \/ ShowSeat.status_ s' = BOOKED ->
      seat_of svc sid x = Some s' /\ ShowSeat.bookingId_ s' <> id) ->
  (forall sid x s,
      seat_of svc sid x = Some s ->
      ShowSeat.status_ s = LOCKED \/ ShowSeat.status_ s = BOOKED ->
      ShowSeat.bookingId_ s <> id ->
      seat_of svc' sid x = Some s) ->
  svc_consistent now svc'.
Proof.
  intros (Hidx & Hseats & Hbook) Hb Hid' Hseats' Hterm Hbk Hnext H1 H2.
  split; [| split].
  - intros id0 b0 H0. rewrite Hbk in H0. rewrite Hnext.
    apply lookup_insert_Some in H0 as [[<- <-] | [Hne H0]]; [| now apply Hidx].
    destruct (Hidx _ _ Hb) as (Hid & Hlt & Hnd).
    split; [congruence |]. split; [exact Hlt | now rewrite Hseats'].
  - intros sid x s' Hs'. rewrite Hbk.
    split; intros Hstat.
    + destruct (H1 sid x s' Hs' (or_introl Hstat)) as [Hold Hne].
      destruct (Hseats _ _ _ Hold) as [HL _].
      destruct (HL Hstat) as (b0 & H0 & Hrest).
      exists b0. split; [| exact Hrest].
      now rewrite lookup_insert_ne by congruence.
    + destruct (H1 sid x s' Hs' (or_intror Hstat)) as [Hold Hne].
      destruct (Hseats _ _ _ Hold) as [_ HB].
      destruct (HB Hstat) as (b0 & H0 & Hrest).
      exists b0. split; [| exact Hrest].
      now rewrite lookup_insert_ne by congruence.
  - intros id0 b0 H0. rewrite Hbk in H0.
    apply lookup_insert_Some in H0 as [[<- <-] | [Hne H0]].
    + split; intros Hst; destruct Hterm as [Ht | Ht]; rewrite Ht in Hst;
        discriminate Hst.
    + destruct (Hbook id0 b0 H0) as [Hp Hc]. split.
      * intros Hst Hlive x Hx.
        destruct (Hp Hst Hlive x Hx) as (s & Hs & Hstat & Hholder).
        exists s. split; [| now split].
        apply H2; [exact Hs | now left | congruence].
      * intros Hst x Hx.
        destruct (Hc Hst x Hx) as (s & Hs & Hstat & Hholder).
        exists s. split; [| now split].
        apply H2; [exact Hs | now right | congruence].
Qed.

(** The seat rows after the locks of a PENDING booking are released. *)
Lemma release_locked_rows (svc svc' : BookingService) (id : Z)
    (b : Booking.t) (sh : Show.t) :
  seats_held_by_bookings svc ->
  bookingRepository_ svc !! id = Some b ->
  Booking.bookingStatus_ b = BookingStatus.PENDING ->
  showRepository_ svc !! Booking.showId_ b = Some sh ->
  showRepository_ svc'
  = <[Booking.showId_ b := snd (Show.releaseLockedSeats id sh)]>
      (showRepository_ svc) ->
  (forall sid x s',
      seat_of svc' sid x = Some s' ->
      ShowSeat.status_ s' = LOCKED \/ ShowSeat.status_ s' = BOOKED ->
      seat_of svc sid x = Some s' /\ ShowSeat.bookingId_ s' <> id)
  /\ (forall sid x s,
        seat_of svc sid x = Some s ->
        ShowSeat.status_ s = LOCKED \/ ShowSeat.status_ s = BOOKED ->
        ShowSeat.bookingId_ s <> id ->
        seat_of svc' sid x = Some s).
Proof.
  intros Hseats Hb Hst Hsh Hsh'.
  pose proof (seat_of_insert svc svc' _ _ Hsh') as Hseat.
  assert (forall x, seat_of svc (Booking.showId_ b) x
                    = Show.find_seat x (Show.showSeats_ sh)) as Hold
    by (intros x; unfold seat_of; now rewrite Hsh).
  assert (forall x,
            Show.getShowSeatById x (snd (Show.releaseLockedSeats id sh))
            = (fun s => if Show.held_locked id s
                        then snd (ShowSeat.releaseLock s) else s)
                <$> Show.find_seat x (Show.showSeats_ sh)) as Hnew.
  { intros x. unfold Show.getShowSeatById, Show.releaseLockedSeats. cbn.
    apply find_seat_map. intros s0. apply release_keeps_seat_id. }
  assert (forall sid x s,
            seat_of svc sid x = Some s ->
            ShowSeat.status_ s = LOCKED \/ ShowSeat.status_ s = BOOKED ->
            ShowSeat.bookingId_ s = id ->
            sid = Booking.showId_ b /\ ShowSeat.status_ s = LOCKED) as Hmine.
  { intros sid x s Hs Hstat Hholder.
    destruct (Hseats _ _ _ Hs) as [HL HB]. destruct Hstat as [Hstat | Hstat].
    - destruct (HL Hstat) as (b0 & H0 & _ & Hshow & _).
      rewrite Hholder, Hb in H0. injection H0 as <-. now split.
    - destruct (HB Hstat) as (b0 & H0 & Hconf & _).
      rewrite Hholder, Hb in H0. injection H0 as <-. congruence. }
  split.
  - intros sid x s' Hs' Hstat. rewrite Hseat in Hs'.
    destruct (decide (sid = Booking.showId_ b)) as [-> | Hsid].
    + rewrite Hnew in Hs'. rewrite Hold.
      destruct (Show.find_seat x (Show.showSeats_ sh)) as [s |] eqn:Hs;
        [| discriminate]. cbn in Hs'. injection Hs' as <-.
      unfold Show.held_locked in *.
      destruct (bool_decide_reflect (ShowSeat.status_ s = LOCKED)) as [HL | HL];
        cbn [andb] in *.
      * destruct (Z.eqb_spec (ShowSeat.bookingId_ s) id) as [Heq | Hne].
        -- exfalso. unfold ShowSeat.releaseLock in Hstat. rewrite HL in Hstat.
           cbn in Hstat. destruct Hstat; discriminate.
        -- now split.
      * split; [reflexivity |]. intros Heq.
        assert (seat_of svc (Booking.showId_ b) x = Some s) as Hs0
          by now rewrite Hold.
        destruct (Hmine _ _ _ Hs0 Hstat Heq) as [_ Hlocked]. contradiction.
    + split; [exact Hs' |]. intros Heq.
      destruct (Hmine _ _ _ Hs' Hstat Heq) as [Hshow _]. contradiction.
  - intros sid x s Hs Hstat Hne. rewrite Hseat.
    destruct (decide (sid = Booking.showId_ b)) as [-> | Hsid]; [| exact Hs].
    rewrite Hnew. rewrite Hold in Hs. rewrite Hs. cbn.
    unfold Show.held_locked.
    destruct (Z.eqb_spec (ShowSeat.bookingId_ s) id) as [Heq | _];
      [contradiction |].
    now rewrite andb_false_r.
Qed.

Lemma releaseBooked_keeps_seat_id (bookingId : Z) (s : ShowSeat.t) :
  ShowSeat.seatId_
    (if Show.held_booked bookingId s then ShowSeat.releaseBooked s else s)
  = ShowSeat.seatId_ s.
Proof. now destruct (Show.held_booked bookingId s). Qed.

(** The seat rows after the seats of a CONFIRMED booking are released. *)
Lemma release_booked_rows (svc svc' : BookingService) (id : Z)
    (b : Booking.t) (sh : Show.t) :
  seats_held_by_bookings svc ->
  bookingRepository_ svc !! id = Some b ->
  Booking.bookingStatus_ b = BookingStatus.CONFIRMED ->
  showRepository_ svc !! Booking.showId_ b = Some sh ->
  showRepository_ svc'
  = <[Booking.showId_ b := Show.releaseBookedSeats id sh]>
      (showRepository_ svc) ->
  (forall sid x s',
      seat_of svc' sid x = Some s' ->
      ShowSeat.status_ s' = LOCKED \/ ShowSeat.status_ s' = BOOKED ->
      seat_of svc sid x = Some s' /\ ShowSeat.bookingId_ s' <> id)
  /\ (forall sid x s,
        seat_of svc sid x = Some s ->
        ShowSeat.status_ s = LOCKED \/ ShowSeat.status_ s = BOOKED ->
        ShowSeat.bookingId_ s <> id ->
        seat_of svc' sid x = Some s).
Proof.
  intros Hseats Hb Hst Hsh Hsh'.
  pose proof (seat_of_insert svc svc' _ _ Hsh') as Hseat.
  assert (forall x, seat_of svc (Booking.showId_ b) x
                    = Show.find_seat x (Show.showSeats_ sh)) as Hold
    by (intros x; unfold seat_of; now rewrite Hsh).
  assert (forall x,
            Show.getShowSeatById x (Show.releaseBookedSeats id sh)
            = (fun s => if Show.held_booked id s
                        then ShowSeat.releaseBooked s else s)
                <$> Show.find_seat x (Show.showSeats_ sh)) as Hnew.
  { intros x. unfold Show.getShowSeatById, Show.releaseBookedSeats. cbn.
    apply find_seat_map. intros s0. apply releaseBooked_keeps_seat_id. }
  assert (forall sid x s,
            seat_of svc sid x = Some s ->
            ShowSeat.status_ s = LOCKED \/ ShowSeat.status_ s = BOOKED ->
            ShowSeat.bookingId_ s = id ->
            sid = Booking.showId_ b /\ ShowSeat.status_ s = BOOKED) as Hmine.
  { intros sid x s Hs Hstat Hholder.
    destruct (Hseats _ _ _ Hs) as [HL HB]. destruct Hstat as [Hstat | Hstat].
    - destruct (HL Hstat) as (b0 & H0 & Hpend & _).
      rewrite Hholder, Hb in H0. injection H0 as <-. congruence.
    - destruct (HB Hstat) as (b0 & H0 & _ & Hshow & _).
      rewrite Hholder, Hb in H0. injection H0 as <-. now split. }
  split.
  - intros sid x s' Hs' Hstat. rewrite Hseat in Hs'.
    destruct (decide (sid = Booking.showId_ b)) as [-> | Hsid].
    + rewrite Hnew in Hs'. rewrite Hold.
      destruct (Show.find_seat x (Show.showSeats_ sh)) as [s |] eqn:Hs;
        [| discriminate]. cbn in Hs'. injection Hs' as <-.
      unfold Show.held_booked in *.
      destruct (bool_decide_reflect (ShowSeat.status_ s = BOOKED)) as [HB | HB];
        cbn [andb] in *.
      * destruct (Z.eqb_spec (ShowSeat.bookingId_ s) id) as [Heq | Hne].
        -- exfalso. cbn in Hstat. destruct Hstat; discriminate.
        -- now split.
      * split; [reflexivity |]. intros Heq.
        assert (seat_of svc (Booking.showId_ b) x = Some s) as Hs0
          by now rewrite Hold.
        destruct (Hmine _ _ _ Hs0 Hstat Heq) as [_ Hbooked]. contradiction.
    + split; [exact Hs' |]. intros Heq.
      destruct (Hmine _ _ _ Hs' Hstat Heq) as [Hshow _]. contradiction.
  - intros sid x s Hs Hstat Hne. rewrite Hseat.
    destruct (decide (sid = Booking.showId_ b)) as [-> | Hsid]; [| exact Hs].
    rewrite Hnew. rewrite Hold in Hs. rewrite Hs. cbn.
    unfold Show.held_booked.
    destruct (Z.eqb_spec (ShowSeat.bookingId_ s) id) as [Heq | _];
      [contradiction |].
    now rewrite andb_false_r.
Qed.

Lemma cancelBooking_consistent (now bookingId userId : Z) (svc : BookingService) :
  svc_consistent now svc ->
  svc_consistent now (snd (cancelBooking now bookingId userId svc)).
Proof.
  intros Hinv. unfold cancelBooking.
  destruct (isUserAuthorized bookingId userId svc); cbn [negb]; [| exact Hinv].
  destruct (bookingRepository_ svc !! bookingId) as [b |] eqn:Hb; [| exact Hinv].
  destruct (showRepository_ svc !! Booking.showId_ b) as [sh |] eqn:Hsh;
    [| exact Hinv].
  pose proof Hinv as (_ & Hseats & _).
  destruct (Booking.bookingStatus_ b) eqn:Hst; try exact Hinv.
  - cbn [snd].
    match goal with |- svc_consistent _ ?S => set (svc' := S) end.
    destruct (release_locked_rows svc svc' bookingId b sh) as [H1 H2];
      [exact Hseats | exact Hb | exact Hst | exact Hsh | reflexivity |].
    apply (consistent_retire now svc svc' bookingId b
             (Booking.with_states now BookingStatus.CANCELLED
                (Booking.paymentStatus_ b) b));
      [exact Hinv | exact Hb | reflexivity | reflexivity | now left
      | reflexivity | reflexivity | exact H1 | exact H2].
  - destruct (now + cancelGraceBeforeShow_ svc <? Show.getStartTime sh);
      [| exact Hinv].
    cbn [snd].
    match goal with |- svc_consistent _ ?S => set (svc' := S) end.
    destruct (release_booked_rows svc svc' bookingId b sh) as [H1 H2];
      [exact Hseats | exact Hb | exact Hst | exact Hsh | reflexivity |].
    apply (consistent_retire now svc svc' bookingId b
             (Booking.with_states now BookingStatus.CANCELLED
                PaymentStatus.REFUNDED b));
      [exact Hinv | exact Hb | reflexivity | reflexivity | now left
      | reflexivity | reflexivity | exact H1 | exact H2].
Qed.

Lemma releaseExpiredBooking_consistent (now bookingId : Z) (svc : BookingService) :
  svc_consistent now svc ->
  svc_consistent now (snd (releaseExpiredBooking now bookingId svc)).
Proof.
  intros Hinv. unfold releaseExpiredBooking.
  destruct (bookingRepository_ svc !! bookingId) as [b |] eqn:Hb; [| exact Hinv].
  destruct (bool_decide_reflect
              (Booking.bookingStatus_ b = BookingStatus.PENDING)) as [Hst | Hst];
    cbn [andb]; [| exact Hinv].
  destruct (Booking.expiresAt_ b <=? now); [| exact Hinv].
  cbn [snd].
  pose proof Hinv as (_ & Hseats & _).
  destruct (showRepository_ svc !! Booking.showId_ b) as [sh |] eqn:Hsh.
  - match goal with |- svc_consistent _ ?S => set (svc' := S) end.
    destruct (release_locked_rows svc svc' bookingId b sh) as [H1 H2];
      [exact Hseats | exact Hb | exact Hst | exact Hsh | reflexivity |].
    apply (consistent_retire now svc svc' bookingId b
             (Booking.with_states now BookingStatus.EXPIRED
                (Booking.paymentStatus_ b) b));
      [exact Hinv | exact Hb | reflexivity | reflexivity | now right
      | reflexivity | reflexivity | exact H1 | exact H2].
  - match goal with |- svc_consistent _ ?S => set (svc' := S) end.
    apply (consistent_retire now svc svc' bookingId b
             (Booking.with_states now BookingStatus.EXPIRED
                (Booking.paymentStatus_ b) b));
      [exact Hinv | exact Hb | reflexivity | reflexivity | now right
      | reflexivity | reflexivity | |].
    + intros sid x s' Hs' Hstat. split; [exact Hs' |]. intros Heq.
      change (seat_of svc' sid x) with (seat_of svc sid x) in Hs'.
      destruct (Hseats _ _ _ Hs') as [HL HB]. destruct Hstat as [Hstat | Hstat].
      * destruct (HL Hstat) as (b0 & H0 & _ & Hshow & _).
        rewrite Heq, Hb in H0. injection H0 as <-.
        unfold seat_of in Hs'. rewrite <- Hshow, Hsh in Hs'. discriminate.
      * destruct (HB Hstat) as (b0 & H0 & Hconf & _).
        rewrite Heq, Hb in H0. injection H0 as <-. congruence.
    + intros sid x s Hs _ _. exact Hs.
Qed.

Lemma processExpiredBookings_consistent (now : Z) (svc : BookingService) :
  svc_consistent now svc ->
  svc_consistent now (processExpiredBookings now svc).
Proof.
  unfold processExpiredBookings.
  generalize (map fst (map_to_list (bookingRepository_ svc))). intros ids.
  revert svc. induction ids as [| id ids IH]; intros svc Hinv; [exact Hinv |].
  simpl. apply IH. now apply releaseExpiredBooking_consistent.
Qed.

Lemma bookSeat_held (bookingId : Z) (s : ShowSeat.t) :
  ShowSeat.status_ s = LOCKED ->
  ShowSeat.bookingId_ s = bookingId ->
  fst (ShowSeat.bookSeat bookingId s) = true
  /\ ShowSeat.status_ (snd (ShowSeat.bookSeat bookingId s)) = BOOKED
  /\ ShowSeat.bookingId_ (snd (ShowSeat.bookSeat bookingId s)) = bookingId
  /\ ShowSeat.seatId_ (snd (ShowSeat.bookSeat bookingId s)) = ShowSeat.seatId_ s.
Proof.
  intros Hst Hb. unfold ShowSeat.bookSeat.
  rewrite (bool_decide_eq_true_2 _ Hst), Hb, Z.eqb_refl. cbn.
  now repeat split.
Qed.

(** With distinct seat ids that all name seats LOCKED to the booking, the
    conditional updates of [book_each] all apply. *)
Lemma book_each_succeeds (bookingId : Z) (seatIds : list Z) :
  forall seats : list ShowSeat.t,
    NoDup seatIds ->
    (forall x, x ∈ seatIds ->
       exists s, Show.find_seat x seats = Some s
                 /\ ShowSeat.status_ s = LOCKED
                 /\ ShowSeat.bookingId_ s = bookingId) ->
    exists seats',
      Show.book_each bookingId seatIds seats = (true, seats')
      /\ (forall x, x ∈ seatIds ->
            exists s', Show.find_seat x seats' = Some s'
                       /\ ShowSeat.status_ s' = BOOKED
                       /\ ShowSeat.bookingId_ s' = bookingId)
      /\ (forall x, x ∉ seatIds ->
            Show.find_seat x seats' = Show.find_seat x seats).
Proof.
  induction seatIds as [| sid rest IH]; intros seats Hnd Hheld.
  - exists seats. split; [reflexivity |]. split; [| reflexivity].
    intros x Hx. now apply elem_of_nil in Hx.
  - apply NoDup_cons in Hnd as [Hnotin Hnd].
    destruct (Hheld sid) as (s & Hfind & Hst & Hb); [apply list_elem_of_here |].
    destruct (bookSeat_held bookingId s Hst Hb) as (Hok & Hst' & Hb' & Hid').
    pose proof (find_seat_id _ _ _ Hfind) as Hsid.
    assert (forall x,
               Show.find_seat x
                 (Show.update_seat sid
                    (fun _ => snd (ShowSeat.bookSeat bookingId s)) seats)
               = if x =? sid
                 then Some (snd (ShowSeat.bookSeat bookingId s))
                 else Show.find_seat x seats) as Hupd.
    { intros x. rewrite find_seat_update by (intros; congruence).
      now rewrite Hfind. }
    destruct (IH (Show.update_seat sid
                    (fun _ => snd (ShowSeat.bookSeat bookingId s)) seats) Hnd)
      as (seats' & Hrun & Hin & Hout).
    { intros x Hx. rewrite Hupd.
      replace (x =? sid) with false
        by (symmetry; apply Z.eqb_neq; intros ->; contradiction).
      apply Hheld. now apply list_elem_of_further. }
    exists seats'. split; [| split].
    + simpl. rewrite Hfind.
      destruct (ShowSeat.bookSeat bookingId s) as [ok s'] eqn:Hbook.
      cbn in Hok. subst ok. exact Hrun.
    + intros x Hx. apply elem_of_cons in Hx as [-> | Hx].
      * rewrite (Hout sid Hnotin), Hupd, Z.eqb_refl. eauto.
      * now apply Hin.
    + intros x Hx. apply not_elem_of_cons in Hx as [Hne Hx].
      rewrite (Hout x Hx), Hupd.
      now replace (x =? sid) with false
        by (symmetry; apply Z.eqb_neq; exact Hne).
Qed.

(** The effect of a successful [confirmBooking]: the booking becomes
    CONFIRMED and its seats, which it held LOCKED, are BOOKED to it. *)
Lemma consistent_confirm (now : Z) (svc svc' : BookingService) (id : Z)
    (b b' : Booking.t) (sh : Show.t) (seats' : list ShowSeat.t) :
  svc_consistent now svc ->
  bookingRepository_ svc !! id = Some b ->
  Booking.bookingStatus_ b = BookingStatus.PENDING ->
  now < Booking.expiresAt_ b ->
  Booking.id_ b' = Booking.id_ b ->
  Booking.showId_ b' = Booking.showId_ b ->
  Booking.bookingSeats_ b' = Booking.bookingSeats_ b ->
  Booking.bookingStatus_ b' = BookingStatus.CONFIRMED ->
  bookingRepository_ svc' = <[id := b']> (bookingRepository_ svc) ->
  nextBookingId_ svc' = nextBookingId_ svc ->
  showRepository_ svc !! Booking.showId_ b = Some sh ->
  showRepository_ svc'
  = <[Booking.showId_ b := Show.with_seats seats' sh]> (showRepository_ svc) ->
  (forall x, x ∈ Booking.bookingSeats_ b ->
     exists s', Show.find_seat x seats' = Some s'
                /\ ShowSeat.status_ s' = BOOKED
                /\ ShowSeat.bookingId_ s' = id) ->
  (forall x, x ∉ Booking.bookingSeats_ b ->
     Show.find_seat x seats' = Show.find_seat x (Show.showSeats_ sh)) ->
  svc_consistent now svc'.
Proof.
  intros (Hidx & Hseats & Hbook) Hb Hst Hlive Hid' Hshow' Hseats' Hst' Hbk
    Hnext Hsh Hsh' Hin Hout.
  pose proof (seat_of_insert svc svc' _ _ Hsh') as Hseat.
  assert (forall x, seat_of svc (Booking.showId_ b) x
                    = Show.find_seat x (Show.showSeats_ sh)) as Hold
    by (intros x; unfold seat_of; now rewrite Hsh).
  destruct (Hbook id b Hb) as [Hmine _].
  specialize (Hmine Hst Hlive).
  (* a seat outside the booking keeps its row *)
  assert (forall sid x,
            ~ (sid = Booking.showId_ b /\ x ∈ Booking.bookingSeats_ b) ->
            seat_of svc' sid x = seat_of svc sid x) as Hkeep.
  { intros sid x Hnot. rewrite Hseat.
    destruct (decide (sid = Booking.showId_ b)) as [-> | _]; [| reflexivity].
    rewrite Hold. unfold Show.getShowSeatById. cbn.
    apply Hout. intros Hx. apply Hnot. now split. }
  split; [| split].
  - intros id0 b0 H0. rewrite Hbk in H0. rewrite Hnext.
    apply lookup_insert_Some in H0 as [[<- <-] | [Hne H0]]; [| now apply Hidx].
    destruct (Hidx _ _ Hb) as (Hid & Hlt & Hnd).
    split; [congruence |]. split; [exact Hlt | now rewrite Hseats'].
  - intros sid x s' Hs'. rewrite Hbk.
    destruct (decide (sid = Booking.showId_ b /\ x ∈ Booking.bookingSeats_ b))
      as [[-> Hx] | Hnot].
    + rewrite Hseat, decide_True in Hs' by reflexivity.
      unfold Show.getShowSeatById in Hs'. cbn in Hs'.
      destruct (Hin x Hx) as (s1 & Hs1 & Hstat & Hholder).
      rewrite Hs1 in Hs'. injection Hs' as <-.
      split; [rewrite Hstat; discriminate |].
      intros _. exists b'. rewrite Hholder, lookup_insert_eq.
      split; [reflexivity |]. split; [exact Hst' |].
      split; [exact Hshow' | now rewrite Hseats'].
    + rewrite (Hkeep _ _ Hnot) in Hs'.
      destruct (Hseats _ _ _ Hs') as [HL HB].
      split; intros Hstat.
      * destruct (HL Hstat) as (b0 & H0 & Hp & Hshow0 & Hx0 & Hu).
        exists b0. split; [| now repeat split].
        rewrite lookup_insert_ne; [exact H0 |].
        intros Heq. rewrite <- Heq, Hb in H0. injection H0 as <-.
        apply Hnot. now split.
      * destruct (HB Hstat) as (b0 & H0 & Hc & Hrest).
        exists b0. split; [| now split].
        rewrite lookup_insert_ne; [exact H0 |].
        intros Heq. rewrite <- Heq, Hb in H0. injection H0 as <-. congruence.
  - intros id0 b0 H0. rewrite Hbk in H0.
    apply lookup_insert_Some in H0 as [[<- <-] | [Hne H0]].
    + split; [rewrite Hst'; discriminate |].
      intros _ x Hx. rewrite Hseats' in Hx. rewrite Hshow'.
      rewrite Hseat, decide_True by reflexivity.
      unfold Show.getShowSeatById. cbn. now apply Hin.
    + destruct (Hbook id0 b0 H0) as [Hp Hc].
      assert (forall x s,
                seat_of svc (Booking.showId_ b0) x = Some s ->
                ShowSeat.status_ s <> LOCKED
                \/ ShowSeat.bookingId_ s <> id ->
                seat_of svc' (Booking.showId_ b0) x = Some s) as Hother.
      { intros x s Hs Hdiff. rewrite Hkeep; [exact Hs |].
        intros [Hsame Hx]. rewrite Hsame in Hs.
        destruct (Hmine x Hx) as (s1 & Hs1 & Hstat1 & Hholder1).
        rewrite Hs in Hs1. injection Hs1 as <-. destruct Hdiff; contradiction. }
      split.
      * intros Hst0 Hlive0 x Hx.
        destruct (Hp Hst0 Hlive0 x Hx) as (s & Hs & Hstat & Hholder).
        exists s. split; [| now split].
        apply Hother; [exact Hs |]. right. congruence.
      * intros Hst0 x Hx.
        destruct (Hc Hst0 x Hx) as (s & Hs & Hstat & Hholder).
        exists s. split; [| now split].
        apply Hother; [exact Hs |]. left. rewrite Hstat. discriminate.
Qed.

Lemma confirmBooking_consistent (now bookingId : Z) (paymentId : string)
    (svc : BookingService) :
  svc_consistent now svc ->
  svc_consistent now (snd (confirmBooking now bookingId paymentId svc)).
Proof.
  intros Hinv. unfold confirmBooking.
  destruct (bookingRepository_ svc !! bookingId) as [b |] eqn:Hb; [| exact Hinv].
  destruct (Booking.bookingStatus_ b) eqn:Hst; try exact Hinv.
  destruct (Z.leb_spec (Booking.expiresAt_ b) now) as [_ | Hlive];
    [exact Hinv |].
  destruct (showRepository_ svc !! Booking.showId_ b) as [sh |] eqn:Hsh;
    [| exact Hinv].
  pose proof Hinv as (Hidx & _ & Hbook).
  destruct (Hidx _ _ Hb) as (_ & _ & Hnd).
  destruct (Hbook _ _ Hb) as [Hmine _]. specialize (Hmine Hst Hlive).
  destruct (book_each_succeeds bookingId (Booking.bookingSeats_ b)
              (Show.showSeats_ sh) Hnd) as (seats' & Hrun & Hin & Hout).
  { intros x Hx. destruct (Hmine x Hx) as (s & Hs & Hstat & Hholder).
    exists s. unfold seat_of in Hs. rewrite Hsh in Hs. now split. }
  unfold Show.bookSeats, Booking.getShowSeatIds. rewrite Hrun. cbn [snd].
  match goal with |- svc_consistent _ ?S => set (svc' := S) end.
  apply (consistent_confirm now svc svc' bookingId b
           (Booking.with_payment paymentId
              (Booking.with_states now BookingStatus.CONFIRMED
                 PaymentStatus.COMPLETED b)) sh seats');
    [exact Hinv | exact Hb | exact Hst | exact Hlive | reflexivity
    | reflexivity | reflexivity | reflexivity | reflexivity | reflexivity
    | exact Hsh | reflexivity | exact Hin | exact Hout].
Qed.

Lemma release_lapsed_keeps_seat_id (now : Z) (s : ShowSeat.t) :
  ShowSeat.seatId_
    (if Show.lock_lapsed now s then snd (ShowSeat.releaseLock s) else s)
  = ShowSeat.seatId_ s.
Proof.
  destruct (Show.lock_lapsed now s); [| reflexivity].
  apply releaseLock_seat_id.
Qed.

Lemma processExpiredLocks_consistent (now : Z) (svc : BookingService) :
  svc_consistent now svc ->
  svc_consistent now (processExpiredLocks now svc).
Proof.
  intros (Hidx & Hseats & Hbook).
  assert (forall sid x,
            seat_of (processExpiredLocks now svc) sid x
            = (fun s => if Show.lock_lapsed now s
                        then snd (ShowSeat.releaseLock s) else s)
                <$> seat_of svc sid x) as Hseat.
  { intros sid x. unfold seat_of, processExpiredLocks. cbn.
    rewrite lookup_fmap.
    destruct (showRepository_ svc !! sid) as [sh |]; [| reflexivity]. cbn.
    unfold Show.getShowSeatById, Show.releaseExpiredLocks. cbn.
    apply find_seat_map. intros s0. apply release_lapsed_keeps_seat_id. }
  split; [exact Hidx |]. split.
  - intros sid x s' Hs'. rewrite Hseat in Hs'.
    destruct (seat_of svc sid x) as [s |] eqn:Hs; [| discriminate].
    cbn in Hs'. injection Hs' as <-.
    destruct (Show.lock_lapsed now s) eqn:Hlapsed.
    + unfold Show.lock_lapsed in Hlapsed.
      apply andb_true_iff in Hlapsed as [HL _].
      apply bool_decide_eq_true in HL.
      unfold ShowSeat.releaseLock. rewrite HL. cbn. split; discriminate.
    + now apply (Hseats sid x).
  - intros id b Hb. destruct (Hbook id b Hb) as [Hp Hc]. split.
    + intros Hst Hlive x Hx.
      destruct (Hp Hst Hlive x Hx) as (s & Hs & Hstat & Hholder).
      exists s. rewrite Hseat, Hs. cbn. split; [| now split].
      destruct (Hseats _ _ _ Hs) as [HL _].
      destruct (HL Hstat) as (b0 & H0 & _ & _ & _ & Huntil).
      rewrite Hholder in H0. cbn in Hb. rewrite Hb in H0. injection H0 as <-.
      unfold Show.lock_lapsed.
      replace (ShowSeat.lockedUntil_ s <=? now) with false
        by (symmetry; apply Z.leb_gt; lia).
      now rewrite andb_false_r.
    + intros Hst x Hx.
      destruct (Hc Hst x Hx) as (s & Hs & Hstat & Hholder).
      exists s. rewrite Hseat, Hs. cbn. split; [| now split].
      unfold Show.lock_lapsed. rewrite Hstat. reflexivity.
Qed.

Lemma initiateBooking_outcome (now : Z) (req : SeatSelectionRequest)
    (svc : BookingService) :
  snd (initiateBooking now req svc) = svc
  \/ exists (sh : Show.t) (seats : list ShowSeat.t),
       showRepository_ svc !! showId req = Some sh
       /\ validateSeatSelection now req sh = true
       /\ load_seats (seatIds req) sh = Some seats
       /\ unavailable_seat_ids now seats = [].
Proof.
  unfold initiateBooking, processBookingRequest.
  destruct (showRepository_ svc !! showId req) as [sh |] eqn:Hshow;
    [| now left].
  destruct (validateSeatSelection now req sh) eqn:Hval; [| now left].
  destruct (load_seats (seatIds req) sh) as [seats |] eqn:Hload; [| now left].
  destruct (unavailable_seat_ids now seats) as [| x failed] eqn:Hun;
    [| now left].
  right. now exists sh, seats.
Qed.

Lemma initiateBooking_consistent (now : Z) (req : SeatSelectionRequest)
    (svc : BookingService) :
  svc_consistent now svc ->
  svc_consistent now (snd (initiateBooking now req svc)).
Proof.
  intros Hinv.
  destruct (initiateBooking_outcome now req svc)
    as [-> | (sh & seats & Hshow & Hval & Hload & Hun)]; [exact Hinv |].
  pose proof (processBookingRequest_passes now req svc sh seats
                Hshow Hval Hload Hun) as Hav.
  destruct (processBookingRequest_locks now req svc sh seats
              Hshow Hval Hload Hun Hav)
    as (b & seats' & _ & Hid & _ & Hbshow & Hst & Hseats & Hexp & Hbk & Hsh
        & Hin & Hout & Hnext).
  unfold initiateBooking.
  apply (consistent_add_booking now (lockDurationMinutes req) svc _ b sh seats');
    try assumption.
  - rewrite Hseats. now apply (validate_NoDup now req sh).
  - now rewrite Hbshow.
  - now rewrite Hbshow.
  - now rewrite Hseats.
  - now rewrite Hseats.
  - now rewrite Hseats.
Qed.

Lemma svc_reachable_consistent (now : Z) (svc : BookingService) :
  svc_reachable now svc -> svc_consistent now svc.
Proof.
  induction 1 as [now shows d c m Hfree
                 | t now req svc _ IH Hle
                 | t now id pay svc _ IH Hle
                 | t now id user svc _ IH Hle
                 | t now id svc _ IH Hle
                 | t now svc _ IH Hle
                 | t now svc _ IH Hle];
    try (apply (svc_consistent_later t now svc Hle) in IH).
  - now apply start_consistent.
  - now apply initiateBooking_consistent.
  - now apply confirmBooking_consistent.
  - now apply cancelBooking_consistent.
  - now apply releaseExpiredBooking_consistent.
  - now apply processExpiredBookings_consistent.
  - now apply processExpiredLocks_consistent.
Qed.

(** What a call on a seat does to the hold on it. *)
Lemma seat_calls_respect_holder (s : ShowSeat.t) :
  (forall op : SeatOp, fst (apply_op op s) = false -> snd (apply_op op s) = s)
  /\ (forall now b dur : Z,
         held_at now s = true -> apply_op (OpLockSeat now b dur) s = (false, s))
  /\ (forall b b' : Z,
         holds s b = true -> b' <> b -> apply_op (OpBookSeat b') s = (false, s))
  /\ (forall (op : SeatOp) (b : Z),
         (exists now dur : Z, op = OpLockSeat now b dur) \/ op = OpBookSeat b ->
         fst (apply_op op s) = true ->
         forall b' : Z, holds (snd (apply_op op s)) b' = true <-> b' = b).
Proof.
  split; [| split; [| split]].
  - intros [now b dur | b |]; cbn;
      unfold ShowSeat.lockSeat, ShowSeat.bookSeat, ShowSeat.releaseLock.
    + now destruct (ShowSeat.isAvailable now s).
    + now destruct (bool_decide _ && _).
    + now destruct (ShowSeat.status_ s).
  - intros now b dur Hheld. cbn. apply lockSeat_refused.
    unfold held_at in Hheld. unfold ShowSeat.isAvailable.
    destruct (ShowSeat.status_ s); try discriminate; [| reflexivity].
    apply Z.ltb_lt in Hheld. apply Z.leb_gt. lia.
  - intros b b' Hb Hne. cbn. unfold ShowSeat.bookSeat.
    unfold holds in Hb.
    destruct (Z.eqb_spec (ShowSeat.bookingId_ s) b') as [Heq | _];
      [| now rewrite andb_false_r].
    exfalso. destruct (ShowSeat.status_ s); try discriminate; lia.
  - intros op b [(now & dur & ->) | ->] Hok b'; cbn in *.
    + unfold ShowSeat.lockSeat in *.
      destruct (ShowSeat.isAvailable now s); [| discriminate].
      unfold holds. cbn. split; [intros H; lia | intros ->; apply Z.eqb_refl].
    + unfold ShowSeat.bookSeat in *.
      destruct (bool_decide _ && _) eqn:Hg; [| discriminate].
      apply andb_true_iff in Hg as [_ Hb]. apply Z.eqb_eq in Hb.
      unfold holds. cbn. rewrite Hb.
      split; [intros H; lia | intros ->; apply Z.eqb_refl].
Qed.

(** C1.  In every state the service reaches (from shows with no held
    seat, by [initiateBooking], [confirmBooking], [cancelBooking] and the
    passes of the reaper, at non-decreasing times), for every show and
    seat: at most one booking holds the seat in status LOCKED or BOOKED;
    a seat that is LOCKED or BOOKED is held by a booking of the store that
    names it, PENDING for a LOCKED seat and CONFIRMED for a BOOKED one;
    every booking in force (CONFIRMED, or PENDING and not expired) holds
    each seat it names, so two bookings in force never name the same
    seat.  Every sequence of [lockSeat] / [bookSeat] / [releaseLock] calls
    on a seat of the state preserves this: after it at most one booking
    holds the seat, a call that returns false changes nothing, no
    [lockSeat] succeeds while the hold is live and no [bookSeat] succeeds
    for a booking other than the holder, a call that returns true leaves
    its booking the only holder, and the holder changes to another
    booking only when that booking locks a seat whose lock has lapsed. *)
Theorem no_double_booking :
  forall (now : Z) (svc : BookingService),
    svc_reachable now svc ->
    (forall (showId seatId : Z) (b1 b2 : Booking.t),
        booking_holds svc showId seatId b1 ->
        booking_holds svc showId seatId b2 ->
        b1 = b2)
    /\ (forall (showId seatId : Z) (s : ShowSeat.t),
          seat_of svc showId seatId = Some s ->
          ShowSeat.status_ s = LOCKED \/ ShowSeat.status_ s = BOOKED ->
          exists b : Booking.t,
            booking_holds svc showId seatId b
            /\ Booking.id_ b = ShowSeat.bookingId_ s
            /\ (ShowSeat.status_ s = LOCKED ->
                Booking.bookingStatus_ b = BookingStatus.PENDING
                /\ ShowSeat.lockedUntil_ s = Booking.expiresAt_ b)
            /\ (ShowSeat.status_ s = BOOKED ->
                Booking.bookingStatus_ b = BookingStatus.CONFIRMED))
    /\ (forall (id : Z) (b : Booking.t),
          bookingRepository_ svc !! id = Some b ->
          in_force now b = true ->
          forall x : Z, x ∈ Booking.bookingSeats_ b ->
            booking_holds svc (Booking.showId_ b) x b)
    /\ (forall (id1 id2 : Z) (b1 b2 : Booking.t) (x : Z),
          bookingRepository_ svc !! id1 = Some b1 ->
          bookingRepository_ svc !! id2 = Some b2 ->
          in_force now b1 = true ->
          in_force now b2 = true ->
          Booking.showId_ b1 = Booking.showId_ b2 ->
          x ∈ Booking.bookingSeats_ b1 ->
          x ∈ Booking.bookingSeats_ b2 ->
          id1 = id2)
    /\ (forall (showId seatId : Z) (s : ShowSeat.t) (ops : list SeatOp),
          seat_of svc showId seatId = Some s ->
          (forall b1 b2 : Z,
              holds (run_ops ops s) b1 = true ->
              holds (run_ops ops s) b2 = true ->
              b1 = b2)
          /\ (forall op : SeatOp,
                fst (apply_op op (run_ops ops s)) = false ->
                snd (apply_op op (run_ops ops s)) = run_ops ops s)
          /\ (forall t b dur : Z,
                held_at t (run_ops ops s) = true ->
                apply_op (OpLockSeat t b dur) (run_ops ops s)
                = (false, run_ops ops s))
          /\ (forall b b' : Z,
                holds (run_ops ops s) b = true ->
                b' <> b ->
                apply_op (OpBookSeat b') (run_ops ops s)
                = (false, run_ops ops s))
          /\ (forall (op : SeatOp) (b : Z),
                (exists t dur : Z, op = OpLockSeat t b dur)
                \/ op = OpBookSeat b ->
                fst (apply_op op (run_ops ops s)) = true ->
                forall b' : Z,
                  holds (snd (apply_op op (run_ops ops s))) b' = true
                  <-> b' = b)
          /\ (forall (op : SeatOp) (b b' : Z),
                holds (run_ops ops s) b = true ->
                holds (snd (apply_op op (run_ops ops s))) b' = true ->
                b' <> b ->
                exists t dur : Z,
                  op = OpLockSeat t b' dur
                  /\ ShowSeat.status_ (run_ops ops s) = LOCKED
                  /\ ShowSeat.lockedUntil_ (run_ops ops s) <= t)).
Proof.
  intros now svc Hreach.
  destruct (svc_reachable_consistent now svc Hreach) as (Hidx & Hseats & Hbook).
  assert (forall b, bookingRepository_ svc !! Booking.id_ b = Some b ->
            in_force now b = true ->
            forall x, x ∈ Booking.bookingSeats_ b ->
              exists s, seat_of svc (Booking.showId_ b) x = Some s
                        /\ holds s (Booking.id_ b) = true) as Hforce.
  { intros b Hb Hin x Hx. destruct (Hbook _ _ Hb) as [Hp Hc].
    unfold in_force in Hin.
    destruct (Booking.bookingStatus_ b) eqn:Hst; try discriminate.
    - apply Z.ltb_lt in Hin.
      destruct (Hp eq_refl Hin x Hx) as (s & Hs & Hstat & Hholder).
      exists s. split; [exact Hs |]. unfold holds. rewrite Hstat, Hholder.
      apply Z.eqb_refl.
    - destruct (Hc eq_refl x Hx) as (s & Hs & Hstat & Hholder).
      exists s. split; [exact Hs |]. unfold holds. rewrite Hstat, Hholder.
      apply Z.eqb_refl. }
  assert (forall s b1 b2, holds s b1 = true -> holds s b2 = true -> b1 = b2)
    as Hone.
  { intros s b1 b2 H1 H2. unfold holds in H1, H2.
    destruct (ShowSeat.status_ s); try discriminate; lia. }
  split; [| split; [| split; [| split]]].
  - intros sid x b1 b2 (Hb1 & _ & _ & s1 & Hs1 & Hh1) (Hb2 & _ & _ & s2 & Hs2 & Hh2).
    rewrite Hs1 in Hs2. injection Hs2 as <-.
    pose proof (Hone _ _ _ Hh1 Hh2) as Heq. rewrite Heq in Hb1. congruence.
  - intros sid x s Hs Hstat. destruct (Hseats _ _ _ Hs) as [HL HB].
    destruct Hstat as [Hstat | Hstat].
    + destruct (HL Hstat) as (b & Hb & Hp & Hshow & Hx & Hu).
      destruct (Hidx _ _ Hb) as (Hid & _).
      exists b. split; [| split; [exact Hid | split]].
      * split; [now rewrite Hid |]. split; [exact Hshow |]. split; [exact Hx |].
        exists s. split; [exact Hs |]. unfold holds. rewrite Hstat, Hid.
        apply Z.eqb_refl.
      * intros _. now split.
      * intros H. rewrite Hstat in H. discriminate.
    + destruct (HB Hstat) as (b & Hb & Hc & Hshow & Hx).
      destruct (Hidx _ _ Hb) as (Hid & _).
      exists b. split; [| split; [exact Hid | split]].
      * split; [now rewrite Hid |]. split; [exact Hshow |]. split; [exact Hx |].
        exists s. split; [exact Hs |]. unfold holds. rewrite Hstat, Hid.
        apply Z.eqb_refl.
      * intros H. rewrite Hstat in H. discriminate.
      * intros _. exact Hc.
  - intros id b Hb Hin x Hx. destruct (Hidx _ _ Hb) as (Hid & _).
    rewrite <- Hid in Hb.
    split; [exact Hb |]. split; [reflexivity |]. split; [exact Hx |].
    now apply Hforce.
  - intros id1 id2 b1 b2 x Hb1 Hb2 Hin1 Hin2 Hshow Hx1 Hx2.
    destruct (Hidx _ _ Hb1) as (Hid1 & _). destruct (Hidx _ _ Hb2) as (Hid2 & _).
    rewrite <- Hid1 in Hb1. rewrite <- Hid2 in Hb2.
    destruct (Hforce b1 Hb1 Hin1 x Hx1) as (s1 & Hs1 & Hh1).
    destruct (Hforce b2 Hb2 Hin2 x Hx2) as (s2 & Hs2 & Hh2).
    rewrite Hshow, Hs2 in Hs1. injection Hs1 as <-.
    pose proof (Hone _ _ _ Hh1 Hh2). congruence.
  - intros sid x s ops _.
    destruct (seat_calls_respect_holder (run_ops ops s)) as (H1 & H2 & H3 & H4).
    split; [apply Hone |]. split; [exact H1 |]. split; [exact H2 |].
    split; [exact H3 |]. split; [exact H4 |].
    intros op b b'. apply holder_changes_only_by_takeover.
Qed.

Lemma no_double_booking_witness :
  exists b : Booking.t,
    booking_holds (snd (initiateBooking 0 demo_request demo_service)) 1 10 b
    /\ Booking.id_ b = 1.
Proof.
  assert (svc_reachable 0 (snd (initiateBooking 0 demo_request demo_service)))
    as Hreach.
  { apply (svc_initiate 0 0); [| lia].
    apply svc_start. intros sid sh s Hsh Hin.
    apply lookup_singleton_Some in Hsh as [_ <-]. cbn in Hin.
    repeat (apply elem_of_cons in Hin as [-> | Hin]; [now left |]).
    now apply elem_of_nil in Hin. }
  destruct (no_double_booking 0 _ Hreach) as (_ & Hheld & _).
  edestruct (Hheld 1 10) as (b & Hb & Hid & _);
    [vm_compute; reflexivity | left; reflexivity |].
  exists b. split; [exact Hb | exact Hid].
Defined.
End ServiceStates.
(** ** The spec's end-to-end scenarios, evaluated *)

(** Scenario 1, first half: user 7 initiates a booking of the seats 10 and
    11; the call succeeds with booking 1, total 200, and both seats are
    LOCKED to it while seat 12 stays AVAILABLE. *)
Example scenario_happy_path :
  let r := Services.initiateBooking 0 demo_request demo_service in
  Services.success (fst r) = true
  /\ (Models.Booking.id_ <$> Services.booking (fst r)) = Some 1
  /\ (Models.Booking.totalAmount_ <$> Services.booking (fst r)) = Some 200%float
  /\ (Models.Booking.expiresAt_ <$> Services.booking (fst r))
     = Some (15 * ticks_per_minute)
  /\ (map (fun s => (Models.ShowSeat.seatId_ s, Models.ShowSeat.status_ s,
                     Models.ShowSeat.bookingId_ s))
        <$> (Models.Show.showSeats_ <$> Services.showRepository_ (snd r) !! 1))
     = Some [(10, Models.LOCKED, 1); (11, Models.LOCKED, 1);
             (12, Models.AVAILABLE, -1)].
Proof. vm_compute. repeat split. Qed.

(** Scenario 2: with seat 10 locked by booking 1, user 8 asks for the seats
    10 and 12 and is refused with the failed seat 10; nothing changes. *)
Example scenario_double_attempt_loses :
  let svc1 := snd (Services.initiateBooking 0 demo_request demo_service) in
  let r := Services.initiateBooking 1 rival_request svc1 in
  Services.success (fst r) = false
  /\ Services.message (fst r) = "SEAT_UNAVAILABLE"%string
  /\ Services.failedSeatIds (fst r) = [10]
  /\ Services.booking (fst r) = None
  /\ snd r = svc1.
Proof. vm_compute. repeat split. Qed.

(** Once the lock of booking 1 has lapsed, the rival request takes seat 10
    over: the seat is LOCKED to booking 2. *)
Example stale_lock_is_taken_over :
  let svc1 := snd (Services.initiateBooking 0 demo_request demo_service) in
  let r := Services.initiateBooking (16 * ticks_per_minute) rival_request svc1 in
  Services.success (fst r) = true
  /\ (map (fun s => (Models.ShowSeat.seatId_ s, Models.ShowSeat.status_ s,
                     Models.ShowSeat.bookingId_ s))
        <$> (Models.Show.showSeats_ <$> Services.showRepository_ (snd r) !! 1))
     = Some [(10, Models.LOCKED, 2); (11, Models.LOCKED, 1);
             (12, Models.LOCKED, 2)].
Proof. vm_compute. repeat split. Qed.

(** Scenario 1, second half: the booking is confirmed with payment
    reference tx_abc; the seats 10 and 11 are BOOKED to it, the booking is
    CONFIRMED and its payment COMPLETED. *)
Example scenario_happy_path_confirm :
  let svc1 := snd (Services.initiateBooking 0 demo_request demo_service) in
  let r := Services.confirmBooking ticks_per_minute 1 "tx_abc" svc1 in
  Services.success (fst r) = true
  /\ ((fun b => (Models.Booking.bookingStatus_ b, Models.Booking.paymentStatus_ b,
                 Models.Booking.paymentId_ b))
        <$> Services.bookingRepository_ (snd r) !! 1)
     = Some (Models.BookingStatus.CONFIRMED, Models.PaymentStatus.COMPLETED,
             "tx_abc"%string)
  /\ (map (fun s => (Models.ShowSeat.seatId_ s, Models.ShowSeat.status_ s,
                     Models.ShowSeat.bookingId_ s))
        <$> (Models.Show.showSeats_ <$> Services.showRepository_ (snd r) !! 1))
     = Some [(10, Models.BOOKED, 1); (11, Models.BOOKED, 1);
             (12, Models.AVAILABLE, -1)].
Proof. vm_compute. repeat split. Qed.

(** Scenarios 3 and 6: a booking of seat 10 with a lock of one minute; the
    reaper runs at 70 s, seat 10 is AVAILABLE again and the booking is
    EXPIRED; confirming it afterwards fails and books no seat. *)
Example scenario_expiry_reclamation :
  let req := {| Services.showId := 1; Services.seatIds := [10];
                Services.userId := 7; Services.lockDurationMinutes := 1 |} in
  let svc1 := snd (Services.initiateBooking 0 req demo_service) in
  let svc2 := Services.processExpiredBookings (70 * ticks_per_second)
                (Services.processExpiredLocks (70 * ticks_per_second) svc1) in
  let r := Services.confirmBooking (90 * ticks_per_second) 1 "tx_abc" svc2 in
  (Models.Booking.bookingStatus_ <$> Services.bookingRepository_ svc2 !! 1)
  = Some Models.BookingStatus.EXPIRED
  /\ (map (fun s => (Models.ShowSeat.seatId_ s, Models.ShowSeat.status_ s,
                     Models.ShowSeat.bookingId_ s))
        <$> (Models.Show.showSeats_ <$> Services.showRepository_ svc2 !! 1))
     = Some [(10, Models.AVAILABLE, -1); (11, Models.AVAILABLE, -1);
             (12, Models.AVAILABLE, -1)]
  /\ Services.success (fst r) = false
  /\ snd r = svc2
  /\ Services.success
       (fst (Services.confirmBooking (90 * ticks_per_second) 1 "tx_abc" svc1))
     = false
  /\ Services.message
       (fst (Services.confirmBooking (90 * ticks_per_second) 1 "tx_abc" svc1))
     = "EXPIRED"%string.
Proof. vm_compute. repeat split. Qed.

(** Scenario 5: the payment fails and the owner's cancellation gives the
    seats back; the booking is CANCELLED and no refund is enqueued. *)
Example scenario_payment_failure_rollback :
  let svc1 := snd (Services.initiateBooking 0 demo_request demo_service) in
  let r := Services.cancelBooking ticks_per_minute 1 7 svc1 in
  fst r = true
  /\ (Models.Booking.bookingStatus_ <$> Services.bookingRepository_ (snd r) !! 1)
     = Some Models.BookingStatus.CANCELLED
  /\ Services.showRepository_ (snd r) = Services.showRepository_ demo_service
  /\ Services.refundQueue_ (snd r) = [].
Proof. vm_compute. repeat split. Qed.

(** After the takeover both bookings are PENDING and both list seat 10,
    but the first one has expired: it is not in force, and the seat is
    held by the second one alone. *)
Example taken_over_booking_is_not_in_force :
  let svc1 := snd (Services.initiateBooking 0 demo_request demo_service) in
  let svc2 := snd (Services.initiateBooking (16 * ticks_per_minute)
                     rival_request svc1) in
  ((fun b => (Models.Booking.bookingStatus_ b, Models.Booking.bookingSeats_ b,
              in_force (16 * ticks_per_minute) b))
     <$> Services.bookingRepository_ svc2 !! 1)
  = Some (Models.BookingStatus.PENDING, [10; 11], false)
  /\ ((fun b => (Models.Booking.bookingStatus_ b, Models.Booking.bookingSeats_ b,
                 in_force (16 * ticks_per_minute) b))
        <$> Services.bookingRepository_ svc2 !! 2)
     = Some (Models.BookingStatus.PENDING, [10; 12], true)
  /\ ((fun s => (Models.ShowSeat.status_ s, Models.ShowSeat.bookingId_ s))
        <$> seat_of svc2 1 10)
     = Some (Models.LOCKED, 2).
Proof. vm_compute. repeat split. Qed.

(** A request that names seat 13, which is under maintenance, is refused
    with that seat reported; nothing changes. *)
Example maintenance_seat_is_unavailable :
  let r := Services.initiateBooking 0 maintenance_request maintenance_service in
  Services.success (fst r) = false
  /\ Services.message (fst r) = "SEAT_UNAVAILABLE"%string
  /\ Services.failedSeatIds (fst r) = [13]
  /\ Services.booking (fst r) = None
  /\ snd r = maintenance_service.
Proof. vm_compute. repeat split. Qed.

(** * Further properties of the code *)

(** ** Ticket numbers *)

Lemma pretty_N_go_head (x : N) :
  forall s : string,
    (0 < x)%N ->
    exists (c : ascii) (rest : string),
      pretty_N_go x s = String c rest /\ c <> "0"%char.
Proof.
  induction (N.lt_wf_0 x) as [x _ IH]; intros s Hx.
  rewrite pretty_N_go_step by exact Hx.
  destruct (decide (x < 10)%N) as [Hlt | Hge].
  - replace (x `div` 10)%N with 0%N by (symmetry; now apply N.div_small).
    rewrite pretty_N_go_0. eexists _, s. split; [reflexivity |].
    rewrite N.mod_small by exact Hlt.
    assert (x = 1 \/ x = 2 \/ x = 3 \/ x = 4 \/ x = 5 \/ x = 6
            \/ x = 7 \/ x = 8 \/ x = 9)%N as Hcases by lia.
    destruct Hcases as [-> | [-> | [-> | [-> | [-> | [-> | [-> | [-> | ->]]]]]]]];
      discriminate.
  - apply IH.
    + apply N.div_lt; lia.
    + apply N.div_str_pos. lia.
Qed.

Lemma pretty_N_go_length (k : nat) :
  forall (x : N) (s : string),
    (x < 10 ^ N.of_nat k)%N ->
    (String.length (pretty_N_go x s) <= k + String.length s)%nat.
Proof.
  induction k as [| k IH]; intros x s Hx.
  - replace x with 0%N by (simpl in Hx; lia). rewrite pretty_N_go_0. lia.
  - destruct (decide (x = 0)%N) as [-> | Hne];
      [rewrite pretty_N_go_0; lia |].
    rewrite pretty_N_go_step by lia.
    etransitivity; [apply IH | simpl; lia].
    apply N.Div0.div_lt_upper_bound.
    rewrite Nat2N.inj_succ, N.pow_succ_r' in Hx. exact Hx.
Qed.

Lemma to_string_positive_head (n : Z) :
  1 <= n ->
  exists (c : ascii) (rest : string),
    to_string n = String c rest /\ c <> "0"%char.
Proof.
  intros Hn. destruct n as [| p | p]; try lia.
  unfold to_string, pretty, pretty_Z, pretty, pretty_N.
  destruct (decide (N.pos p = 0)%N) as [H | _]; [discriminate H |].
  apply pretty_N_go_head. lia.
Qed.

Lemma to_string_length (n : Z) :
  1 <= n < 100000000 -> (String.length (to_string n) <= 8)%nat.
Proof.
  intros Hn. destruct n as [| p | p]; try lia.
  unfold to_string, pretty, pretty_Z, pretty, pretty_N.
  destruct (decide (N.pos p = 0)%N) as [H | _]; [discriminate H |].
  pose proof (pretty_N_go_length 8 (N.pos p) ""%string) as H.
  simpl String.length in H. rewrite Nat.add_0_r in H. apply H.
  change (10 ^ N.of_nat 8)%N with 100000000%N. lia.
Qed.

(** Padding on the left cannot make two digit strings that start with a
    non-zero digit collide. *)
Lemma zero_padding_inj (p q : nat) (a b : string) :
  (exists c rest, a = String c rest /\ c <> "0"%char) ->
  (exists c rest, b = String c rest /\ c <> "0"%char) ->
  string_of_list_ascii (replicate p "0"%char) +:+ a
  = string_of_list_ascii (replicate q "0"%char) +:+ b ->
  a = b.
Proof.
  intros (ca & ra & -> & Ha) (cb & rb & -> & Hb).
  revert q. induction p as [| p IH]; intros [| q]; simpl.
  - trivial.
  - intros [= -> _]. contradiction.
  - intros [= <- _]. contradiction.
  - intros [= H]. now apply (IH q).
Qed.

Lemma string_app_length (a b : string) :
  String.length (a +:+ b) = (String.length a + String.length b)%nat.
Proof. induction a as [| x a IH]; simpl; [reflexivity | now rewrite IH]. Qed.

Lemma setw_fill_length (w : nat) (c : ascii) (text : string) :
  String.length (setw_fill w c text) = Nat.max w (String.length text).
Proof.
  unfold setw_fill.
  assert (forall n, String.length (string_of_list_ascii (replicate n c)) = n)
    as Hrep by (induction n as [| n IH]; simpl; [reflexivity | now rewrite IH]).
  rewrite string_app_length, Hrep. lia.
Qed.

(** A run of zeros is not a padded number that starts with another
    character. *)
Lemma zero_padding_not_zeros (p q : nat) (c : ascii) (rest : string) :
  c <> "0"%char ->
  string_of_list_ascii (replicate p "0"%char) +:+ "0"
  <> string_of_list_ascii (replicate q "0"%char) +:+ String c rest.
Proof.
  intros Hc. revert q. induction p as [| p IH]; intros [| q]; simpl.
  - intros [= <-]. contradiction.
  - destruct q; simpl; discriminate.
  - intros [= <- _]. contradiction.
  - intros [= H]. now apply (IH q).
Qed.

Lemma to_string_nonzero_head (n : Z) :
  n <> 0 ->
  exists (c : ascii) (rest : string),
    to_string n = String c rest /\ c <> "0"%char.
Proof.
  intros Hn. destruct n as [| p | p]; [contradiction | |].
  - apply to_string_positive_head. lia.
  - exists "-"%char, (pretty (N.pos p)). split; [reflexivity | discriminate].
Qed.

Lemma wrap_int_small (z : Z) : INT_MIN <= z <= INT_MAX -> wrap_int z = z.
Proof.
  unfold wrap_int, INT_MIN, INT_MAX. intros H.
  rewrite Z.mod_small by lia. lia.
Qed.

Lemma wrap_int_succ_neq (n : Z) : wrap_int (n + 1) <> n.
Proof.
  unfold wrap_int, INT_MIN. intros H.
  pose proof (Z.div_mod (n + 1 - -2147483648) 4294967296 ltac:(lia)) as Hd.
  lia.
Qed.


Lemma generateTicketNumber_eq (lot : ParkingLot.t) :
  ParkingLot.generateTicketNumber lot
  = (ticket_number (ParkingLot.nextTicketNumber lot),
     with_counter (wrap_int (ParkingLot.nextTicketNumber lot + 1)) lot).
Proof. reflexivity. Qed.

Lemma ticket_number_inj (n m : Z) :
  1 <= n -> 1 <= m -> ticket_number n = ticket_number m -> n = m.
Proof.
  intros Hn Hm H. unfold ticket_number in H.
  injection H as H. unfold setw_fill in H.
  apply zero_padding_inj in H;
    [| now apply to_string_positive_head | now apply to_string_positive_head].
  unfold to_string in H. now apply (inj pretty) in H.
Qed.

(** Also for the values a wrapped counter takes: zero and the negative
    numbers, printed with their sign after the padding. *)
Lemma ticket_number_inj_all (n m : Z) :
  ticket_number n = ticket_number m -> n = m.
Proof.
  intros H. unfold ticket_number in H. injection H as H. unfold setw_fill in H.
  destruct (decide (n = 0)) as [-> | Hn]; destruct (decide (m = 0)) as [-> | Hm].
  - reflexivity.
  - exfalso. destruct (to_string_nonzero_head m Hm) as (c & rest & Hs & Hc).
    rewrite Hs in H. now apply zero_padding_not_zeros in H.
  - exfalso. destruct (to_string_nonzero_head n Hn) as (c & rest & Hs & Hc).
    rewrite Hs in H. symmetry in H. now apply zero_padding_not_zeros in H.
  - apply zero_padding_inj in H;
      [| now apply to_string_nonzero_head | now apply to_string_nonzero_head].
    unfold to_string in H. now apply (inj pretty) in H.
Qed.

(** X1.  Two lots whose ticket counters are at least 1 are issued the same
    ticket number by [generateTicketNumber] exactly when their counters are
    equal: distinct counter values never give the same ticket number. *)
Theorem generateTicketNumber_distinct :
  forall lot1 lot2 : ParkingLot.t,
    1 <= ParkingLot.nextTicketNumber lot1 ->
    1 <= ParkingLot.nextTicketNumber lot2 ->
    (fst (ParkingLot.generateTicketNumber lot1)
     = fst (ParkingLot.generateTicketNumber lot2)
     <-> ParkingLot.nextTicketNumber lot1 = ParkingLot.nextTicketNumber lot2).
Proof.
  intros lot1 lot2 H1 H2. rewrite !generateTicketNumber_eq. cbn [fst]. split.
  - now apply ticket_number_inj.
  - now intros ->.
Qed.

Lemma generateTicketNumber_distinct_witness :
  fst (ParkingLot.generateTicketNumber (ParkingLot.new 1 1 0 10%float))
  = fst (ParkingLot.generateTicketNumber demo_lot)
  <-> ParkingLot.nextTicketNumber (ParkingLot.new 1 1 0 10%float)
      = ParkingLot.nextTicketNumber demo_lot.
Proof.
  apply (generateTicketNumber_distinct (ParkingLot.new 1 1 0 10%float) demo_lot).
  - vm_compute. discriminate.
  - vm_compute. discriminate.
Defined.

(** X2.  While the counter is between 1 and 99999999, the ticket number
    issued is "TKT" followed by exactly eight characters (the counter in
    decimal, zero-padded on the left), eleven characters in all, and the
    counter moves on by one. *)
Theorem generateTicketNumber_format :
  forall lot : ParkingLot.t,
    1 <= ParkingLot.nextTicketNumber lot < 100000000 ->
    String.length (fst (ParkingLot.generateTicketNumber lot)) = 11%nat
    /\ (exists digits : string,
           fst (ParkingLot.generateTicketNumber lot) = ("TKT" +:+ digits)%string
           /\ String.length digits = 8%nat
           /\ exists zeros : nat,
                digits
                = (string_of_list_ascii (replicate zeros "0"%char)
                   +:+ to_string (ParkingLot.nextTicketNumber lot))%string)
    /\ ParkingLot.nextTicketNumber (snd (ParkingLot.generateTicketNumber lot))
       = ParkingLot.nextTicketNumber lot + 1.
Proof.
  intros lot Hn. rewrite generateTicketNumber_eq. cbn [fst snd].
  pose proof (to_string_length _ Hn) as Hlen.
  assert (String.length
            (setw_fill 8 "0" (to_string (ParkingLot.nextTicketNumber lot)))
          = 8%nat) as H8 by (rewrite setw_fill_length; lia).
  split; [unfold ticket_number; now rewrite string_app_length, H8 |].
  split; [| unfold with_counter; cbn; apply wrap_int_small;
            unfold INT_MIN, INT_MAX; lia].
  eexists. split; [reflexivity |]. split; [exact H8 |].
  eexists. reflexivity.
Qed.

Lemma generateTicketNumber_format_witness :
  String.length (fst (ParkingLot.generateTicketNumber demo_lot)) = 11%nat
  /\ (exists digits : string,
         fst (ParkingLot.generateTicketNumber demo_lot) = ("TKT" +:+ digits)%string
         /\ String.length digits = 8%nat
         /\ exists zeros : nat,
              digits
              = (string_of_list_ascii (replicate zeros "0"%char)
                 +:+ to_string (ParkingLot.nextTicketNumber demo_lot))%string)
  /\ ParkingLot.nextTicketNumber (snd (ParkingLot.generateTicketNumber demo_lot))
     = ParkingLot.nextTicketNumber demo_lot + 1.
Proof.
  apply (generateTicketNumber_format demo_lot).
  vm_compute. split; [discriminate | reflexivity].
Defined.

(** At the end of the [int] range the counter wraps: the ticket issued at
    2147483647 is followed by the counter value -2147483648. *)
Example ticket_counter_wraps :
  ParkingLot.generateTicketNumber (with_counter INT_MAX demo_lot)
  = ("TKT2147483647"%string, with_counter INT_MIN demo_lot).
Proof. vm_compute. reflexivity. Qed.


(** ** A single slot *)

(** X3.  [ParkingSlot::parkVehicle] succeeds exactly when [canPark] accepts
    the vehicle's type.  On failure the slot is unchanged; in particular an
    occupied slot refuses every vehicle and keeps the one it holds.  On
    success the slot is occupied by the vehicle and from then on [canPark]
    rejects every type. *)
Theorem slot_parkVehicle_behaviour :
  forall (s : ParkingSlot.t) (v : Vehicle.t),
    fst (ParkingSlot.parkVehicle s v) = ParkingSlot.canPark s (Vehicle.getType v)
    /\ (ParkingSlot.isOccupied s = true -> ParkingSlot.parkVehicle s v = (false, s))
    /\ (fst (ParkingSlot.parkVehicle s v) = false ->
        snd (ParkingSlot.parkVehicle s v) = s)
    /\ (fst (ParkingSlot.parkVehicle s v) = true ->
        snd (ParkingSlot.parkVehicle s v) = occupied_by v s
        /\ ParkingSlot.getParkedVehicle (snd (ParkingSlot.parkVehicle s v)) = Some v
        /\ forall vt : VehicleType,
             ParkingSlot.canPark (snd (ParkingSlot.parkVehicle s v)) vt = false).
Proof.
  intros s v. unfold ParkingSlot.parkVehicle, ParkingSlot.canPark.
  split; [now destruct (negb _ && _) |].
  split; [intros ->; reflexivity |].
  split; destruct (negb _ && _); cbn; intros H;
    first [discriminate H | reflexivity | now repeat split].
Qed.

(** X4.  [vacateSlot] always leaves the slot free and empty, whatever it
    held, and vacating twice is vacating once.  Parking a vehicle in a free,
    empty slot and vacating it gives the slot back exactly as it was. *)
Theorem slot_vacate_round_trip :
  forall (s : ParkingSlot.t) (v : Vehicle.t),
    ParkingSlot.isAvailable (ParkingSlot.vacateSlot s) = true
    /\ ParkingSlot.getParkedVehicle (ParkingSlot.vacateSlot s) = None
    /\ ParkingSlot.getSlotNumber (ParkingSlot.vacateSlot s)
       = ParkingSlot.getSlotNumber s
    /\ ParkingSlot.getSlotType (ParkingSlot.vacateSlot s)
       = ParkingSlot.getSlotType s
    /\ ParkingSlot.vacateSlot (ParkingSlot.vacateSlot s) = ParkingSlot.vacateSlot s
    /\ (ParkingSlot.isOccupied s = false ->
        ParkingSlot.parkedVehicle s = None ->
        ParkingSlot.vacateSlot (snd (ParkingSlot.parkVehicle s v)) = s).
Proof.
  intros s v. repeat split.
  intros Hfree Hempty. unfold ParkingSlot.parkVehicle.
  destruct s as [n occ pv ty]. cbn in *. subst.
  now destruct (negb false && _).
Qed.


(** ** The lot: parking *)

Lemma parkVehicle_found (now : Z) (v : Vehicle.t) (lot : ParkingLot.t)
    (i : nat) (slot : ParkingSlot.t) :
  list_find (fun s => ParkingSlot.canPark s (Vehicle.getType v) = true)
            (ParkingLot.parkingSlots lot) = Some (i, slot) ->
  ParkingLot.parkVehicle now (Some v) lot
  = (Some (ParkingTicket.new now
             (ticket_number (ParkingLot.nextTicketNumber lot)) (Some v)
             (ParkingSlot.slotNumber slot)),
     {| ParkingLot.parkingSlots :=
          <[i := occupied_by v slot]> (ParkingLot.parkingSlots lot);
        ParkingLot.activeTickets :=
          <[ticket_number (ParkingLot.nextTicketNumber lot) :=
              ParkingTicket.new now
                (ticket_number (ParkingLot.nextTicketNumber lot)) (Some v)
                (ParkingSlot.slotNumber slot)]>
            (ParkingLot.activeTickets lot);
        ParkingLot.hourlyRate := ParkingLot.hourlyRate lot;
        ParkingLot.nextTicketNumber :=
          wrap_int (ParkingLot.nextTicketNumber lot + 1) |}).
Proof.
  intros Hfind. unfold ParkingLot.parkVehicle. rewrite Hfind.
  apply list_find_Some in Hfind as (_ & Hcan & _).
  unfold ParkingSlot.parkVehicle.
  unfold ParkingSlot.canPark in Hcan. rewrite Hcan. reflexivity.
Qed.

Lemma parkVehicle_not_found (now : Z) (v : Vehicle.t) (lot : ParkingLot.t) :
  list_find (fun s => ParkingSlot.canPark s (Vehicle.getType v) = true)
            (ParkingLot.parkingSlots lot) = None ->
  ParkingLot.parkVehicle now (Some v) lot = (None, lot).
Proof. intros Hfind. unfold ParkingLot.parkVehicle. now rewrite Hfind. Qed.

Lemma filter_length_zero {A} (f : A -> bool) (l : list A) :
  length (List.filter f l) = 0%nat <-> Forall (fun x => f x = false) l.
Proof.
  induction l as [| x l IH]; simpl.
  - split; [constructor | reflexivity].
  - destruct (f x) eqn:E; simpl.
    + split; [discriminate | intros H; apply Forall_cons in H as [H _]; congruence].
    + rewrite IH. split; [now constructor | now intros H; apply Forall_cons in H].
Qed.

Lemma no_space_iff_not_found (ty : VehicleType) (lot : ParkingLot.t) :
  ParkingLot.getAvailableSpaces ty lot = 0
  <-> list_find (fun s => ParkingSlot.canPark s ty = true)
                (ParkingLot.parkingSlots lot) = None.
Proof.
  rewrite getAvailableSpaces_counts_canPark.
  rewrite list_find_None.
  replace 0 with (Z.of_nat 0) by reflexivity. rewrite Nat2Z.inj_iff.
  rewrite filter_length_zero.
  split; intros H; eapply Forall_impl; try exact H; cbn; intros s Hs.
  - now rewrite Hs.
  - now destruct (ParkingSlot.canPark s ty).
Qed.

(** X5.  [parkVehicle] returns no ticket exactly when it is given no
    vehicle or [getAvailableSpaces] reports no space for the vehicle's
    type, and then the lot is unchanged: no slot is taken and the ticket
    counter does not move. *)
Theorem parkVehicle_fails_iff_no_space :
  forall (now : Z) (vehicle : option Vehicle.t) (lot : ParkingLot.t),
    (fst (ParkingLot.parkVehicle now vehicle lot) = None
     <-> vehicle = None
         \/ exists v : Vehicle.t,
              vehicle = Some v
              /\ ParkingLot.getAvailableSpaces (Vehicle.getType v) lot = 0)
    /\ (fst (ParkingLot.parkVehicle now vehicle lot) = None ->
        snd (ParkingLot.parkVehicle now vehicle lot) = lot)
    /\ (forall v : Vehicle.t,
          vehicle = Some v ->
          ParkingLot.isFullFor (Vehicle.getType v) lot = false ->
          exists tk : ParkingTicket.t,
            fst (ParkingLot.parkVehicle now vehicle lot) = Some tk).
Proof.
  intros now vehicle lot.
  destruct vehicle as [v |].
  - destruct (list_find (fun s => ParkingSlot.canPark s (Vehicle.getType v) = true)
                (ParkingLot.parkingSlots lot)) as [[i slot] |] eqn:Hfind.
    + rewrite (parkVehicle_found _ _ _ _ _ Hfind). cbn [fst snd].
      split; [| split].
      * split; [discriminate |].
        intros [H | (v' & [= <-] & H)]; [discriminate H |].
        apply no_space_iff_not_found in H. congruence.
      * discriminate.
      * intros v' _ _. eexists; reflexivity.
    + rewrite (parkVehicle_not_found _ _ _ Hfind). cbn [fst snd].
      split; [| split].
      * split; [| reflexivity]. intros _. right. exists v.
        split; [reflexivity | now apply no_space_iff_not_found].
      * reflexivity.
      * intros v' [= <-] Hfull. unfold ParkingLot.isFullFor in Hfull.
        apply no_space_iff_not_found in Hfind. rewrite Hfind in Hfull.
        discriminate Hfull.
  - cbn. split; [| split].
    + split; [now left | reflexivity].
    + reflexivity.
    + intros v H. discriminate H.
Qed.


(** ** The lot: occupancy counts *)

Lemma filter_length_le {A} (f : A -> bool) (l : list A) :
  (length (List.filter f l) <= length l)%nat.
Proof.
  induction l as [| x l IH]; simpl; [lia |]. destruct (f x); simpl; lia.
Qed.

Lemma filter_length_split {A} (f : A -> bool) (l : list A) :
  (length (List.filter f l) + length (List.filter (fun x => negb (f x)) l)
   = length l)%nat.
Proof.
  induction l as [| x l IH]; simpl; [reflexivity |].
  destruct (f x); simpl; lia.
Qed.

Lemma filter_length_mono {A} (f g : A -> bool) (l : list A) :
  (forall x, f x = true -> g x = true) ->
  (length (List.filter f l) <= length (List.filter g l))%nat.
Proof.
  intros Hfg. induction l as [| x l IH]; simpl; [lia |].
  destruct (f x) eqn:Ef.
  - rewrite (Hfg x Ef). simpl. lia.
  - destruct (g x); simpl; lia.
Qed.

Lemma getOccupiedSpaces_count (lot : ParkingLot.t) :
  ParkingLot.getOccupiedSpaces lot
  = Z.of_nat (occupied_count (ParkingLot.parkingSlots lot)).
Proof.
  unfold ParkingLot.getOccupiedSpaces, ParkingLot.getTotalSpaces, occupied_count.
  pose proof (filter_length_split ParkingSlot.isOccupied
                (ParkingLot.parkingSlots lot)) as H.
  unfold ParkingSlot.isAvailable.
  change (fun x => negb (ParkingSlot.isOccupied x))
    with (fun s => negb (ParkingSlot.isOccupied s)) in H.
  lia.
Qed.

Lemma isFull_iff (lot : ParkingLot.t) :
  ParkingLot.isFull lot = true
  <-> occupied_count (ParkingLot.parkingSlots lot)
      = length (ParkingLot.parkingSlots lot).
Proof.
  unfold ParkingLot.isFull, occupied_count, ParkingSlot.isAvailable.
  induction (ParkingLot.parkingSlots lot) as [| s l IH]; simpl;
    [split; reflexivity |].
  pose proof (filter_length_le ParkingSlot.isOccupied l) as Hle.
  destruct (ParkingSlot.isOccupied s); simpl.
  - rewrite IH. split; [intros ->; reflexivity | intros [= H]; exact H].
  - split; [discriminate | lia].
Qed.

(** X6.  For every lot the occupancy figures agree with each other: the
    occupied spaces lie between 0 and the total, the spaces available to
    any vehicle type never exceed the free ones, [isFull] holds exactly
    when every slot is occupied, and a full lot is full for every vehicle
    type. *)
Theorem occupancy_accounting :
  forall lot : ParkingLot.t,
    0 <= ParkingLot.getOccupiedSpaces lot <= ParkingLot.getTotalSpaces lot
    /\ (forall ty : VehicleType,
           0 <= ParkingLot.getAvailableSpaces ty lot
             <= ParkingLot.getTotalSpaces lot - ParkingLot.getOccupiedSpaces lot)
    /\ (ParkingLot.isFull lot = true
        <-> ParkingLot.getOccupiedSpaces lot = ParkingLot.getTotalSpaces lot)
    /\ (ParkingLot.isFull lot = true ->
        forall ty : VehicleType, ParkingLot.isFullFor ty lot = true).
Proof.
  intros lot.
  pose proof (filter_length_le ParkingSlot.isOccupied
                (ParkingLot.parkingSlots lot)) as Hle.
  pose proof (filter_length_split ParkingSlot.isOccupied
                (ParkingLot.parkingSlots lot)) as Hsplit.
  assert (forall ty,
             0 <= ParkingLot.getAvailableSpaces ty lot
               <= ParkingLot.getTotalSpaces lot
                  - ParkingLot.getOccupiedSpaces lot) as Havail.
  { intros ty. rewrite getOccupiedSpaces_count.
    unfold ParkingLot.getAvailableSpaces, ParkingLot.getTotalSpaces,
      occupied_count.
    pose proof (filter_length_mono
                  (fun slot =>
                     ParkingSlot.isAvailable slot
                     && (bool_decide (ParkingSlot.getSlotType slot = ty)
                         || bool_decide (ty = CAR)
                            && bool_decide (ParkingSlot.getSlotType slot = TRUCK)))
                  (fun s => negb (ParkingSlot.isOccupied s))
                  (ParkingLot.parkingSlots lot)) as Hmono.
    lapply Hmono; [lia |].
    intros s Hs. apply andb_true_iff in Hs as [Hs _]. exact Hs. }
  split; [rewrite getOccupiedSpaces_count;
          unfold ParkingLot.getTotalSpaces, occupied_count; lia |].
  split; [exact Havail |].
  assert (ParkingLot.isFull lot = true
          <-> ParkingLot.getOccupiedSpaces lot = ParkingLot.getTotalSpaces lot)
    as Hfull.
  { rewrite isFull_iff, getOccupiedSpaces_count.
    unfold ParkingLot.getTotalSpaces. lia. }
  split; [exact Hfull |].
  intros H ty. apply Hfull in H. unfold ParkingLot.isFullFor.
  specialize (Havail ty). apply Z.eqb_eq. lia.
Qed.


(** ** The lot: construction *)

Lemma make_slots_filter_all (f : ParkingSlot.t -> bool) (ty : VehicleType)
    (count : nat) :
  (forall k, f (ParkingSlot.new k ty) = true) ->
  forall first, length (List.filter f (ParkingLot.make_slots count first ty)) = count.
Proof.
  intros Hf. induction count as [| n IH]; intros first; simpl; [reflexivity |].
  rewrite Hf. simpl. now rewrite IH.
Qed.

Lemma make_slots_filter_none (f : ParkingSlot.t -> bool) (ty : VehicleType)
    (count : nat) :
  (forall k, f (ParkingSlot.new k ty) = false) ->
  forall first, length (List.filter f (ParkingLot.make_slots count first ty)) = 0%nat.
Proof.
  intros Hf. induction count as [| n IH]; intros first; simpl; [reflexivity |].
  rewrite Hf. apply IH.
Qed.

Lemma make_slots_type (count : nat) (first : Z) (ty : VehicleType)
    (s : ParkingSlot.t) :
  s ∈ ParkingLot.make_slots count first ty ->
  ParkingSlot.slotType s = ty
  /\ ParkingSlot.isOccupied s = false
  /\ ParkingSlot.parkedVehicle s = None.
Proof.
  revert first. induction count as [| n IH]; intros first; simpl.
  - intros H. now apply elem_of_nil in H.
  - intros H. apply elem_of_cons in H as [-> | H]; [now repeat split |].
    now apply (IH (first + 1)).
Qed.

(** X7.  A lot built for [c] car, [t] truck and [m] motorcycle spaces
    (negative counts give none) has [t + c + m] slots, none occupied and
    no active ticket.  Cars may use the car and the truck slots, trucks the
    truck slots, motorcycles the motorcycle slots; there is no space for
    an electric vehicle.  Such a lot is full only if it has no slot. *)
Theorem new_lot_spaces :
  forall (carSpaces truckSpaces motorcycleSpaces : Z) (rate : float),
    ParkingLot.getTotalSpaces
      (ParkingLot.new carSpaces truckSpaces motorcycleSpaces rate)
    = Z.max 0 truckSpaces + Z.max 0 carSpaces + Z.max 0 motorcycleSpaces
    /\ ParkingLot.getOccupiedSpaces
         (ParkingLot.new carSpaces truckSpaces motorcycleSpaces rate) = 0
    /\ ParkingLot.activeTickets
         (ParkingLot.new carSpaces truckSpaces motorcycleSpaces rate) = ∅
    /\ ParkingLot.getAvailableSpaces CAR
         (ParkingLot.new carSpaces truckSpaces motorcycleSpaces rate)
       = Z.max 0 carSpaces + Z.max 0 truckSpaces
    /\ ParkingLot.getAvailableSpaces TRUCK
         (ParkingLot.new carSpaces truckSpaces motorcycleSpaces rate)
       = Z.max 0 truckSpaces
    /\ ParkingLot.getAvailableSpaces MOTORCYCLE
         (ParkingLot.new carSpaces truckSpaces motorcycleSpaces rate)
       = Z.max 0 motorcycleSpaces
    /\ ParkingLot.getAvailableSpaces ELECTRIC
         (ParkingLot.new carSpaces truckSpaces motorcycleSpaces rate) = 0
    /\ (ParkingLot.isFull
          (ParkingLot.new carSpaces truckSpaces motorcycleSpaces rate) = true
        <-> ParkingLot.getTotalSpaces
              (ParkingLot.new carSpaces truckSpaces motorcycleSpaces rate) = 0).
Proof.
  intros c t m rate.
  assert (ParkingLot.getTotalSpaces (ParkingLot.new c t m rate)
          = Z.max 0 t + Z.max 0 c + Z.max 0 m) as Htotal.
  { unfold ParkingLot.getTotalSpaces, ParkingLot.new.
    cbn [ParkingLot.parkingSlots].
    rewrite !length_app, !make_slots_length. lia. }
  assert (ParkingLot.getOccupiedSpaces (ParkingLot.new c t m rate) = 0) as Hocc.
  { rewrite getOccupiedSpaces_count. unfold occupied_count, ParkingLot.new.
    cbn [ParkingLot.parkingSlots].
    rewrite !List.filter_app, !length_app.
    now rewrite !make_slots_filter_none by (intros; reflexivity). }
  assert (forall ty,
             ParkingLot.getAvailableSpaces ty (ParkingLot.new c t m rate)
             = match ty with
               | CAR => Z.max 0 c + Z.max 0 t
               | TRUCK => Z.max 0 t
               | MOTORCYCLE => Z.max 0 m
               | ELECTRIC => 0
               end) as Havail.
  { intros ty. unfold ParkingLot.getAvailableSpaces, ParkingLot.new.
    cbn [ParkingLot.parkingSlots].
    rewrite !List.filter_app, !length_app.
    destruct ty;
      repeat first
        [ rewrite make_slots_filter_all by (intros; reflexivity)
        | rewrite make_slots_filter_none by (intros; reflexivity) ];
      lia. }
  split; [exact Htotal |]. split; [exact Hocc |]. split; [reflexivity |].
  split; [apply Havail |]. split; [apply Havail |].
  split; [apply Havail |]. split; [apply Havail |].
  rewrite isFull_iff. rewrite getOccupiedSpaces_count in Hocc.
  unfold ParkingLot.getTotalSpaces. lia.
Qed.


(** ** The lot: what every reachable lot satisfies *)

Lemma alter_as_insert (f : ParkingSlot.t -> ParkingSlot.t)
    (l : list ParkingSlot.t) (i : nat) (s : ParkingSlot.t) :
  l !! i = Some s -> alter f i l = <[i := f s]> l.
Proof.
  intros Hi. apply list_eq. intros j.
  rewrite list_lookup_alter, list_lookup_insert.
  pose proof (lookup_lt_Some _ _ _ Hi) as Hlt.
  destruct (decide (i = j)) as [<- | Hne].
  - rewrite decide_True by (split; [reflexivity | exact Hlt]).
    now rewrite Hi.
  - now rewrite decide_False by (intros [? _]; contradiction).
Qed.

Section ReplaceSlot.
Variables (l : list ParkingSlot.t) (i : nat) (s s' : ParkingSlot.t).
Hypothesis Hi : l !! i = Some s.
Hypothesis Hnumber : ParkingSlot.slotNumber s' = ParkingSlot.slotNumber s.
Hypothesis Htype : ParkingSlot.slotType s' = ParkingSlot.slotType s.

Lemma replace_lookup (j : nat) (x : ParkingSlot.t) :
  <[i := s']> l !! j = Some x ->
  (j = i /\ x = s') \/ (j <> i /\ l !! j = Some x).
Proof.
  intros H. apply list_lookup_insert_Some in H as [(-> & -> & _) | [Hne H]].
  - now left.
  - right. split; [congruence | exact H].
Qed.

Lemma replace_type (j : nat) (x : ParkingSlot.t) :
  <[i := s']> l !! j = Some x ->
  exists y, l !! j = Some y /\ ParkingSlot.slotType x = ParkingSlot.slotType y.
Proof.
  intros H. apply replace_lookup in H as [[-> ->] | [_ H]].
  - exists s. now split.
  - exists x. now split.
Qed.

Lemma replace_numbered : slots_numbered l -> slots_numbered (<[i := s']> l).
Proof.
  intros Hn. apply slots_numbered_insert; [exact Hn |].
  rewrite Hnumber. now apply Hn.
Qed.

Lemma replace_laid_out : slots_laid_out l -> slots_laid_out (<[i := s']> l).
Proof.
  intros [Hsorted Hnone]. split.
  - intros a b sa sb Hab Ha Hb.
    apply replace_type in Ha as (ya & Hya & ->).
    apply replace_type in Hb as (yb & Hyb & ->).
    now apply (Hsorted a b).
  - intros x Hx. apply list_elem_of_lookup in Hx as [j Hj].
    apply replace_type in Hj as (y & Hy & ->).
    apply Hnone. now apply list_elem_of_lookup_2 in Hy.
Qed.

Lemma replace_free_empty :
  (ParkingSlot.isOccupied s' = false -> ParkingSlot.parkedVehicle s' = None) ->
  free_slots_empty l -> free_slots_empty (<[i := s']> l).
Proof.
  intros Hs' Hfree x Hx Hocc. apply list_elem_of_lookup in Hx as [j Hj].
  apply replace_lookup in Hj as [[_ ->] | [_ Hj]]; [now apply Hs' |].
  apply Hfree; [now apply list_elem_of_lookup_2 in Hj | exact Hocc].
Qed.

Lemma replace_occupied_count :
  (occupied_count (<[i := s']> l)
   + (if ParkingSlot.isOccupied s then 1 else 0)
   = occupied_count l + (if ParkingSlot.isOccupied s' then 1 else 0))%nat.
Proof.
  clear Hnumber Htype. revert i Hi. unfold occupied_count.
  induction l as [| x l0 IH]; intros k Hk; [discriminate Hk |].
  destruct k as [| k]; simpl in *.
  - injection Hk as ->.
    destruct (ParkingSlot.isOccupied s), (ParkingSlot.isOccupied s'); simpl; lia.
  - specialize (IH k Hk).
    destruct (ParkingSlot.isOccupied x); simpl; lia.
Qed.
End ReplaceSlot.

Lemma canPark_fits (s : ParkingSlot.t) (vt : VehicleType) :
  ParkingSlot.canPark s vt = true ->
  ParkingSlot.isOccupied s = false /\ type_fits (ParkingSlot.slotType s) vt.
Proof. intros H. now apply canPark_iff in H. Qed.

Lemma sorted_app_lookup (l1 l2 : list ParkingSlot.t) (r : nat) :
  (forall s, s ∈ l1 -> (slot_rank (ParkingSlot.slotType s) <= r)%nat) ->
  (forall s, s ∈ l2 -> (r <= slot_rank (ParkingSlot.slotType s))%nat) ->
  (forall i j si sj, (i < j)%nat -> l1 !! i = Some si -> l1 !! j = Some sj ->
     (slot_rank (ParkingSlot.slotType si)
      <= slot_rank (ParkingSlot.slotType sj))%nat) ->
  (forall i j si sj, (i < j)%nat -> l2 !! i = Some si -> l2 !! j = Some sj ->
     (slot_rank (ParkingSlot.slotType si)
      <= slot_rank (ParkingSlot.slotType sj))%nat) ->
  forall i j si sj, (i < j)%nat ->
    (l1 ++ l2) !! i = Some si -> (l1 ++ l2) !! j = Some sj ->
    (slot_rank (ParkingSlot.slotType si)
     <= slot_rank (ParkingSlot.slotType sj))%nat.
Proof.
  intros H1 H2 S1 S2 i j si sj Hij Hsi Hsj.
  apply lookup_app_Some in Hsi as [Hsi | [Hi Hsi]];
    apply lookup_app_Some in Hsj as [Hsj | [Hj Hsj]].
  - now apply (S1 i j).
  - apply list_elem_of_lookup_2 in Hsi, Hsj.
    specialize (H1 _ Hsi). specialize (H2 _ Hsj). lia.
  - apply lookup_lt_Some in Hsj. lia.
  - apply (S2 (i - length l1)%nat (j - length l1)%nat); [lia | exact Hsi | exact Hsj].
Qed.

Lemma make_slots_sorted (count : nat) (first : Z) (ty : VehicleType) :
  forall i j si sj, (i < j)%nat ->
    ParkingLot.make_slots count first ty !! i = Some si ->
    ParkingLot.make_slots count first ty !! j = Some sj ->
    (slot_rank (ParkingSlot.slotType si)
     <= slot_rank (ParkingSlot.slotType sj))%nat.
Proof.
  intros i j si sj _ Hsi Hsj.
  apply list_elem_of_lookup_2, make_slots_type in Hsi as [-> _].
  apply list_elem_of_lookup_2, make_slots_type in Hsj as [-> _].
  lia.
Qed.

Lemma new_lot_laid_out (c t m : Z) (rate : float) :
  slots_laid_out (ParkingLot.parkingSlots (ParkingLot.new c t m rate)).
Proof.
  unfold ParkingLot.new. cbn [ParkingLot.parkingSlots]. split.
  - apply (sorted_app_lookup _ _ 0).
    + intros s Hs. apply make_slots_type in Hs as [-> _]. simpl. lia.
    + intros s Hs. lia.
    + apply make_slots_sorted.
    + apply (sorted_app_lookup _ _ 1).
      * intros s Hs. apply make_slots_type in Hs as [-> _]. simpl. lia.
      * intros s Hs. apply make_slots_type in Hs as [-> _]. simpl. lia.
      * apply make_slots_sorted.
      * apply make_slots_sorted.
  - intros s Hs.
    repeat (apply elem_of_app in Hs as [Hs | Hs]);
      apply make_slots_type in Hs as [-> _]; discriminate.
Qed.

Lemma new_lot_consistent (c t m : Z) (rate : float) :
  lot_consistent (ParkingLot.new c t m rate).
Proof.
  split; [apply new_lot_wf |].
  split; [apply new_lot_laid_out |].
  split.
  { intros s Hs _. unfold ParkingLot.new in Hs. cbn [ParkingLot.parkingSlots] in Hs.
    repeat (apply elem_of_app in Hs as [Hs | Hs]);
      now apply make_slots_type in Hs. }
  split; [intros tn tk H; cbn in H; now rewrite lookup_empty in H |].
  intros tn1 tn2 tk1 tk2 _ H; cbn in H; now rewrite lookup_empty in H.
Qed.

Lemma new_lot_counted (c t m : Z) (rate : float) :
  lot_counted 0 (ParkingLot.new c t m rate).
Proof.
  split; [apply new_lot_consistent |].
  split; [intros tn tk H; cbn in H; now rewrite lookup_empty in H |].
  split; [cbn; lia |].
  cbn [ParkingLot.new ParkingLot.activeTickets ParkingLot.parkingSlots].
  rewrite map_size_empty. unfold occupied_count.
  rewrite !List.filter_app, !length_app.
  now rewrite !make_slots_filter_none by (intros; reflexivity).
Qed.


Lemma ticket_number_fresh (lot : ParkingLot.t) :
  tickets_issued lot ->
  1 <= ParkingLot.nextTicketNumber lot ->
  ParkingLot.activeTickets lot
    !! ticket_number (ParkingLot.nextTicketNumber lot) = None.
Proof.
  intros Ht Hnext.
  destruct (ParkingLot.activeTickets lot
              !! ticket_number (ParkingLot.nextTicketNumber lot))
    as [tk |] eqn:E; [| reflexivity].
  apply Ht in E as (n & Hn & Heq).
  apply ticket_number_inj in Heq; lia.
Qed.

(** No active ticket names the slot [parkVehicle] finds free. *)
Lemma free_slot_unnamed (lot : ParkingLot.t) (i : nat) (slot : ParkingSlot.t) :
  tickets_consistent lot ->
  ParkingLot.parkingSlots lot !! i = Some slot ->
  ParkingSlot.isOccupied slot = false ->
  forall tn tk,
    ParkingLot.activeTickets lot !! tn = Some tk ->
    Z.to_nat (ParkingTicket.slotNumber tk - 1) <> i.
Proof.
  intros Ht Hi Hfree tn tk Htk Heq.
  apply Ht in Htk as (_ & _ & s & _ & Hs & Hocc & _).
  rewrite Heq, Hi in Hs. injection Hs as <-. congruence.
Qed.

Lemma parkVehicle_consistent (now : Z) (vehicle : option Vehicle.t)
    (lot : ParkingLot.t) :
  lot_consistent lot ->
  lot_consistent (snd (ParkingLot.parkVehicle now vehicle lot)).
Proof.
  intros Hinv. destruct vehicle as [v |]; [| exact Hinv].
  destruct (list_find (fun s => ParkingSlot.canPark s (Vehicle.getType v) = true)
              (ParkingLot.parkingSlots lot)) as [[i slot] |] eqn:Hfind;
    [| now rewrite (parkVehicle_not_found _ _ _ Hfind)].
  rewrite (parkVehicle_found _ _ _ _ _ Hfind). cbn [snd].
  apply list_find_Some in Hfind as (Hi & Hcan & _).
  apply canPark_fits in Hcan as [Hfree Hfits].
  destruct Hinv as (Hn & Hlay & Hempty & Ht & Hapart).
  pose proof (lookup_lt_Some _ _ _ Hi) as Hlt.
  pose proof (Hn i slot Hi) as Hnum.
  pose proof (free_slot_unnamed lot i slot Ht Hi Hfree) as Hother.
  split; [| split; [| split; [| split]]];
    unfold tickets_consistent, tickets_apart;
    cbn [ParkingLot.parkingSlots ParkingLot.activeTickets
         ParkingLot.nextTicketNumber].
  - now apply (replace_numbered _ _ slot).
  - now apply (replace_laid_out _ _ slot).
  - apply (replace_free_empty _ _ slot _ Hi);
      [reflexivity | reflexivity | unfold occupied_by; cbn; discriminate | exact Hempty].
  - intros tn tk Htk.
    apply lookup_insert_Some in Htk as [[<- <-] | [Hne Htk]].
    + cbn. split; [reflexivity |].
      split; [lia |].
      exists (occupied_by v slot), v.
      replace (Z.to_nat (ParkingSlot.slotNumber slot - 1)) with i by lia.
      rewrite list_lookup_insert_eq by exact Hlt. now repeat split.
    + pose proof (Hother _ _ Htk) as Hki.
      destruct (Ht _ _ Htk) as (H1 & H3 & s & v' & Hs & H4).
      split; [exact H1 |].
      split; [exact H3 |].
      exists s, v'. rewrite list_lookup_insert_ne by congruence.
      now split.
  - intros tn1 tn2 tk1 tk2 Hne H1 H2.
    apply lookup_insert_Some in H1 as [[<- <-] | [Hne1 H1]];
      apply lookup_insert_Some in H2 as [[<- <-] | [Hne2 H2]].
    + contradiction.
    + cbn. pose proof (Hother _ _ H2). lia.
    + cbn. pose proof (Hother _ _ H1). lia.
    + now apply (Hapart tn1 tn2).
Qed.

Lemma exitParking_found (now : Z) (tn : string) (lot : ParkingLot.t)
    (tk : ParkingTicket.t) (s : ParkingSlot.t) :
  ParkingLot.activeTickets lot !! tn = Some tk ->
  0 < ParkingTicket.slotNumber tk ->
  ParkingLot.parkingSlots lot !! Z.to_nat (ParkingTicket.slotNumber tk - 1)
  = Some s ->
  ParkingLot.exitParking now tn lot
  = (fst (ParkingTicket.calculateFee now (ParkingLot.hourlyRate lot) tk),
     {| ParkingLot.parkingSlots :=
          <[Z.to_nat (ParkingTicket.slotNumber tk - 1)
              := ParkingSlot.vacateSlot s]> (ParkingLot.parkingSlots lot);
        ParkingLot.activeTickets := delete tn (ParkingLot.activeTickets lot);
        ParkingLot.hourlyRate := ParkingLot.hourlyRate lot;
        ParkingLot.nextTicketNumber := ParkingLot.nextTicketNumber lot |}).
Proof.
  intros Htk Hpos Hs. unfold ParkingLot.exitParking. rewrite Htk.
  cbn. unfold ParkingTicket.getSlotNumber. cbn.
  pose proof (lookup_lt_Some _ _ _ Hs) as Hlt.
  replace (0 <? ParkingTicket.slotNumber tk) with true
    by (symmetry; apply Z.ltb_lt; lia).
  replace (ParkingTicket.slotNumber tk
           <=? Z.of_nat (length (ParkingLot.parkingSlots lot))) with true
    by (symmetry; apply Z.leb_le; lia).
  cbn. now rewrite (alter_as_insert _ _ _ _ Hs).
Qed.

Lemma exitParking_consistent (now : Z) (tn : string) (lot : ParkingLot.t) :
  lot_consistent lot ->
  lot_consistent (snd (ParkingLot.exitParking now tn lot)).
Proof.
  intros Hinv.
  destruct (ParkingLot.activeTickets lot !! tn) as [tk |] eqn:Htk;
    [| now rewrite (exitParking_unknown _ _ _ Htk)].
  destruct Hinv as (Hn & Hlay & Hempty & Ht & Hapart).
  destruct (Ht _ _ Htk) as (_ & Hpos & s & v & Hs & Hocc & _).
  rewrite (exitParking_found _ _ _ _ _ Htk Hpos Hs). cbn [snd].
  assert (forall tn' tk',
             tn' <> tn ->
             ParkingLot.activeTickets lot !! tn' = Some tk' ->
             Z.to_nat (ParkingTicket.slotNumber tk' - 1)
             <> Z.to_nat (ParkingTicket.slotNumber tk - 1)) as Hother.
  { intros tn' tk' Hne Htk' Heq.
    pose proof (Hapart _ _ _ _ Hne Htk' Htk) as Hdiff.
    destruct (Ht _ _ Htk') as (_ & Hpos' & _). lia. }
  split; [| split; [| split; [| split]]];
    unfold tickets_consistent, tickets_apart;
    cbn [ParkingLot.parkingSlots ParkingLot.activeTickets
         ParkingLot.nextTicketNumber].
  - now apply (replace_numbered _ _ s).
  - now apply (replace_laid_out _ _ s).
  - apply (replace_free_empty _ _ s _ Hs);
      [reflexivity | reflexivity | reflexivity | exact Hempty].
  - intros tn' tk' Htk'. apply lookup_delete_Some in Htk' as [Hne Htk'].
    destruct (Ht _ _ Htk') as (H1 & H3 & s' & v' & Hs' & H4).
    split; [exact H1 |]. split; [exact H3 |].
    exists s', v'.
    rewrite list_lookup_insert_ne
      by (intros Heq; apply (Hother tn' tk'); congruence).
    now split.
  - intros tn1 tn2 tk1 tk2 Hne H1 H2.
    apply lookup_delete_Some in H1 as [_ H1].
    apply lookup_delete_Some in H2 as [_ H2].
    now apply (Hapart tn1 tn2).
Qed.

Lemma lot_reachable_consistent (lot : ParkingLot.t) :
  lot_reachable lot -> lot_consistent lot.
Proof.
  induction 1 as [c t m r | now v lot _ IH | now tn lot _ IH].
  - apply new_lot_consistent.
  - now apply parkVehicle_consistent.
  - now apply exitParking_consistent.
Qed.

Lemma lot_reached_reachable (k : Z) (lot : ParkingLot.t) :
  lot_reached k lot -> lot_reachable lot.
Proof. induction 1; now constructor. Qed.

Lemma lot_reached_nonneg (k : Z) (lot : ParkingLot.t) :
  lot_reached k lot -> 0 <= k.
Proof. induction 1; lia. Qed.

(** While the counter stays below the end of the [int] range, a call of
    [parkVehicle] issues a number that is not active and the counts of
    occupied slots and active tickets stay equal. *)
Lemma parkVehicle_counted (k now : Z) (vehicle : option Vehicle.t)
    (lot : ParkingLot.t) :
  k + 1 < INT_MAX ->
  lot_counted k lot ->
  lot_counted (k + 1) (snd (ParkingLot.parkVehicle now vehicle lot)).
Proof.
  intros Hk (Hinv & Hissued & Hnext & Hcount).
  split; [now apply parkVehicle_consistent |].
  destruct vehicle as [v |];
    [| cbn; split; [exact Hissued |]; split; [lia | exact Hcount]].
  destruct (list_find (fun s => ParkingSlot.canPark s (Vehicle.getType v) = true)
              (ParkingLot.parkingSlots lot)) as [[i slot] |] eqn:Hfind;
    [| rewrite (parkVehicle_not_found _ _ _ Hfind); cbn;
       split; [exact Hissued |]; split; [lia | exact Hcount]].
  rewrite (parkVehicle_found _ _ _ _ _ Hfind). cbn [snd].
  apply list_find_Some in Hfind as (Hi & Hcan & _).
  apply canPark_fits in Hcan as [Hfree _].
  pose proof (ticket_number_fresh lot Hissued ltac:(lia)) as Hfresh.
  assert (wrap_int (ParkingLot.nextTicketNumber lot + 1)
          = ParkingLot.nextTicketNumber lot + 1) as Hwrap
    by (apply wrap_int_small; unfold INT_MIN, INT_MAX in *; lia).
  unfold tickets_issued.
  cbn [ParkingLot.parkingSlots ParkingLot.activeTickets
       ParkingLot.nextTicketNumber].
  rewrite Hwrap.
  split; [| split; [lia |]].
  - intros tn tk Htk.
    apply lookup_insert_Some in Htk as [[<- <-] | [Hne Htk]].
    + exists (ParkingLot.nextTicketNumber lot). split; [lia | reflexivity].
    + destruct (Hissued _ _ Htk) as (n & Hn & Heq).
      exists n. split; [lia | exact Heq].
  - rewrite map_size_insert_None by exact Hfresh.
    pose proof (replace_occupied_count _ _ slot (occupied_by v slot) Hi) as Hc.
    rewrite Hfree in Hc. cbn in Hc. lia.
Qed.

Lemma exitParking_counted (k now : Z) (tn : string) (lot : ParkingLot.t) :
  lot_counted k lot ->
  lot_counted k (snd (ParkingLot.exitParking now tn lot)).
Proof.
  intros (Hinv & Hissued & Hnext & Hcount).
  split; [now apply exitParking_consistent |].
  destruct (ParkingLot.activeTickets lot !! tn) as [tk |] eqn:Htk;
    [| rewrite (exitParking_unknown _ _ _ Htk); now repeat split].
  destruct Hinv as (_ & _ & _ & Ht & _).
  destruct (Ht _ _ Htk) as (_ & Hpos & s & v & Hs & Hocc & _).
  rewrite (exitParking_found _ _ _ _ _ Htk Hpos Hs). cbn [snd].
  unfold tickets_issued.
  cbn [ParkingLot.parkingSlots ParkingLot.activeTickets
       ParkingLot.nextTicketNumber].
  split; [| split; [exact Hnext |]].
  - intros tn' tk' Htk'. apply lookup_delete_Some in Htk' as [_ Htk'].
    now apply (Hissued tn' tk').
  - rewrite map_size_delete_Some by (now exists tk).
    pose proof (replace_occupied_count _ _ s (ParkingSlot.vacateSlot s) Hs) as Hc.
    rewrite Hocc in Hc. cbn in Hc. lia.
Qed.

Lemma lot_reached_counted (k : Z) (lot : ParkingLot.t) :
  lot_reached k lot -> k < INT_MAX -> lot_counted k lot.
Proof.
  induction 1 as [c t m r | k now v lot Hreach IH | k now tn lot _ IH];
    intros Hk.
  - apply new_lot_counted.
  - apply parkVehicle_counted; [exact Hk |]. apply IH. lia.
  - apply exitParking_counted. now apply IH.
Qed.


Lemma replace_filter_count (f : ParkingSlot.t -> bool) (l : list ParkingSlot.t) :
  forall (i : nat) (s s' : ParkingSlot.t),
    l !! i = Some s ->
    (length (List.filter f (<[i := s']> l)) + (if f s then 1 else 0)
     = length (List.filter f l) + (if f s' then 1 else 0))%nat.
Proof.
  induction l as [| x l0 IH]; intros k s s' Hk; [discriminate Hk |].
  destruct k as [| k]; simpl in *.
  - injection Hk as ->. destruct (f s), (f s'); simpl; lia.
  - specialize (IH k s s' Hk). destruct (f x); simpl; lia.
Qed.

Lemma insert_as_map (f : ParkingSlot.t -> ParkingSlot.t)
    (l : list ParkingSlot.t) (i : nat) (s : ParkingSlot.t) :
  slots_numbered l ->
  l !! i = Some s ->
  <[i := f s]> l
  = map (fun x => if ParkingSlot.slotNumber x =? Z.of_nat i + 1 then f x else x) l.
Proof.
  intros Hn Hi. apply list_eq. intros j.
  rewrite list_lookup_insert, list_lookup_fmap.
  pose proof (lookup_lt_Some _ _ _ Hi) as Hlt.
  destruct (decide (i = j)) as [<- | Hne].
  - rewrite decide_True by (split; [reflexivity | exact Hlt]).
    rewrite Hi. cbn. apply Hn in Hi.
    now replace (ParkingSlot.slotNumber s =? Z.of_nat i + 1) with true
      by (symmetry; apply Z.eqb_eq; lia).
  - rewrite decide_False by (intros [? _]; contradiction).
    destruct (l !! j) as [x |] eqn:Hj; cbn; [| reflexivity].
    apply Hn in Hj.
    now replace (ParkingSlot.slotNumber x =? Z.of_nat i + 1) with false
      by (symmetry; apply Z.eqb_neq; lia).
Qed.

(** X8.  In every lot built by the constructor, fewer than [INT_MAX]
    calls of [parkVehicle] and any number of [exitParking] calls (so that
    the [int] ticket counter has not overflowed), the occupied spaces are
    exactly as many as the active tickets; every active ticket is stored
    under its own ticket number and names an occupied slot of the lot; and
    two different active tickets never name the same slot. *)
Theorem occupied_spaces_match_active_tickets :
  forall (k : Z) (lot : ParkingLot.t),
    lot_reached k lot ->
    k < INT_MAX ->
    ParkingLot.getOccupiedSpaces lot
    = Z.of_nat (size (ParkingLot.activeTickets lot))
    /\ (forall (tn : string) (tk : ParkingTicket.t),
           ParkingLot.activeTickets lot !! tn = Some tk ->
           ParkingTicket.getTicketNumber tk = tn
           /\ exists s : ParkingSlot.t,
                s ∈ ParkingLot.parkingSlots lot
                /\ ParkingSlot.getSlotNumber s = ParkingTicket.getSlotNumber tk
                /\ ParkingSlot.isAvailable s = false)
    /\ (forall (tn1 tn2 : string) (tk1 tk2 : ParkingTicket.t),
           tn1 <> tn2 ->
           ParkingLot.activeTickets lot !! tn1 = Some tk1 ->
           ParkingLot.activeTickets lot !! tn2 = Some tk2 ->
           ParkingTicket.getSlotNumber tk1 <> ParkingTicket.getSlotNumber tk2).
Proof.
  intros k lot Hreach Hk.
  destruct (lot_reached_counted k lot Hreach Hk)
    as ((Hn & _ & _ & Ht & Hapart) & _ & _ & Hcount).
  split; [rewrite getOccupiedSpaces_count; now rewrite Hcount |].
  split; [| exact Hapart].
  intros tn tk Htk.
  destruct (Ht _ _ Htk) as (H1 & Hpos & s & _ & Hs & Hocc & _).
  split; [exact H1 |]. exists s.
  split; [now apply list_elem_of_lookup_2 in Hs |].
  split; [apply Hn in Hs; unfold ParkingSlot.getSlotNumber,
            ParkingTicket.getSlotNumber; lia |].
  unfold ParkingSlot.isAvailable. now rewrite Hocc.
Qed.

Lemma occupied_spaces_match_active_tickets_witness :
  ParkingLot.getOccupiedSpaces demo_lot
  = Z.of_nat (size (ParkingLot.activeTickets demo_lot)).
Proof.
  refine (proj1 (occupied_spaces_match_active_tickets 1 demo_lot _ _)).
  - apply (reached_park 0), reached_new.
  - reflexivity.
Defined.

(** X9.  When [parkVehicle] issues a ticket in such a lot (fewer than
    [INT_MAX] calls of [parkVehicle] before), the ticket number was not
    active before (no active ticket is overwritten), the ticket is stored
    under it with the entry time of the call, unpaid and for the vehicle
    given; one more space is occupied, one space less is available to the
    vehicle's type, and the total is unchanged. *)
Theorem parkVehicle_issues_fresh_ticket :
  forall (k now : Z) (v : Vehicle.t) (lot : ParkingLot.t)
         (tk : ParkingTicket.t),
    lot_reached k lot ->
    k < INT_MAX ->
    fst (ParkingLot.parkVehicle now (Some v) lot) = Some tk ->
    ParkingLot.activeTickets lot !! ParkingTicket.getTicketNumber tk = None
    /\ ParkingLot.activeTickets (snd (ParkingLot.parkVehicle now (Some v) lot))
       = <[ParkingTicket.getTicketNumber tk := tk]> (ParkingLot.activeTickets lot)
    /\ ParkingTicket.entryTime tk = now
    /\ ParkingTicket.isTicketPaid tk = false
    /\ ParkingTicket.vehicle tk = Some v
    /\ ParkingLot.getOccupiedSpaces (snd (ParkingLot.parkVehicle now (Some v) lot))
       = ParkingLot.getOccupiedSpaces lot + 1
    /\ ParkingLot.getAvailableSpaces (Vehicle.getType v)
         (snd (ParkingLot.parkVehicle now (Some v) lot))
       = ParkingLot.getAvailableSpaces (Vehicle.getType v) lot - 1
    /\ ParkingLot.getTotalSpaces (snd (ParkingLot.parkVehicle now (Some v) lot))
       = ParkingLot.getTotalSpaces lot.
Proof.
  intros k now v lot tk Hreach Hk Hpark.
  destruct (lot_reached_counted k lot Hreach Hk)
    as (_ & Hissued & Hnext & _).
  destruct (list_find (fun s => ParkingSlot.canPark s (Vehicle.getType v) = true)
              (ParkingLot.parkingSlots lot)) as [[i slot] |] eqn:Hfind;
    [| rewrite (parkVehicle_not_found _ _ _ Hfind) in Hpark; discriminate Hpark].
  rewrite (parkVehicle_found _ _ _ _ _ Hfind) in Hpark |- *.
  cbn [fst snd] in *. injection Hpark as <-.
  apply list_find_Some in Hfind as (Hi & Hcan & _).
  pose proof (canPark_fits _ _ Hcan) as [Hfree _].
  cbn [ParkingTicket.getTicketNumber ParkingTicket.new
       ParkingTicket.ticketNumber ParkingLot.activeTickets].
  split; [apply ticket_number_fresh; [exact Hissued | lia] |].
  split; [reflexivity |]. split; [reflexivity |].
  split; [reflexivity |]. split; [reflexivity |].
  split; [| split].
  - rewrite !getOccupiedSpaces_count. cbn [ParkingLot.parkingSlots].
    pose proof (replace_filter_count ParkingSlot.isOccupied _ _ _
                  (occupied_by v slot) Hi) as Hc.
    rewrite Hfree in Hc. cbn in Hc. unfold occupied_count. lia.
  - rewrite !getAvailableSpaces_counts_canPark. cbn [ParkingLot.parkingSlots].
    pose proof (replace_filter_count
                  (fun s => ParkingSlot.canPark s (Vehicle.getType v)) _ _ _
                  (occupied_by v slot) Hi) as Hc.
    cbn beta in Hc. rewrite Hcan in Hc. cbn in Hc. lia.
  - unfold ParkingLot.getTotalSpaces. cbn [ParkingLot.parkingSlots].
    now rewrite length_insert.
Qed.

Lemma parkVehicle_issues_fresh_ticket_witness :
  ParkingLot.activeTickets demo_lot
    !! ParkingTicket.getTicketNumber
         (ParkingTicket.new 3 "TKT00000002" (Some demo_car) 2)
  = None.
Proof.
  refine (proj1 (parkVehicle_issues_fresh_ticket 1 3 demo_car demo_lot
                   (ParkingTicket.new 3 "TKT00000002" (Some demo_car) 2) _ _ _)).
  - apply (reached_park 0), reached_new.
  - reflexivity.
  - vm_compute. reflexivity.
Defined.


(** X10.  The slot [parkVehicle] takes is the lowest-numbered slot that can
    take the vehicle: it was free and fits the vehicle's type, no slot with
    a smaller number could take the vehicle, and the call changes that
    slot alone (it becomes occupied by the vehicle). *)
Theorem parkVehicle_takes_first_fitting_slot :
  forall (now : Z) (v : Vehicle.t) (lot : ParkingLot.t) (tk : ParkingTicket.t),
    lot_reachable lot ->
    fst (ParkingLot.parkVehicle now (Some v) lot) = Some tk ->
    (exists s : ParkingSlot.t,
        s ∈ ParkingLot.parkingSlots lot
        /\ ParkingSlot.getSlotNumber s = ParkingTicket.getSlotNumber tk
        /\ ParkingSlot.canPark s (Vehicle.getType v) = true)
    /\ (forall s : ParkingSlot.t,
           s ∈ ParkingLot.parkingSlots lot ->
           ParkingSlot.getSlotNumber s < ParkingTicket.getSlotNumber tk ->
           ParkingSlot.canPark s (Vehicle.getType v) = false)
    /\ ParkingLot.parkingSlots (snd (ParkingLot.parkVehicle now (Some v) lot))
       = map (fun s => if ParkingSlot.slotNumber s
                          =? ParkingTicket.getSlotNumber tk
                       then occupied_by v s else s)
             (ParkingLot.parkingSlots lot).
Proof.
  intros now v lot tk Hreach Hpark.
  apply lot_reachable_consistent in Hreach as (Hn & _).
  destruct (list_find (fun s => ParkingSlot.canPark s (Vehicle.getType v) = true)
              (ParkingLot.parkingSlots lot)) as [[i slot] |] eqn:Hfind;
    [| rewrite (parkVehicle_not_found _ _ _ Hfind) in Hpark; discriminate Hpark].
  rewrite (parkVehicle_found _ _ _ _ _ Hfind) in Hpark |- *.
  cbn [fst snd] in *. injection Hpark as <-.
  apply list_find_Some in Hfind as (Hi & Hcan & Hfirst).
  pose proof (Hn _ _ Hi) as Hnum.
  cbn [ParkingTicket.getSlotNumber ParkingTicket.new ParkingTicket.slotNumber
       ParkingLot.parkingSlots].
  split; [| split].
  - exists slot. split; [now apply list_elem_of_lookup_2 in Hi |]. now split.
  - intros s Hs Hlt. apply list_elem_of_lookup in Hs as [j Hj].
    pose proof (Hn _ _ Hj) as Hnj. unfold ParkingSlot.getSlotNumber in Hlt.
    assert (j < i)%nat as Hji by lia.
    specialize (Hfirst j s Hj Hji).
    now destruct (ParkingSlot.canPark s (Vehicle.getType v)).
  - rewrite Hnum. now apply (insert_as_map (occupied_by v)).
Qed.

Lemma parkVehicle_takes_first_fitting_slot_witness :
  ParkingLot.parkingSlots (snd (ParkingLot.parkVehicle 3 (Some demo_car) demo_lot))
  = map (fun s => if ParkingSlot.slotNumber s
                     =? ParkingTicket.getSlotNumber
                          (ParkingTicket.new 3 "TKT00000002" (Some demo_car) 2)
                  then occupied_by demo_car s else s)
        (ParkingLot.parkingSlots demo_lot).
Proof.
  refine (proj2 (proj2 (parkVehicle_takes_first_fitting_slot 3 demo_car demo_lot
                   (ParkingTicket.new 3 "TKT00000002" (Some demo_car) 2) _ _))).
  - apply reach_park, reach_new.
  - vm_compute. reflexivity.
Defined.

(** X11.  Truck slots come first in the lot, so a car is parked in a truck
    slot whenever a truck slot is free, even if car slots are free too. *)
Theorem car_takes_truck_slot_first :
  forall (now : Z) (v : Vehicle.t) (lot : ParkingLot.t) (tk : ParkingTicket.t),
    lot_reachable lot ->
    Vehicle.getType v = CAR ->
    0 < ParkingLot.getAvailableSpaces TRUCK lot ->
    fst (ParkingLot.parkVehicle now (Some v) lot) = Some tk ->
    exists s : ParkingSlot.t,
      s ∈ ParkingLot.parkingSlots lot
      /\ ParkingSlot.getSlotNumber s = ParkingTicket.getSlotNumber tk
      /\ ParkingSlot.getSlotType s = TRUCK.
Proof.
  intros now v lot tk Hreach Hcar Htruck Hpark.
  apply lot_reachable_consistent in Hreach as (Hn & [Hsorted _] & _).
  destruct (list_find (fun s => ParkingSlot.canPark s (Vehicle.getType v) = true)
              (ParkingLot.parkingSlots lot)) as [[i slot] |] eqn:Hfind;
    [| rewrite (parkVehicle_not_found _ _ _ Hfind) in Hpark; discriminate Hpark].
  rewrite (parkVehicle_found _ _ _ _ _ Hfind) in Hpark.
  cbn [fst] in Hpark. injection Hpark as <-.
  apply list_find_Some in Hfind as (Hi & Hcan & Hfirst).
  exists slot. split; [now apply list_elem_of_lookup_2 in Hi |].
  split; [reflexivity |].
  (* a free truck slot exists, at some index j *)
  destruct (list_find (fun s => ParkingSlot.canPark s TRUCK = true)
              (ParkingLot.parkingSlots lot)) as [[j st] |] eqn:Hft;
    [| apply no_space_iff_not_found in Hft; lia].
  apply list_find_Some in Hft as (Hj & Hcant & _).
  apply canPark_iff in Hcant as [Hfreej [Htj | [_ Hx]]]; [| discriminate Hx].
  assert (ParkingSlot.canPark st (Vehicle.getType v) = true) as Hcanj.
  { apply canPark_iff. split; [exact Hfreej |]. right. now split. }
  destruct (decide (i = j)) as [-> | Hne].
  { rewrite Hi in Hj. injection Hj as ->. exact Htj. }
  assert (i < j)%nat as Hij.
  { destruct (decide (j < i)%nat) as [Hlt | Hge]; [| lia].
    specialize (Hfirst j st Hj Hlt). congruence. }
  specialize (Hsorted i j slot st Hij Hi Hj). rewrite Htj in Hsorted.
  unfold ParkingSlot.getSlotType.
  destruct (ParkingSlot.slotType slot); simpl in Hsorted; first [reflexivity | lia].
Qed.

Lemma car_takes_truck_slot_first_witness :
  exists s : ParkingSlot.t,
    s ∈ ParkingLot.parkingSlots (ParkingLot.new 1 1 0 10%float)
    /\ ParkingSlot.getSlotNumber s
       = ParkingTicket.getSlotNumber
           (ParkingTicket.new 0 "TKT00000001" (Some demo_car) 1)
    /\ ParkingSlot.getSlotType s = TRUCK.
Proof.
  apply (car_takes_truck_slot_first 0 demo_car (ParkingLot.new 1 1 0 10%float)).
  - apply reach_new.
  - reflexivity.
  - vm_compute. reflexivity.
  - vm_compute. reflexivity.
Defined.

(** X12.  No lot built by the constructor has a slot for an electric
    vehicle: for a vehicle of type ELECTRIC [getAvailableSpaces] is 0 and
    [parkVehicle] returns no ticket and leaves the lot unchanged. *)
Theorem electric_vehicle_never_parks :
  forall (now : Z) (v : Vehicle.t) (lot : ParkingLot.t),
    lot_reachable lot ->
    Vehicle.getType v = ELECTRIC ->
    ParkingLot.getAvailableSpaces ELECTRIC lot = 0
    /\ ParkingLot.isFullFor ELECTRIC lot = true
    /\ ParkingLot.parkVehicle now (Some v) lot = (None, lot).
Proof.
  intros now v lot Hreach Hv.
  apply lot_reachable_consistent in Hreach as (_ & [_ Hnone] & _).
  assert (list_find (fun s => ParkingSlot.canPark s ELECTRIC = true)
            (ParkingLot.parkingSlots lot) = None) as Hfind.
  { apply list_find_None. apply Forall_forall. intros s Hs Hcan.
    apply canPark_iff in Hcan as [_ [H | [_ H]]]; [| discriminate H].
    now apply (Hnone s). }
  pose proof (proj2 (no_space_iff_not_found ELECTRIC lot) Hfind) as H0.
  split; [exact H0 |].
  split; [unfold ParkingLot.isFullFor; now rewrite H0 |].
  apply parkVehicle_not_found. now rewrite Hv.
Qed.

Lemma electric_vehicle_never_parks_witness :
  ParkingLot.getAvailableSpaces ELECTRIC demo_lot = 0
  /\ ParkingLot.isFullFor ELECTRIC demo_lot = true
  /\ ParkingLot.parkVehicle 9 (Some (Vehicle.Build "EV01" ELECTRIC)) demo_lot
     = (None, demo_lot).
Proof.
  apply (electric_vehicle_never_parks 9 (Vehicle.Build "EV01" ELECTRIC) demo_lot).
  - apply reach_park, reach_new.
  - reflexivity.
Defined.


(** ** The lot: leaving again *)

(** X13.  Parking a vehicle and leaving with the ticket issued gives the
    lot back, as long as fewer than [INT_MAX] calls of [parkVehicle] were
    made before: every slot and the active tickets are as before the
    vehicle came, only the ticket counter has been incremented.  The fee
    returned is the one [calculateFee] charges for the ticket at the lot's
    rate. *)
Theorem park_then_exit_restores_lot :
  forall (k now now' : Z) (v : Vehicle.t) (lot : ParkingLot.t)
         (tk : ParkingTicket.t),
    lot_reached k lot ->
    k < INT_MAX ->
    fst (ParkingLot.parkVehicle now (Some v) lot) = Some tk ->
    ParkingLot.exitParking now' (ParkingTicket.getTicketNumber tk)
      (snd (ParkingLot.parkVehicle now (Some v) lot))
    = (fst (ParkingTicket.calculateFee now' (ParkingLot.hourlyRate lot) tk),
       with_counter (wrap_int (ParkingLot.nextTicketNumber lot + 1)) lot).
Proof.
  intros k now now' v lot tk Hreach Hk Hpark.
  destruct (lot_reached_counted k lot Hreach Hk)
    as ((Hn & _ & Hempty & Ht & _) & Hissued & Hnext & _).
  destruct (list_find (fun s => ParkingSlot.canPark s (Vehicle.getType v) = true)
              (ParkingLot.parkingSlots lot)) as [[i slot] |] eqn:Hfind;
    [| rewrite (parkVehicle_not_found _ _ _ Hfind) in Hpark; discriminate Hpark].
  rewrite (parkVehicle_found _ _ _ _ _ Hfind) in Hpark |- *.
  cbn [fst snd] in *. injection Hpark as <-.
  apply list_find_Some in Hfind as (Hi & Hcan & _).
  pose proof (canPark_fits _ _ Hcan) as [Hfree _].
  pose proof (Hn _ _ Hi) as Hnum.
  pose proof (lookup_lt_Some _ _ _ Hi) as Hlt.
  pose proof (ticket_number_fresh lot Hissued ltac:(lia)) as Hfresh.
  assert (ParkingSlot.parkedVehicle slot = None) as Hnone
    by (apply Hempty; [now apply list_elem_of_lookup_2 in Hi | exact Hfree]).
  rewrite (exitParking_found now' _ _
             (ParkingTicket.new now
                (ticket_number (ParkingLot.nextTicketNumber lot)) (Some v)
                (ParkingSlot.slotNumber slot))
             (occupied_by v slot)).
  - cbn [ParkingTicket.getTicketNumber ParkingTicket.new
         ParkingTicket.ticketNumber ParkingTicket.slotNumber
         ParkingLot.parkingSlots ParkingLot.activeTickets
         ParkingLot.hourlyRate ParkingLot.nextTicketNumber].
    f_equal. unfold with_counter. f_equal.
    + replace (Z.to_nat (ParkingSlot.slotNumber slot - 1)) with i by lia.
      rewrite list_insert_insert_eq.
      apply list_insert_id.
      rewrite Hi. f_equal. destruct slot as [n occ pv ty]. cbn in *.
      now subst.
    + rewrite delete_insert_eq. now apply delete_id.
  - cbn. apply lookup_insert_eq.
  - cbn. lia.
  - cbn [ParkingTicket.new ParkingTicket.slotNumber ParkingLot.parkingSlots].
    replace (Z.to_nat (ParkingSlot.slotNumber slot - 1)) with i by lia.
    now apply list_lookup_insert_eq.
Qed.

Lemma park_then_exit_restores_lot_witness :
  ParkingLot.exitParking 8
    (ParkingTicket.getTicketNumber
       (ParkingTicket.new 3 "TKT00000002" (Some demo_car) 2))
    (snd (ParkingLot.parkVehicle 3 (Some demo_car) demo_lot))
  = (fst (ParkingTicket.calculateFee 8 (ParkingLot.hourlyRate demo_lot)
            (ParkingTicket.new 3 "TKT00000002" (Some demo_car) 2)),
     with_counter (wrap_int (ParkingLot.nextTicketNumber demo_lot + 1))
       demo_lot).
Proof.
  apply (park_then_exit_restores_lot 1 3 8 demo_car demo_lot).
  - apply (reached_park 0), reached_new.
  - reflexivity.
  - vm_compute. reflexivity.
Defined.

(** X14.  Leaving with an active ticket frees a space: one space less is
    occupied, the total is unchanged, and the vehicle of the ticket can be
    parked again at once. *)
Theorem exitParking_frees_a_space :
  forall (now now' : Z) (tn : string) (lot : ParkingLot.t) (tk : ParkingTicket.t),
    lot_reachable lot ->
    ParkingLot.activeTickets lot !! tn = Some tk ->
    ParkingLot.getOccupiedSpaces (snd (ParkingLot.exitParking now tn lot))
    = ParkingLot.getOccupiedSpaces lot - 1
    /\ ParkingLot.getTotalSpaces (snd (ParkingLot.exitParking now tn lot))
       = ParkingLot.getTotalSpaces lot
    /\ ParkingLot.isFull (snd (ParkingLot.exitParking now tn lot)) = false
    /\ exists (v : Vehicle.t) (tk' : ParkingTicket.t),
         ParkingTicket.vehicle tk = Some v
         /\ fst (ParkingLot.parkVehicle now' (Some v)
                   (snd (ParkingLot.exitParking now tn lot))) = Some tk'.
Proof.
  intros now now' tn lot tk Hreach Htk.
  apply lot_reachable_consistent in Hreach as (Hn & _ & _ & Ht & _).
  destruct (Ht _ _ Htk) as (_ & Hpos & s & v & Hs & Hocc & Hv & Hfits).
  rewrite (exitParking_found _ _ _ _ _ Htk Hpos Hs). cbn [snd].
  pose proof (replace_filter_count ParkingSlot.isOccupied _ _ _
                (ParkingSlot.vacateSlot s) Hs) as Hc.
  rewrite Hocc in Hc. cbn in Hc.
  assert (ParkingLot.getOccupiedSpaces
            {| ParkingLot.parkingSlots :=
                 <[Z.to_nat (ParkingTicket.slotNumber tk - 1)
                     := ParkingSlot.vacateSlot s]> (ParkingLot.parkingSlots lot);
               ParkingLot.activeTickets := delete tn (ParkingLot.activeTickets lot);
               ParkingLot.hourlyRate := ParkingLot.hourlyRate lot;
               ParkingLot.nextTicketNumber := ParkingLot.nextTicketNumber lot |}
          = ParkingLot.getOccupiedSpaces lot - 1) as Hoccupied.
  { rewrite !getOccupiedSpaces_count. cbn [ParkingLot.parkingSlots].
    unfold occupied_count. lia. }
  split; [exact Hoccupied |].
  split; [unfold ParkingLot.getTotalSpaces; cbn [ParkingLot.parkingSlots];
          now rewrite length_insert |].
  split.
  { destruct (ParkingLot.isFull _) eqn:Hfull; [| reflexivity].
    apply isFull_iff in Hfull. cbn [ParkingLot.parkingSlots] in Hfull.
    rewrite length_insert in Hfull.
    pose proof (filter_length_le ParkingSlot.isOccupied
                  (ParkingLot.parkingSlots lot)) as Hle.
    unfold occupied_count in Hfull. lia. }
  exists v.
  pose proof (lookup_lt_Some _ _ _ Hs) as Hlt.
  destruct (list_find
              (fun x => ParkingSlot.canPark x (Vehicle.getType v) = true)
              (<[Z.to_nat (ParkingTicket.slotNumber tk - 1)
                   := ParkingSlot.vacateSlot s]> (ParkingLot.parkingSlots lot)))
    as [[j x] |] eqn:Hfind.
  - eexists. split; [exact Hv |].
    erewrite parkVehicle_found by exact Hfind. reflexivity.
  - exfalso. apply list_find_None in Hfind.
    rewrite Forall_forall in Hfind.
    apply (Hfind (ParkingSlot.vacateSlot s)).
    + apply list_elem_of_lookup.
      exists (Z.to_nat (ParkingTicket.slotNumber tk - 1)).
      now apply list_lookup_insert_eq.
    + apply canPark_iff. split; [reflexivity | exact Hfits].
Qed.

Lemma exitParking_frees_a_space_witness :
  ParkingLot.getOccupiedSpaces
    (snd (ParkingLot.exitParking 5 "TKT00000001" demo_lot))
  = ParkingLot.getOccupiedSpaces demo_lot - 1.
Proof.
  refine (proj1 (exitParking_frees_a_space 5 6 "TKT00000001" demo_lot
                   (ParkingTicket.new 0 "TKT00000001" (Some demo_car) 1) _ _)).
  - apply reach_park, reach_new.
  - vm_compute. reflexivity.
Defined.


(** ** Paying for a ticket *)

Lemma leb_nan_r (x : float) : PrimFloat.leb x PrimFloat.nan = false.
Proof.
  rewrite FloatAxioms.leb_spec.
  replace (FloatOps.Prim2SF PrimFloat.nan) with SpecFloat.S754_nan
    by (vm_compute; reflexivity).
  unfold SpecFloat.SFleb, SpecFloat.SFcompare.
  destruct (FloatOps.Prim2SF x) as [[|] | [|] | | [|] m e]; reflexivity.
Qed.

Lemma app_PAY_inj (a b : string) :
  ("PAY" +:+ a)%string = ("PAY" +:+ b)%string -> a = b.
Proof. intros H. now injection H. Qed.

(** X15.  Once [calculateFee] has set the amount charged, the ticket's
    [processPayment] is defined; it marks the ticket paid and records the
    exit time exactly when the amount covers the fee, and leaves the
    ticket untouched otherwise.  A ticket whose fee was never computed
    gives no defined result, and a ticket already paid stays paid. *)
Theorem ticket_processPayment_after_fee :
  forall (now now' : Z) (rate amount : float) (tk : ParkingTicket.t),
    ParkingTicket.processPayment now' amount
      (ParkingTicket.new now (ParkingTicket.ticketNumber tk)
         (ParkingTicket.vehicle tk) (ParkingTicket.slotNumber tk)) = None
    /\ exists tk' : ParkingTicket.t,
         ParkingTicket.processPayment now' amount
           (snd (ParkingTicket.calculateFee now rate tk)) = Some tk'
         /\ ParkingTicket.isTicketPaid tk'
            = (PrimFloat.leb (fst (ParkingTicket.calculateFee now rate tk)) amount
               || ParkingTicket.isTicketPaid tk)
         /\ (PrimFloat.leb (fst (ParkingTicket.calculateFee now rate tk)) amount
             = true ->
             ParkingTicket.exitTime tk' = now'
             /\ ParkingTicket.getParkingDuration tk'
                = now' - ParkingTicket.entryTime tk)
         /\ (PrimFloat.leb (fst (ParkingTicket.calculateFee now rate tk)) amount
             = false ->
             tk' = snd (ParkingTicket.calculateFee now rate tk))
         /\ ParkingTicket.getTicketNumber tk' = ParkingTicket.getTicketNumber tk
         /\ ParkingTicket.getSlotNumber tk' = ParkingTicket.getSlotNumber tk
         /\ ParkingTicket.getVehicleLicenseNumber tk'
            = ParkingTicket.getVehicleLicenseNumber tk
         /\ ParkingTicket.amountCharged tk'
            = Some (fst (ParkingTicket.calculateFee now rate tk)).
Proof.
  intros now now' rate amount tk. split; [reflexivity |].
  unfold ParkingTicket.processPayment, ParkingTicket.calculateFee.
  cbn [fst snd ParkingTicket.amountCharged].
  destruct (PrimFloat.leb _ amount) eqn:Hle; eexists; (split; [reflexivity |]).
  - repeat split; intros; try reflexivity; discriminate.
  - repeat split; intros; try reflexivity; discriminate.
Qed.

(** X16.  The parking [Payment::processPayment] never reads an unset
    amount: it always gives a result.  With no ticket it returns false and
    changes nothing.  With a ticket it returns true exactly when the
    amount covers the fee at the fixed rate of 10.0 per started hour; the
    payment is then completed with the amount and the time recorded and
    its ticket is paid with the exit time set.  Otherwise the payment
    stays as it was, except that the fee is now recorded in the ticket.
    A NaN amount is never accepted. *)
Theorem payment_processPayment_outcome :
  forall (nowFee nowPaid nowExit : Z) (amt : float) (p : ParkingPayment.t),
    exists (ok : bool) (p' : ParkingPayment.t),
      ParkingPayment.processPayment nowFee nowPaid nowExit amt p = Some (ok, p')
      /\ ParkingPayment.getPaymentId p' = ParkingPayment.getPaymentId p
      /\ ParkingPayment.getAssociatedTicketNumber p'
         = ParkingPayment.getAssociatedTicketNumber p
      /\ (ParkingPayment.ticket p = None -> ok = false /\ p' = p)
      /\ (forall tk : ParkingTicket.t,
            ParkingPayment.ticket p = Some tk ->
            ok = PrimFloat.leb
                   (fst (ParkingTicket.calculateFee nowFee 10%float tk)) amt
            /\ exists tk' : ParkingTicket.t,
                 ParkingPayment.ticket p' = Some tk'
                 /\ ParkingTicket.amountCharged tk'
                    = Some (fst (ParkingTicket.calculateFee nowFee 10%float tk))
                 /\ ParkingTicket.isTicketPaid tk'
                    = (ok || ParkingTicket.isTicketPaid tk)
                 /\ (ok = true -> ParkingTicket.exitTime tk' = nowExit)
                 /\ (ok = false ->
                     tk' = snd (ParkingTicket.calculateFee nowFee 10%float tk)))
      /\ (ok = true ->
          ParkingPayment.isPaymentCompleted p' = true
          /\ ParkingPayment.amount p' = Some amt
          /\ ParkingPayment.paymentTime p' = nowPaid)
      /\ (ok = false ->
          ParkingPayment.isPaymentCompleted p' = ParkingPayment.isPaymentCompleted p
          /\ ParkingPayment.amount p' = ParkingPayment.amount p
          /\ ParkingPayment.paymentTime p' = ParkingPayment.paymentTime p)
      /\ (amt = PrimFloat.nan -> ok = false).
Proof.
  intros nowFee nowPaid nowExit amt p.
  unfold ParkingPayment.processPayment, ParkingPayment.getAssociatedTicketNumber.
  destruct (ParkingPayment.ticket p) as [tk |] eqn:Hticket.
  - unfold ParkingTicket.calculateFee, ParkingTicket.processPayment.
    cbn [fst snd ParkingTicket.amountCharged].
    destruct (PrimFloat.leb _ amt) eqn:Hle.
    + do 2 eexists. split; [reflexivity |].
      cbn [ParkingPayment.getPaymentId ParkingPayment.paymentId
           ParkingPayment.ticket].
      split; [reflexivity |]. split; [reflexivity |].
      split; [discriminate |].
      split.
      { intros tk0 [= <-]. split; [now rewrite Hle |].
        eexists. split; [reflexivity |].
        repeat split; intros; try reflexivity; discriminate. }
      split; [intros _; repeat split |].
      split; [discriminate |].
      intros ->. now rewrite leb_nan_r in Hle.
    + do 2 eexists. split; [reflexivity |].
      cbn [ParkingPayment.getPaymentId ParkingPayment.paymentId
           ParkingPayment.ticket].
      split; [reflexivity |]. split; [reflexivity |].
      split; [discriminate |].
      split.
      { intros tk0 [= <-]. split; [now rewrite Hle |].
        eexists. split; [reflexivity |].
        repeat split; intros; try reflexivity; discriminate. }
      split; [discriminate |].
      split; [intros _; repeat split |].
      reflexivity.
  - exists false, p. rewrite Hticket.
    repeat split; intros; try reflexivity; discriminate.
Qed.

(** X17.  Two parking payments get the same payment id exactly when they
    are created within the same millisecond, whatever their tickets. *)
Theorem payment_ids_collide_within_a_millisecond :
  forall (now1 now2 : Z) (tk1 tk2 : option ParkingTicket.t),
    ParkingPayment.getPaymentId (ParkingPayment.new now1 tk1)
    = ParkingPayment.getPaymentId (ParkingPayment.new now2 tk2)
    <-> ParkingPayment.milliseconds_since_epoch now1
        = ParkingPayment.milliseconds_since_epoch now2.
Proof.
  intros now1 now2 tk1 tk2.
  unfold ParkingPayment.getPaymentId, ParkingPayment.new. cbn.
  split.
  - intros H. apply app_PAY_inj in H. unfold to_string in H.
    now apply (inj pretty) in H.
  - now intros ->.
Qed.


(** ** The lot: what it does not check *)

Lemma parkVehicle_issued (now : Z) (v : Vehicle.t) (lot : ParkingLot.t)
    (tk : ParkingTicket.t) :
  fst (ParkingLot.parkVehicle now (Some v) lot) = Some tk ->
  exists (i : nat) (slot : ParkingSlot.t),
    ParkingLot.parkingSlots lot !! i = Some slot
    /\ ParkingSlot.canPark slot (Vehicle.getType v) = true
    /\ tk = ParkingTicket.new now
              (ticket_number (ParkingLot.nextTicketNumber lot)) (Some v)
              (ParkingSlot.slotNumber slot)
    /\ snd (ParkingLot.parkVehicle now (Some v) lot)
       = {| ParkingLot.parkingSlots :=
              <[i := occupied_by v slot]> (ParkingLot.parkingSlots lot);
            ParkingLot.activeTickets :=
              <[ticket_number (ParkingLot.nextTicketNumber lot) := tk]>
                (ParkingLot.activeTickets lot);
            ParkingLot.hourlyRate := ParkingLot.hourlyRate lot;
            ParkingLot.nextTicketNumber :=
              wrap_int (ParkingLot.nextTicketNumber lot + 1) |}.
Proof.
  intros Hpark.
  destruct (list_find (fun s => ParkingSlot.canPark s (Vehicle.getType v) = true)
              (ParkingLot.parkingSlots lot)) as [[i slot] |] eqn:Hfind;
    [| rewrite (parkVehicle_not_found _ _ _ Hfind) in Hpark; discriminate Hpark].
  rewrite (parkVehicle_found _ _ _ _ _ Hfind) in Hpark |- *.
  cbn [fst snd] in *. injection Hpark as <-.
  apply list_find_Some in Hfind as (Hi & Hcan & _).
  exists i, slot. repeat split; assumption.
Qed.

(** X18.  The lot never checks whether a vehicle is already parked.  If a
    vehicle is given a ticket while at least two spaces are available to
    its type, parking the same vehicle again succeeds: it gets a second
    ticket with another number for another slot, and both tickets are
    active for the same vehicle. *)
Theorem same_vehicle_parks_twice :
  forall (now1 now2 : Z) (v : Vehicle.t) (lot : ParkingLot.t)
         (tk1 : ParkingTicket.t),
    lot_reachable lot ->
    2 <= ParkingLot.getAvailableSpaces (Vehicle.getType v) lot ->
    fst (ParkingLot.parkVehicle now1 (Some v) lot) = Some tk1 ->
    exists tk2 : ParkingTicket.t,
      fst (ParkingLot.parkVehicle now2 (Some v)
             (snd (ParkingLot.parkVehicle now1 (Some v) lot))) = Some tk2
      /\ ParkingTicket.getTicketNumber tk2 <> ParkingTicket.getTicketNumber tk1
      /\ ParkingTicket.getSlotNumber tk2 <> ParkingTicket.getSlotNumber tk1
      /\ ParkingTicket.vehicle tk1 = Some v
      /\ ParkingTicket.vehicle tk2 = Some v
      /\ ParkingLot.activeTickets
           (snd (ParkingLot.parkVehicle now2 (Some v)
                   (snd (ParkingLot.parkVehicle now1 (Some v) lot))))
           !! ParkingTicket.getTicketNumber tk1 = Some tk1
      /\ ParkingLot.activeTickets
           (snd (ParkingLot.parkVehicle now2 (Some v)
                   (snd (ParkingLot.parkVehicle now1 (Some v) lot))))
           !! ParkingTicket.getTicketNumber tk2 = Some tk2.
Proof.
  intros now1 now2 v lot tk1 Hreach Hspace Hpark1.
  pose proof (reach_park now1 (Some v) lot Hreach) as Hreach1.
  pose proof (reach_park now2 (Some v) _ Hreach1) as Hreach2.
  apply lot_reachable_consistent in Hreach2 as (_ & _ & _ & _ & Hapart).
  destruct (parkVehicle_issued _ _ _ _ Hpark1)
    as (i & slot & Hi & Hcan & Htk1 & Hlot1).
  set (lot1 := snd (ParkingLot.parkVehicle now1 (Some v) lot)) in *.
  assert (ParkingLot.getAvailableSpaces (Vehicle.getType v) lot1 <> 0) as Hleft.
  { rewrite Hlot1. rewrite getAvailableSpaces_counts_canPark in Hspace |- *.
    cbn [ParkingLot.parkingSlots].
    pose proof (replace_filter_count
                  (fun s => ParkingSlot.canPark s (Vehicle.getType v)) _ _ _
                  (occupied_by v slot) Hi) as Hc.
    cbn beta in Hc. rewrite Hcan in Hc. cbn in Hc. lia. }
  destruct (fst (ParkingLot.parkVehicle now2 (Some v) lot1)) as [tk2 |] eqn:Hpark2.
  - destruct (parkVehicle_issued _ _ _ _ Hpark2)
      as (j & slot2 & Hj & Hcan2 & Htk2 & Hlot2).
    assert (ParkingLot.nextTicketNumber lot1
            = wrap_int (ParkingLot.nextTicketNumber lot + 1))
      as Hcounter by now rewrite Hlot1.
    assert (ParkingTicket.getTicketNumber tk2 <> ParkingTicket.getTicketNumber tk1)
      as Hne.
    { rewrite Htk1, Htk2. cbn. rewrite Hcounter. intros Heq.
      apply ticket_number_inj_all in Heq. now apply wrap_int_succ_neq in Heq. }
    assert (ParkingLot.activeTickets
              (snd (ParkingLot.parkVehicle now2 (Some v) lot1))
              !! ParkingTicket.getTicketNumber tk1 = Some tk1) as Hactive1.
    { rewrite Hlot2. cbn [ParkingLot.activeTickets].
      rewrite lookup_insert_ne.
      - rewrite Hlot1. cbn [ParkingLot.activeTickets].
        replace (ParkingTicket.getTicketNumber tk1)
          with (ticket_number (ParkingLot.nextTicketNumber lot))
          by now rewrite Htk1.
        apply lookup_insert_eq.
      - intros Heq. apply Hne. rewrite <- Heq. now rewrite Htk2. }
    assert (ParkingLot.activeTickets
              (snd (ParkingLot.parkVehicle now2 (Some v) lot1))
              !! ParkingTicket.getTicketNumber tk2 = Some tk2) as Hactive2.
    { rewrite Hlot2. cbn [ParkingLot.activeTickets].
      replace (ParkingTicket.getTicketNumber tk2)
        with (ticket_number (ParkingLot.nextTicketNumber lot1))
        by now rewrite Htk2.
      apply lookup_insert_eq. }
    exists tk2. split; [reflexivity |]. split; [exact Hne |].
    split; [exact (Hapart _ _ _ _ Hne Hactive2 Hactive1) |].
    split; [now rewrite Htk1 |]. split; [now rewrite Htk2 |].
    split; assumption.
  - exfalso. apply Hleft. apply no_space_iff_not_found.
    destruct (list_find
                (fun s => ParkingSlot.canPark s (Vehicle.getType v) = true)
                (ParkingLot.parkingSlots lot1)) as [[j s] |] eqn:Hfind;
      [| reflexivity].
    rewrite (parkVehicle_found _ _ _ _ _ Hfind) in Hpark2. discriminate Hpark2.
Qed.

Lemma same_vehicle_parks_twice_witness :
  exists tk2 : ParkingTicket.t,
    fst (ParkingLot.parkVehicle 4 (Some demo_car)
           (snd (ParkingLot.parkVehicle 3 (Some demo_car)
                   (ParkingLot.new 2 0 0 10%float)))) = Some tk2
    /\ ParkingTicket.vehicle tk2 = Some demo_car.
Proof.
  destruct (same_vehicle_parks_twice 3 4 demo_car
              (ParkingLot.new 2 0 0 10%float)
              (ParkingTicket.new 3 "TKT00000001" (Some demo_car) 1))
    as (tk2 & Hpark & _ & _ & _ & Hv & _).
  - apply reach_new.
  - vm_compute. discriminate.
  - vm_compute. reflexivity.
  - exists tk2. split; assumption.
Defined.


(** ** Exceptions and HTTP messages *)

(** X19.  Every exception built by a constructor of a derived class of
    Exceptions.h carries a non-empty error code, and the error code fixes
    the HTTP status code: it is the one the table gives, between 400 and
    502, so two such exceptions with the same error code have the same
    status code.  No constructor argument changes either. *)
Theorem exception_error_code_fixes_status :
  forall x y : Utils.Thrown,
    Utils.constructed x ->
    Utils.constructed y ->
    status_of_error_code (Utils.getErrorCode (Utils.base_of x))
    = Some (Utils.getHttpStatusCode (Utils.base_of x))
    /\ 400 <= Utils.getHttpStatusCode (Utils.base_of x) <= 502
    /\ Utils.getErrorCode (Utils.base_of x) <> ""%string
    /\ (Utils.getErrorCode (Utils.base_of x) = Utils.getErrorCode (Utils.base_of y) ->
        Utils.getHttpStatusCode (Utils.base_of x)
        = Utils.getHttpStatusCode (Utils.base_of y)).
Proof.
  intros x y Hx Hy.
  assert (forall z, Utils.constructed z ->
            status_of_error_code (Utils.getErrorCode (Utils.base_of z))
            = Some (Utils.getHttpStatusCode (Utils.base_of z))) as Htable
    by (intros z Hz; destruct Hz; reflexivity).
  split; [now apply Htable |].
  split; [destruct Hx; cbn; lia |].
  split; [destruct Hx; cbn; discriminate |].
  intros Heq. pose proof (Htable x Hx) as Hsx. pose proof (Htable y Hy) as Hsy.
  rewrite Heq in Hsx. congruence.
Qed.

Lemma exception_error_code_fixes_status_witness :
  status_of_error_code
    (Utils.getErrorCode
       (Utils.base_of
          (Utils.ThrownConflict (Utils.SeatAlreadyBookedException_new 3 7))))
  = Some 409.
Proof.
  refine (proj1 (exception_error_code_fixes_status
                   (Utils.ThrownConflict (Utils.SeatAlreadyBookedException_new 3 7))
                   (Utils.ThrownConcurrency (Utils.LockTimeoutException_new "seat" 50))
                   _ _)).
  - apply Utils.by_SeatAlreadyBooked.
  - apply Utils.by_LockTimeout.
Defined.

(** X20.  The lookups of an [HttpRequest] never fail: a name that is not
    in the map gives the empty string.  So the empty string comes back
    exactly when the name is missing or is stored with an empty value (the
    two cannot be told apart), and a non-empty value comes back exactly
    when it is the one stored.  Each lookup reads its own map only. *)
Theorem request_lookups_default_to_empty :
  forall (name : string) (r : HttpRequest.t),
    (HttpRequest.getHeader name r = ""%string
     <-> HttpRequest.headers r !! name = None
         \/ HttpRequest.headers r !! name = Some ""%string)
    /\ (HttpRequest.getQueryParam name r = ""%string
        <-> HttpRequest.queryParams r !! name = None
            \/ HttpRequest.queryParams r !! name = Some ""%string)
    /\ (HttpRequest.getPathParam name r = ""%string
        <-> HttpRequest.pathParams r !! name = None
            \/ HttpRequest.pathParams r !! name = Some ""%string)
    /\ (forall value : string,
          value <> ""%string ->
          (HttpRequest.getHeader name r = value
           <-> HttpRequest.headers r !! name = Some value)
          /\ (HttpRequest.getQueryParam name r = value
              <-> HttpRequest.queryParams r !! name = Some value)
          /\ (HttpRequest.getPathParam name r = value
              <-> HttpRequest.pathParams r !! name = Some value)).
Proof.
  intros name r.
  unfold HttpRequest.getHeader, HttpRequest.getQueryParam,
    HttpRequest.getPathParam.
  destruct (HttpRequest.headers r !! name) as [h |],
           (HttpRequest.queryParams r !! name) as [q |],
           (HttpRequest.pathParams r !! name) as [p |];
    (repeat split; intros;
     try match goal with H : _ \/ _ |- _ => destruct H end;
     try congruence; try (right; congruence); try (left; reflexivity)).
Qed.
